(** * KVDK hash collection: HashList write path and OldRecordsCleaner

    A shallow embedding of
      - src/volatile/engine/hash_collection/hash_list.cpp
      - src/engine/hash_collection/hash_list.hpp
      - src/engine/version/old_records_cleaner.cpp
    Stateful C++ becomes explicit state passing in a small monad whose
    results are: the call returned, the process stopped (std::abort, a
    failed assertion, an access through an invalid pointer), or a retry
    loop used up its fuel. *)

From stdpp Require Import gmap strings list fin_maps.
From Stdlib Require Import ZArith NArith Lia Ascii String.

Local Open Scope N_scope.

(** ** Enumerations (scoped enums of the source, one module each) *)

Module Status.
(** The status codes the two files use. *)
Inductive t := Ok | NotFound | MemoryOverflow | InvalidArgument | Abort | Fail.
Definition eqb (a b : t) : bool :=
  match a, b with
  | Ok, Ok | NotFound, NotFound | MemoryOverflow, MemoryOverflow
  | InvalidArgument, InvalidArgument | Abort, Abort | Fail, Fail => true
  | _, _ => false
  end.
End Status.

Module RecordType.
(** [HashElem] and [HashHeader] are the enumerators hash_list.cpp names;
    every other enumerator is kept by its numeric code. *)
Inductive t := HashElem | HashHeader | Other (code : N).
Definition eqb (a b : t) : bool :=
  match a, b with
  | HashElem, HashElem | HashHeader, HashHeader => true
  | Other x, Other y => N.eqb x y
  | _, _ => false
  end.
End RecordType.

Module RecordStatus.
Inductive t := Normal | Outdated.
Definition eqb (a b : t) : bool :=
  match a, b with
  | Normal, Normal | Outdated, Outdated => true
  | _, _ => false
  end.
End RecordStatus.

Module PointerType.
Inductive t := Empty | DLRecord | HashList.
End PointerType.

Module WriteOp.
Inductive t := Put | Delete.
End WriteOp.

Module ModifyOperation.
Inductive t := Write | Delete | Abort | Noop.
End ModifyOperation.

(** ** Plain data *)

(** [SpaceEntry() = default] leaves [size = 0]. *)
Record SpaceEntry := { space_offset : N; space_size : N }.
Definition SpaceEntry_default : SpaceEntry := {| space_offset := 0; space_size := 0 |}.

(** Modelled from the spec: the null offset that ends a version chain
    ("offset of the immediately superseded record, or null"). *)
Definition kNullPMemOffset : N := 2 ^ 64 - 1.

(** Modelled from the spec: "expire_time: absolute time (0 = never)". *)
Definition kPersistTime : Z := 0%Z.

(** A pointer to a record is the record's offset in the arena;
    [None] is [nullptr]. *)
Definition ptr := option N.

Record DLRecord := {
  GetRecordSize : N;
  GetTimestamp : N;
  GetRecordType : RecordType.t;
  GetRecordStatus : RecordStatus.t;
  old_version : N;
  prev : N;
  next : N;
  Key : string;
  Value : string;
  GetExpireTime : Z
}.

Definition with_prev (v : N) (r : DLRecord) : DLRecord :=
  {| GetRecordSize := GetRecordSize r; GetTimestamp := GetTimestamp r;
     GetRecordType := GetRecordType r; GetRecordStatus := GetRecordStatus r;
     old_version := old_version r; prev := v; next := next r;
     Key := Key r; Value := Value r; GetExpireTime := GetExpireTime r |}.

Definition with_next (v : N) (r : DLRecord) : DLRecord :=
  {| GetRecordSize := GetRecordSize r; GetTimestamp := GetTimestamp r;
     GetRecordType := GetRecordType r; GetRecordStatus := GetRecordStatus r;
     old_version := old_version r; prev := prev r; next := v;
     Key := Key r; Value := Value r; GetExpireTime := GetExpireTime r |}.

(** Modelled from the spec: [DLRecord::ConstructDLRecord] "writes header
    fields, copies key and value"; the arguments are in the order of the
    call in [SetExpireTime]. *)
Definition ConstructDLRecord (size ts : N) (ty : RecordType.t)
    (st : RecordStatus.t) (older prv nxt : N) (k v : string) (expire : Z)
    : DLRecord :=
  {| GetRecordSize := size; GetTimestamp := ts; GetRecordType := ty;
     GetRecordStatus := st; old_version := older; prev := prv; next := nxt;
     Key := k; Value := v; GetExpireTime := expire |}.

(** Modelled from the spec: "record_size is align_up(header + key_len +
    value_len, 64)", with the 64-byte header of the storage layout. *)
Definition align_up (n a : N) : N := ((n + a - 1) / a) * a.
Definition RecordSize (k v : string) : N :=
  align_up (64 + N.of_nat (String.length k) + N.of_nat (String.length v)) 64.

(** ** Hash index entries *)

Record HashEntry := {
  entry_type : RecordType.t;
  entry_status : RecordStatus.t;
  index_type : PointerType.t;
  dl_record : ptr
}.

Definition HashEntry_default : HashEntry :=
  {| entry_type := RecordType.Other 0; entry_status := RecordStatus.Normal;
     index_type := PointerType.Empty; dl_record := None |}.

(** ** The engine state one HashList works on *)

Record Engine := {
  (** build: KVDK_DEBUG_LEVEL > 0 turns [kvdk_assert] on, NDEBUG turns
      [assert] off *)
  kvdk_debug : bool;
  ndebug : bool;
  (** the collection: address of the HashList object, Name(), ID() *)
  this : N;
  Name : string;
  ID : N;
  (** kv_allocator_: the arena and its free chunks *)
  memory : gmap N DLRecord;
  free_list : list SpaceEntry;
  (** hash_table_ *)
  entries : gmap string HashEntry;
  capacity : nat;
  (** dl_list_: offset of the header record, and the outcomes of the races
      for the link locks that the coming [Update] calls will meet *)
  header : N;
  races : list bool;
  (** size_ *)
  size_ : Z;
  (** fast_random_64: the values it will return, and how many were drawn *)
  random_source : nat -> N;
  random_drawn : nat;
  (** GlobalLogger *)
  log : list string
}.

Definition set_memory (m : gmap N DLRecord) (e : Engine) : Engine :=
  {| kvdk_debug := kvdk_debug e; ndebug := ndebug e; this := this e;
     Name := Name e; ID := ID e; memory := m; free_list := free_list e;
     entries := entries e; capacity := capacity e; header := header e;
     races := races e; size_ := size_ e; random_source := random_source e;
     random_drawn := random_drawn e; log := log e |}.

Definition set_free_list (l : list SpaceEntry) (e : Engine) : Engine :=
  {| kvdk_debug := kvdk_debug e; ndebug := ndebug e; this := this e;
     Name := Name e; ID := ID e; memory := memory e; free_list := l;
     entries := entries e; capacity := capacity e; header := header e;
     races := races e; size_ := size_ e; random_source := random_source e;
     random_drawn := random_drawn e; log := log e |}.

Definition set_entries (m : gmap string HashEntry) (e : Engine) : Engine :=
  {| kvdk_debug := kvdk_debug e; ndebug := ndebug e; this := this e;
     Name := Name e; ID := ID e; memory := memory e; free_list := free_list e;
     entries := m; capacity := capacity e; header := header e;
     races := races e; size_ := size_ e; random_source := random_source e;
     random_drawn := random_drawn e; log := log e |}.

Definition set_header (h : N) (e : Engine) : Engine :=
  {| kvdk_debug := kvdk_debug e; ndebug := ndebug e; this := this e;
     Name := Name e; ID := ID e; memory := memory e; free_list := free_list e;
     entries := entries e; capacity := capacity e; header := h;
     races := races e; size_ := size_ e; random_source := random_source e;
     random_drawn := random_drawn e; log := log e |}.

Definition set_races (l : list bool) (e : Engine) : Engine :=
  {| kvdk_debug := kvdk_debug e; ndebug := ndebug e; this := this e;
     Name := Name e; ID := ID e; memory := memory e; free_list := free_list e;
     entries := entries e; capacity := capacity e; header := header e;
     races := l; size_ := size_ e; random_source := random_source e;
     random_drawn := random_drawn e; log := log e |}.

Definition set_size (n : Z) (e : Engine) : Engine :=
  {| kvdk_debug := kvdk_debug e; ndebug := ndebug e; this := this e;
     Name := Name e; ID := ID e; memory := memory e; free_list := free_list e;
     entries := entries e; capacity := capacity e; header := header e;
     races := races e; size_ := n; random_source := random_source e;
     random_drawn := random_drawn e; log := log e |}.

Definition set_random_drawn (n : nat) (e : Engine) : Engine :=
  {| kvdk_debug := kvdk_debug e; ndebug := ndebug e; this := this e;
     Name := Name e; ID := ID e; memory := memory e; free_list := free_list e;
     entries := entries e; capacity := capacity e; header := header e;
     races := races e; size_ := size_ e; random_source := random_source e;
     random_drawn := n; log := log e |}.

Definition set_log (l : list string) (e : Engine) : Engine :=
  {| kvdk_debug := kvdk_debug e; ndebug := ndebug e; this := this e;
     Name := Name e; ID := ID e; memory := memory e; free_list := free_list e;
     entries := entries e; capacity := capacity e; header := header e;
     races := races e; size_ := size_ e; random_source := random_source e;
     random_drawn := random_drawn e; log := l |}.

(** ** The monad: state passing with crash-stop and fuel *)

Inductive result (S A : Type) :=
| Done (a : A) (st : S)   (** the call returned *)
| Crashed (st : S)        (** the process stopped *)
| Spinning.               (** a retry loop is still turning *)
Arguments Done {S A} a st.
Arguments Crashed {S A} st.
Arguments Spinning {S A}.

Definition M (S A : Type) : Type := S -> result S A.

Definition ret {S A} (a : A) : M S A := fun st => Done a st.

Definition bind {S A B} (m : M S A) (f : A -> M S B) : M S B :=
  fun st =>
    match m st with
    | Done a st' => f a st'
    | Crashed st' => Crashed st'
    | Spinning => Spinning
    end.

Notation "x <- c1 ;; c2" := (bind c1 (fun x => c2))
  (at level 200, c1 at level 99, c2 at level 200, right associativity,
   format "'[v' x  <-  c1  ;; '/' c2 ']'").
Notation "c1 ;;; c2" := (bind c1 (fun _ => c2))
  (at level 200, c2 at level 200, right associativity,
   format "'[v' c1  ;;; '/' c2 ']'").

Definition get {S} : M S S := fun st => Done st st.
Definition modify {S} (f : S -> S) : M S unit := fun st => Done tt (f st).
Definition abort {S A} : M S A := fun st => Crashed st.

(** The monad of the HashList's engine. *)
Abbreviation EM := (M Engine).

(** [kvdk_assert(cond, msg)]: checked when KVDK_DEBUG_LEVEL > 0. *)
Definition kvdk_assert (cond : bool) : EM unit :=
  fun st => if kvdk_debug st && negb cond then Crashed st else Done tt st.

(** [assert(cond)]: checked unless NDEBUG. *)
Definition std_assert (cond : bool) : EM unit :=
  fun st => if negb (ndebug st) && negb cond then Crashed st else Done tt st.

(** Reading through a record pointer; a null or dangling pointer stops the
    process. *)
Definition deref (p : ptr) : EM DLRecord :=
  fun st =>
    match p with
    | Some off =>
        match memory st !! off with
        | Some r => Done r st
        | None => Crashed st
        end
    | None => Crashed st
    end.

Definition GlobalLogger_Error (msg : string) : EM unit :=
  modify (fun st => set_log (log st ++ [msg]) st).

(** ** External collaborators of the HashList *)

(** Modelled from the spec: [Collection::InternalKey], "collection_id
    (8 bytes, little-endian) || user_sub_key", with the helpers that read
    the id back from an element's key or a header's value. *)
Fixpoint EncodeLE (bytes : nat) (x : N) : string :=
  match bytes with
  | O => EmptyString
  | S b => String (ascii_of_N (x mod 256)) (EncodeLE b (x / 256))
  end.

Fixpoint DecodeLE (bytes : nat) (str : string) : N :=
  match bytes, str with
  | S b, String c rest => N_of_ascii c + 256 * DecodeLE b rest
  | _, _ => 0
  end.

Definition EncodeID (id : N) : string := EncodeLE 8 id.
Definition InternalKey (id : N) (key : string) : string :=
  (EncodeID id ++ key)%string.
Definition ExtractID (internal_key : string) : N := DecodeLE 8 internal_key.
Definition DecodeID (value : string) : N := DecodeLE 8 value.

(** Modelled from the spec: the allocator, "allocate(size) ->
    SpaceEntry{offset, size}, size=0 on failure".  The free chunks are kept
    in a list and a request takes the first chunk that is large enough, so
    a grant may be larger than the request, never smaller. *)
Module Allocator.
Fixpoint first_fit (size : N) (chunks : list SpaceEntry)
    : option (SpaceEntry * list SpaceEntry) :=
  match chunks with
  | [] => None
  | c :: rest =>
      if (0 <? space_size c) && (size <=? space_size c)
      then Some (c, rest)
      else match first_fit size rest with
           | Some (g, rest') => Some (g, c :: rest')
           | None => None
           end
  end.

(** [offset2addr_checked], [addr2offset_checked]: a record's address is
    its offset in the arena. *)
Definition offset2addr_checked (offset : N) : ptr := Some offset.

Definition addr2offset_checked (p : ptr) : EM N :=
  match p with Some offset => ret offset | None => abort end.

Definition Allocate (size : N) : EM SpaceEntry :=
  fun st =>
    match first_fit size (free_list st) with
    | Some (g, rest) => Done g (set_free_list rest st)
    | None => Done SpaceEntry_default st
    end.
End Allocator.

(** Modelled from the spec: the hash index, "lookup<reserve_on_miss>(key,
    type) -> {status, entry_ptr, entry}", status one of Ok, NotFound,
    MemoryOverflow, and "insert(lookup_result, type, status, pointer,
    index_variant)".  On a miss with reserve_on_miss the index hands back
    the empty slot kept for the key, or MemoryOverflow when it has no room
    for one more entry; the slot stays empty until [Insert] fills it. *)
Module HashTable.
(** A slot of the index is named by the key it serves; [None] is the
    null [HashEntry*]. *)
Record LookupResult := {
  s : Status.t;
  entry : HashEntry;
  entry_ptr : option string
}.

Definition LookupResult_default : LookupResult :=
  {| s := Status.NotFound; entry := HashEntry_default; entry_ptr := None |}.

Definition miss (may_insert : bool) (key : string) (st : Engine)
    : LookupResult :=
  if may_insert then
    if (size (entries st) <? capacity st)%nat
    then {| s := Status.NotFound; entry := HashEntry_default;
            entry_ptr := Some key |}
    else {| s := Status.MemoryOverflow; entry := HashEntry_default;
            entry_ptr := None |}
  else LookupResult_default.

(** What a lookup finds; the lookup itself leaves the index as it is. *)
Definition find (may_insert : bool) (key : string) (ty : RecordType.t)
    (st : Engine) : LookupResult :=
  match entries st !! key with
  | Some e =>
      if RecordType.eqb (entry_type e) ty
      then {| s := Status.Ok; entry := e; entry_ptr := Some key |}
      else miss may_insert key st
  | None => miss may_insert key st
  end.

Definition Lookup (may_insert : bool) (key : string) (ty : RecordType.t)
    : EM LookupResult :=
  fun st => Done (find may_insert key ty st) st.

Definition Insert (lookup_result : LookupResult) (ty : RecordType.t)
    (status : RecordStatus.t) (p : ptr) (index_ty : PointerType.t)
    : EM unit :=
  fun st =>
    match entry_ptr lookup_result with
    | Some slot =>
        Done tt (set_entries
                   (<[slot := {| entry_type := ty; entry_status := status;
                                 index_type := index_ty; dl_record := p |}]>
                      (entries st)) st)
    | None => Crashed st
    end.
End HashTable.

(** Modelled from the spec: the circular doubly-linked list of records,
    "PushFront/PushBack: construct a new record at the reserved space and
    splice next to the header", "Update(args, old) -> Ok or Fail: replace
    old with a fresh record that inherits old.prev/next, has old_version =
    offset(old)", "Fail if old is no longer linked" or when "the target's
    neighbors changed during lock acquisition", and "Replace(old, new) ->
    bool: returns false only if old is not linked". *)
Module DLList.
Record WriteArgs := {
  key : string;
  val : string;
  type : RecordType.t;
  status : RecordStatus.t;
  ts : N;
  space : SpaceEntry
}.

(** [A.next] points to the record and [B.prev] points back to it. *)
Definition linked (m : gmap N DLRecord) (off : N) : bool :=
  match m !! off with
  | Some r =>
      match m !! prev r, m !! next r with
      | Some p, Some n => (next p =? off) && (prev n =? off)
      | _, _ => false
      end
  | None => false
  end.

(** Publish [new] to its two neighbours. *)
Definition link (p n new : N) (m : gmap N DLRecord) : gmap N DLRecord :=
  alter (with_prev new) n (alter (with_next new) p m).

(** Construct the record of [args] between [p] and [n], then publish
    it to them. *)
Definition spliced (args : WriteArgs) (older p n : N) (st : Engine)
    : Engine :=
  let new := space_offset (space args) in
  let r := ConstructDLRecord (space_size (space args)) (ts args)
             (type args) (status args) older p n (key args) (val args)
             kPersistTime in
  set_memory (link p n new (<[new := r]> (memory st))) st.

Definition splice (args : WriteArgs) (older p n : N) : EM unit :=
  modify (spliced args older p n).

Definition Header : EM ptr := st <- get ;; ret (Some (header st)).

Definition PushFront (args : WriteArgs) : EM Status.t :=
  st <- get ;;
  h <- deref (Some (header st)) ;;
  splice args kNullPMemOffset (header st) (next h) ;;;
  ret Status.Ok.

Definition PushBack (args : WriteArgs) : EM Status.t :=
  st <- get ;;
  h <- deref (Some (header st)) ;;
  splice args kNullPMemOffset (prev h) (header st) ;;;
  ret Status.Ok.

(** How many of the coming attempts lose the race. *)
Fixpoint lost_races (outcomes : list bool) : nat :=
  match outcomes with
  | true :: rest => S (lost_races rest)
  | _ => O
  end.

(** Taking the link locks: [true] when another thread got in between. *)
Definition lost_race : EM bool :=
  fun st =>
    match races st with
    | [] => Done false st
    | b :: rest => Done b (set_races rest st)
    end.

Definition Update (args : WriteArgs) (old : ptr) : EM Status.t :=
  raced <- lost_race ;;
  if raced : bool then ret Status.Fail else
  o <- deref old ;;
  st <- get ;;
  match old with
  | Some off =>
      if linked (memory st) off
      then splice args off (prev o) (next o) ;;; ret Status.Ok
      else ret Status.Fail
  | None => abort
  end.

(** [new_record] is already constructed; a header that is alone on its
    list is its own neighbour, and so is its replacement.  Replacing the
    header moves the list's header pointer. *)
Definition Replace (old_record new_record : ptr) : EM bool :=
  o <- deref old_record ;;
  r <- deref new_record ;;
  st <- get ;;
  match old_record, new_record with
  | Some old, Some new =>
      if linked (memory st) old then
        let p := if prev o =? old then new else prev o in
        let n := if next o =? old then new else next o in
        modify (fun st =>
          set_memory
            (link p n new (<[new := with_next n (with_prev p r)]> (memory st)))
            st) ;;;
        (if header st =? old then modify (set_header new) else ret tt) ;;;
        ret true
      else ret false
  | _, _ => abort
  end.
End DLList.

(** [fast_random_64()]: whatever the generator is, the state holds the
    values it is going to return. *)
Definition fast_random_64 : EM N :=
  fun st =>
    Done (random_source st (random_drawn st))
         (set_random_drawn (S (random_drawn st)) st).

(** ** HashList (hash_list.hpp, hash_list.cpp) *)

Record HashWriteArgs := {
  collection : string;
  key : string;
  value : string;
  op : WriteOp.t;
  hlist : N;
  space : SpaceEntry;
  ts : N;
  lookup_result : HashTable.LookupResult
}.

Definition with_ts (t : N) (a : HashWriteArgs) : HashWriteArgs :=
  {| collection := collection a; key := key a; value := value a; op := op a;
     hlist := hlist a; space := space a; ts := t;
     lookup_result := lookup_result a |}.

Definition with_lookup_result (lr : HashTable.LookupResult)
    (a : HashWriteArgs) : HashWriteArgs :=
  {| collection := collection a; key := key a; value := value a; op := op a;
     hlist := hlist a; space := space a; ts := ts a; lookup_result := lr |}.

Definition with_space (sp : SpaceEntry) (a : HashWriteArgs) : HashWriteArgs :=
  {| collection := collection a; key := key a; value := value a; op := op a;
     hlist := hlist a; space := sp; ts := ts a;
     lookup_result := lookup_result a |}.

(** The transformer of [Modify]: it sees the existing value ([None] for the
    null pointer) and answers with the operation and what it stored in
    [new_value]; [modify_args] is whatever the function closes over. *)
Definition ModifyFunc := option string -> ModifyOperation.t * string.

Module HashList.
Import HashTable.

Record WriteResult := {
  s : Status.t;
  existing_record : ptr;
  write_record : ptr;
  hash_entry_ptr : option string
}.

(** [WriteResult ret;] *)
Definition WriteResult_default : WriteResult :=
  {| s := Status.Ok; existing_record := None; write_record := None;
     hash_entry_ptr := None |}.

Definition with_s (x : Status.t) (r : WriteResult) : WriteResult :=
  {| s := x; existing_record := existing_record r;
     write_record := write_record r; hash_entry_ptr := hash_entry_ptr r |}.

Definition with_existing_record (p : ptr) (r : WriteResult) : WriteResult :=
  {| s := s r; existing_record := p; write_record := write_record r;
     hash_entry_ptr := hash_entry_ptr r |}.

Definition with_write_record (p : ptr) (r : WriteResult) : WriteResult :=
  {| s := s r; existing_record := existing_record r; write_record := p;
     hash_entry_ptr := hash_entry_ptr r |}.

Definition with_hash_entry_ptr (p : option string) (r : WriteResult)
    : WriteResult :=
  {| s := s r; existing_record := existing_record r;
     write_record := write_record r; hash_entry_ptr := p |}.

(** [kvdk_assert] over a condition that reads memory: the condition is
    evaluated only where the assertion is compiled in. *)
Definition kvdk_assert_reading (cond : EM bool) : EM unit :=
  st <- get ;;
  if kvdk_debug st then (c <- cond ;; kvdk_assert c) else ret tt.

Definition HeaderRecord : EM ptr := DLList.Header.

Definition Size : EM Z := st <- get ;; ret (size_ st).

(** [size_] is a 64-bit [std::atomic<size_t>]: [fetch_add] wraps. *)
Definition UpdateSize (delta : Z) : EM unit :=
  st <- get ;;
  kvdk_assert ((0 <=? delta)%Z || (- delta <=? size_ st)%Z) ;;;
  modify (fun st => set_size ((size_ st + delta) mod 2 ^ 64)%Z st).

Definition InitWriteArgs (key value : string) (op : WriteOp.t)
    : EM HashWriteArgs :=
  st <- get ;;
  ret {| collection := Name st; key := key; value := value; op := op;
         hlist := this st; space := SpaceEntry_default; ts := 0;
         lookup_result := LookupResult_default |}.

Definition is_delete (o : WriteOp.t) : bool :=
  match o with WriteOp.Delete => true | WriteOp.Put => false end.

(** [bool allocate_space = true;] and what the [switch] on the lookup
    status makes of it. *)
Definition allocate_space (op_delete : bool) (lr : LookupResult) : bool :=
  match HashTable.s lr with
  | Status.Ok =>
      if op_delete && RecordStatus.eqb (entry_status (entry lr))
                                       RecordStatus.Outdated
      then false else true
  | Status.NotFound => if op_delete then false else true
  | _ => true
  end.

(** The condition [PrepareWrite] asserts: "value of delete operation
    should be empty". *)
Definition delete_value_empty (args : HashWriteArgs) : bool :=
  negb (is_delete (op args)) || (String.length (value args) =? 0)%nat.

Definition PrepareWrite (args : HashWriteArgs) (ts : N)
    : EM (Status.t * HashWriteArgs) :=
  kvdk_assert (delete_value_empty args) ;;;
  st <- get ;;
  if negb (hlist args =? this st) then ret (Status.InvalidArgument, args)
  else
    let args := with_ts ts args in
    let op_delete := is_delete (op args) in
    let internal_key := InternalKey (ID st) (key args) in
    lr <- (if op_delete
           then Lookup false internal_key RecordType.HashElem
           else Lookup true internal_key RecordType.HashElem) ;;
    let args := with_lookup_result lr args in
    match HashTable.s lr with
    | Status.Ok | Status.NotFound =>
        if allocate_space op_delete lr then
          let request_size := RecordSize internal_key (value args) in
          sp <- Allocator.Allocate request_size ;;
          let args := with_space sp args in
          if space_size sp =? 0 then ret (Status.MemoryOverflow, args)
          else ret (Status.Ok, args)
        else ret (Status.Ok, args)
    | Status.MemoryOverflow => ret (HashTable.s lr, args)
    | _ => abort
    end.

(** [while ((ret.s = dl_list_.Update(args, existing)) != Status::Ok)
      kvdk_assert(ret.s == Status::Fail)] *)
Fixpoint update_until_ok (fuel : nat) (args : DLList.WriteArgs)
    (existing : ptr) : EM Status.t :=
  match fuel with
  | O => fun _ => Spinning
  | S fuel' =>
      st <- DLList.Update args existing ;;
      if Status.eqb st Status.Ok then ret st
      else kvdk_assert (Status.eqb st Status.Fail) ;;;
           update_until_ok fuel' args existing
  end.

Definition putPrepared (fuel : nat) (lookup_result : LookupResult)
    (key value : string) (timestamp : N) (space : SpaceEntry)
    : EM WriteResult :=
  st <- get ;;
  let ret0 := WriteResult_default in
  let internal_key := InternalKey (ID st) key in
  let args := {| DLList.key := internal_key; DLList.val := value;
                 DLList.type := RecordType.HashElem;
                 DLList.status := RecordStatus.Normal;
                 DLList.ts := timestamp; DLList.space := space |} in
  let ret1 := with_write_record
                (Allocator.offset2addr_checked (space_offset space)) ret0 in
  let ret2 := with_hash_entry_ptr (entry_ptr lookup_result) ret1 in
  ret3 <- (if Status.eqb (HashTable.s lookup_result) Status.Ok then
             let existing := dl_record (entry lookup_result) in
             let ret3 := with_existing_record existing ret2 in
             kvdk_assert_reading
               (e <- deref existing ;; ret (GetTimestamp e <? timestamp)) ;;;
             st <- update_until_ok fuel args existing ;;
             ret (with_s st ret3)
           else
             kvdk_assert (Status.eqb (HashTable.s lookup_result)
                                     Status.NotFound) ;;;
             r <- fast_random_64 ;;
             let push_back := r mod 2 =? 0 in
             st <- (if push_back then DLList.PushBack args
                    else DLList.PushFront args) ;;
             kvdk_assert (Status.eqb st Status.Ok) ;;;
             ret ret2) ;;
  Insert lookup_result RecordType.HashElem RecordStatus.Normal
         (write_record ret3) PointerType.DLRecord ;;;
  ret ret3.

Definition deletePrepared (fuel : nat) (lookup_result : LookupResult)
    (key : string) (timestamp : N) (space : SpaceEntry) : EM WriteResult :=
  st <- get ;;
  let ret0 := WriteResult_default in
  let internal_key := InternalKey (ID st) key in
  kvdk_assert
    (Status.eqb (HashTable.s lookup_result) Status.Ok
     && RecordType.eqb (entry_type (entry lookup_result)) RecordType.HashElem
     && RecordStatus.eqb (entry_status (entry lookup_result))
                         RecordStatus.Normal) ;;;
  std_assert (RecordSize internal_key EmptyString <=? space_size space) ;;;
  let existing := dl_record (entry lookup_result) in
  let ret1 := with_existing_record existing ret0 in
  kvdk_assert_reading
    (e <- deref existing ;; ret (GetTimestamp e <? timestamp)) ;;;
  let args := {| DLList.key := internal_key; DLList.val := EmptyString;
                 DLList.type := RecordType.HashElem;
                 DLList.status := RecordStatus.Outdated;
                 DLList.ts := timestamp; DLList.space := space |} in
  st <- update_until_ok fuel args existing ;;
  let ret2 := with_write_record
                (Allocator.offset2addr_checked (space_offset space))
                (with_s st ret1) in
  Insert lookup_result RecordType.HashElem RecordStatus.Outdated
         (write_record ret2) PointerType.DLRecord ;;;
  ret ret2.

(** [p == nullptr || p->GetRecordStatus() == status], and the same with
    [!= nullptr &&]: the record is read only through a non-null
    pointer. *)
Definition null_or_status (p : ptr) (status : RecordStatus.t) : EM bool :=
  match p with
  | None => ret true
  | Some _ => r <- deref p ;; ret (RecordStatus.eqb (GetRecordStatus r) status)
  end.

Definition nonnull_and_status (p : ptr) (status : RecordStatus.t) : EM bool :=
  match p with
  | None => ret false
  | Some _ => r <- deref p ;; ret (RecordStatus.eqb (GetRecordStatus r) status)
  end.

Definition Write (fuel : nat) (args : HashWriteArgs) : EM WriteResult :=
  st <- get ;;
  if negb (hlist args =? this st)
  then ret (with_s Status.InvalidArgument WriteResult_default)
  else
    match op args with
    | WriteOp.Put =>
        r <- putPrepared fuel (lookup_result args) (key args) (value args)
                         (ts args) (space args) ;;
        grow <- null_or_status (existing_record r) RecordStatus.Outdated ;;
        (if grow : bool then UpdateSize 1 else ret tt) ;;;
        ret r
    | WriteOp.Delete =>
        r <- deletePrepared fuel (lookup_result args) (key args) (ts args)
                            (space args) ;;
        shrink <- nonnull_and_status (existing_record r)
                                     RecordStatus.Normal ;;
        (if shrink : bool then UpdateSize (-1) else ret tt) ;;;
        ret r
    end.

Definition Put (fuel : nat) (key value : string) (timestamp : N)
    : EM WriteResult :=
  args <- InitWriteArgs key value WriteOp.Put ;;
  prepared <- PrepareWrite args timestamp ;;
  let '(st, args) := prepared in
  if Status.eqb st Status.Ok then Write fuel args
  else ret (with_s st WriteResult_default).

(** [value] is the caller's string: it is assigned only on [Ok]. *)
Definition Get (key : string) (value : string) : EM (Status.t * string) :=
  st <- get ;;
  let internal_key := InternalKey (ID st) key in
  lookup_result <- Lookup false internal_key RecordType.HashElem ;;
  if negb (Status.eqb (HashTable.s lookup_result) Status.Ok)
     || RecordStatus.eqb (entry_status (entry lookup_result))
                         RecordStatus.Outdated
  then ret (Status.NotFound, value)
  else
    let data_record := dl_record (entry lookup_result) in
    kvdk_assert_reading
      (r <- deref data_record ;;
       ret (RecordType.eqb (GetRecordType r) RecordType.HashElem)) ;;;
    r <- deref data_record ;;
    if RecordStatus.eqb (GetRecordStatus r) RecordStatus.Outdated
    then ret (Status.NotFound, value)
    else ret (Status.Ok, Value r).

Definition Delete (fuel : nat) (key : string) (timestamp : N)
    : EM WriteResult :=
  args <- InitWriteArgs key EmptyString WriteOp.Delete ;;
  prepared <- PrepareWrite args timestamp ;;
  let '(st, args) := prepared in
  if Status.eqb st Status.Ok && (0 <? space_size (space args))
  then Write fuel args
  else ret (with_s st WriteResult_default).

Definition Modify (fuel : nat) (key : string) (modify_func : ModifyFunc)
    (ts : N) : EM WriteResult :=
  st <- get ;;
  let ret0 := WriteResult_default in
  let internal_key := InternalKey (ID st) key in
  lookup_result <- Lookup true internal_key RecordType.HashElem ;;
  (* [Some (ret, existing value or null)], or [None] for the early return
     on a failed lookup *)
  found <- (match HashTable.s lookup_result with
            | Status.Ok =>
                let existing_record := dl_record (entry lookup_result) in
                let ret1 := with_existing_record existing_record ret0 in
                r <- deref existing_record ;;
                if negb (RecordStatus.eqb (GetRecordStatus r)
                                          RecordStatus.Outdated)
                then ret (Some (ret1, Some (Value r)))
                else ret (Some (ret1, None))
            | Status.NotFound => ret (Some (ret0, None))
            | _ => ret None
            end) ;;
  match found with
  | None => ret (with_s (HashTable.s lookup_result) ret0)
  | Some (ret1, existing_value) =>
      let '(modify_operation, new_value) := modify_func existing_value in
      match modify_operation with
      | ModifyOperation.Write =>
          args <- InitWriteArgs key new_value WriteOp.Put ;;
          let args := with_lookup_result lookup_result (with_ts ts args) in
          sp <- Allocator.Allocate (RecordSize internal_key new_value) ;;
          let args := with_space sp args in
          if space_size sp =? 0 then ret (with_s Status.MemoryOverflow ret1)
          else Write fuel args
      | ModifyOperation.Delete =>
          args <- InitWriteArgs key EmptyString WriteOp.Delete ;;
          let args := with_lookup_result lookup_result (with_ts ts args) in
          sp <- Allocator.Allocate (RecordSize internal_key EmptyString) ;;
          let args := with_space sp args in
          if space_size sp =? 0 then ret (with_s Status.MemoryOverflow ret1)
          else Write fuel args
      | ModifyOperation.Abort => ret (with_s Status.Abort ret1)
      | ModifyOperation.Noop => ret (with_s Status.Ok ret1)
      end
  end.

Definition SetExpireTime (expired_time : Z) (timestamp : N)
    : EM WriteResult :=
  let ret0 := WriteResult_default in
  header <- HeaderRecord ;;
  h <- deref header ;;
  space <- Allocator.Allocate (RecordSize (Key h) (Value h)) ;;
  if space_size space =? 0 then ret (with_s Status.MemoryOverflow ret0)
  else
    let data_record := Allocator.offset2addr_checked (space_offset space) in
    header_offset <- Allocator.addr2offset_checked header ;;
    modify (fun st =>
      set_memory
        (<[space_offset space :=
             ConstructDLRecord (space_size space) timestamp
               RecordType.HashHeader RecordStatus.Normal
               header_offset (prev h) (next h)
               (Key h) (Value h) expired_time]> (memory st)) st) ;;;
    success <- DLList.Replace header data_record ;;
    kvdk_assert success ;;;
    ret (with_write_record data_record (with_existing_record header ret0)).


Definition is_nonnull (p : ptr) : bool :=
  match p with Some _ => true | None => false end.

Definition FetchID (record : ptr) : EM N :=
  std_assert (is_nonnull record) ;;;
  r <- deref record ;;
  match GetRecordType r with
  | RecordType.HashElem => ret (ExtractID (Key r))
  | RecordType.HashHeader => ret (DecodeID (Value r))
  | _ =>
      GlobalLogger_Error "Wrong record type %u in HashListID" ;;;
      kvdk_assert false ;;;
      ret 0
  end.
End HashList.

(** ** HashList: the type test and the index check

    [MatchType] (hash_list.hpp) and [CheckIndex] (hash_list.cpp). *)

Module HashListCheck.
Import HashTable HashList.

(** [MatchType(record)] (hash_list.hpp) *)
Definition MatchType (record : ptr) : EM bool :=
  r <- deref record ;;
  let type := GetRecordType r in
  ret (RecordType.eqb type RecordType.HashElem
       || RecordType.eqb type RecordType.HashHeader).

(** Modelled from the spec: [DLListRecoveryUtils::CheckLinkage], the check
    that a record's "back/forward pointers are consistent". *)
Definition CheckLinkage (record : ptr) : EM bool :=
  st <- get ;;
  match record with
  | Some off => ret (DLList.linked (memory st) off)
  | None => abort
  end.

(** Two record pointers are the same address. *)
Definition same_record (p q : ptr) : bool :=
  match p, q with
  | Some a, Some b => a =? b
  | None, None => true
  | _, _ => false
  end.

(** The [while (true)] of [CheckIndex]; the messages are logged without
    their final newline. *)
Fixpoint check_index_walk (fuel : nat) (prev : ptr) : EM Status.t :=
  match fuel with
  | O => fun _ => Spinning
  | S fuel' =>
      p <- deref prev ;;
      let curr := Allocator.offset2addr_checked (next p) in
      header <- HeaderRecord ;;
      if same_record curr header then ret Status.Ok
      else
        c <- deref curr ;;
        let key := Key c in
        ret_ <- Lookup false key (GetRecordType c) ;;
        if negb (Status.eqb (HashTable.s ret_) Status.Ok) then
          GlobalLogger_Error
            "Check hash index error: record not exist in hash table" ;;;
          ret Status.Abort
        else if negb (same_record (dl_record (entry ret_)) curr) then
          GlobalLogger_Error
            "Check hash index error: Dlrecord miss-match with hash table" ;;;
          ret Status.Abort
        else
          linkage <- CheckLinkage curr ;;
          if negb linkage then
            GlobalLogger_Error
              "Check hash index error: dl record linkage error" ;;;
            ret Status.Abort
          else check_index_walk fuel' curr
  end.

Definition CheckIndex (fuel : nat) : EM Status.t :=
  prev <- HeaderRecord ;;
  check_index_walk fuel prev.
End HashListCheck.

(** ** HashList: Destroy and DestroyAll (hash_list.cpp) *)

Module Teardown.
Import HashTable HashList HashListCheck.

(** What [Destroy] and [DestroyAll] work on besides the engine: the other
    HashList objects an index entry may point at (address of the object,
    offset of its header record), the records that [DLRecord::Destroy] has
    poisoned, and the space handed back to the allocator. *)
Record State := {
  engine : Engine;
  hlists : gmap N N;
  destroyed : list N;
  freed : list SpaceEntry
}.

Definition set_engine (e : Engine) (st : State) : State :=
  {| engine := e; hlists := hlists st; destroyed := destroyed st;
     freed := freed st |}.

Definition set_destroyed (l : list N) (st : State) : State :=
  {| engine := engine st; hlists := hlists st; destroyed := l;
     freed := freed st |}.

Definition set_freed (l : list SpaceEntry) (st : State) : State :=
  {| engine := engine st; hlists := hlists st; destroyed := destroyed st;
     freed := l |}.

Definition TM (A : Type) : Type := M State A.

(** A call on the engine, made from the teardown. *)
Definition lift {A} (m : EM A) : TM A :=
  fun st =>
    match m (engine st) with
    | Done a e => Done a (set_engine e st)
    | Crashed e => Crashed (set_engine e st)
    | Spinning => Spinning
    end.

(** Take [off] out from between [p] and [n]. *)
Definition unlink (p n : N) (m : gmap N DLRecord) : gmap N DLRecord :=
  alter (with_prev p) n (alter (with_next n) p m).

(** Modelled from the spec: [DLList::Remove], "Remove(r) -> bool: unlink r
    from the list, leaving the list consistent.  Returns false if already
    unlinked." *)
Definition Remove (record : ptr) : EM bool :=
  r <- deref record ;;
  st <- get ;;
  match record with
  | Some off =>
      if DLList.linked (memory st) off then
        modify (fun st =>
          set_memory (unlink (prev r) (next r) (memory st)) st) ;;;
        ret true
      else ret false
  | None => abort
  end.

(** Modelled from the spec: the hash index, "erase(entry_ptr)". *)
Definition Erase (entry_ptr : option string) : EM unit :=
  match entry_ptr with
  | Some slot => modify (fun st => set_entries (delete slot (entries st)) st)
  | None => abort
  end.

(** Modelled from the spec: [DLRecord::Destroy], which "poisons the header
    so that post-mortem scans reject the slot". *)
Definition DLRecord_Destroy (record : ptr) : TM unit :=
  _r <- lift (deref record) ;;
  match record with
  | Some off => modify (fun st => set_destroyed (destroyed st ++ [off]) st)
  | None => abort
  end.

(** Modelled from the spec: the allocator, "batch_free(vector<SpaceEntry>)":
    the space goes back to the allocator. *)
Definition BatchFree (spaces : list SpaceEntry) : TM unit :=
  modify (fun st => set_freed (freed st ++ spaces) st).


(** [hash_index.hlist->HeaderRecord()]: the index union read as a
    collection handle. *)
Definition hlist_HeaderRecord (hlist : ptr) : TM ptr :=
  st <- get ;;
  match hlist with
  | Some a =>
      if a =? this (engine st) then ret (Some (header (engine st)))
      else match hlists st !! a with
           | Some h => ret (Some h)
           | None => abort
           end
  | None => abort
  end.

(** The lines that [Destroy] and [DestroyAll] both run once [Remove] has
    succeeded: the index entry of the record is erased if it still points
    at the record. *)
Definition erase_if_indexed (key : string) (to_destroy : ptr) : TM unit :=
  d <- lift (deref to_destroy) ;;
  lookup_result <- lift (Lookup false key (GetRecordType d)) ;;
  if Status.eqb (HashTable.s lookup_result) Status.Ok then
    let hash_index := dl_record (entry lookup_result) in
    hash_indexed_record <-
      match index_type (entry lookup_result) with
      | PointerType.HashList => hlist_HeaderRecord hash_index
      | PointerType.DLRecord => ret hash_index
      | PointerType.Empty => lift (kvdk_assert false) ;;; ret None
      end ;;
    if same_record hash_indexed_record to_destroy
    then lift (Erase (entry_ptr lookup_result))
    else ret tt
  else ret tt.

Section Threshold.
(** The batch threshold; its value is set outside these files. *)
Variable kMaxCachedOldRecords : nat.

(** [if (to_free.size() > kMaxCachedOldRecords) { BatchFree(to_free);
    to_free.clear(); }] *)
Definition flush (to_free : list SpaceEntry) : TM (list SpaceEntry) :=
  if (kMaxCachedOldRecords <? List.length to_free)%nat
  then BatchFree to_free ;;; ret []
  else ret to_free.

(** The [do ... while (to_destroy != header)] of [Destroy]. *)
Fixpoint destroy_loop (fuel : nat) (header : ptr)
    (to_free : list SpaceEntry) : TM (list SpaceEntry) :=
  match fuel with
  | O => fun _ => Spinning
  | S fuel' =>
      h <- lift (deref header) ;;
      let to_destroy := Allocator.offset2addr_checked (next h) in
      d <- lift (deref to_destroy) ;;
      let key := Key d in
      removed <- lift (Remove to_destroy) ;;
      to_free <-
        (if removed : bool then
           erase_if_indexed key to_destroy ;;;
           DLRecord_Destroy to_destroy ;;;
           off <- lift (Allocator.addr2offset_checked to_destroy) ;;
           d <- lift (deref to_destroy) ;;
           flush (to_free ++ [{| space_offset := off;
                                 space_size := GetRecordSize d |}])
         else ret to_free) ;;
      if same_record to_destroy header then ret to_free
      else destroy_loop fuel' header to_free
  end.

Definition Destroy (fuel : nat) : TM unit :=
  header <- lift HeaderRecord ;;
  to_free <- (if is_nonnull header then destroy_loop fuel header []
              else ret []) ;;
  BatchFree to_free.



End Threshold.
End Teardown.

(** ** OldRecordsCleaner (old_records_cleaner.cpp) *)

Module Cleaner.
(** [StringDataRecord] ... [SortedDeleteRecord] are the enumerators the
    cleaner names; every other record type is kept by its code. *)
Module RecordType.
Inductive t :=
| StringDataRecord | StringDeleteRecord
| SortedDataRecord | SortedDeleteRecord
| Other (code : N).
End RecordType.

Module HashOffsetType.
Inductive t := DLRecord | SkiplistNode | Other (code : N).
End HashOffsetType.

(** [header.record_size], [meta.type]; [poisoned] is set by [Destroy]. *)
Record DataEntry := {
  record_size : N;
  type : RecordType.t;
  poisoned : bool
}.

(** [header.offset_type] and the [index] union, which holds one pointer
    whatever member it is read through. *)
Record HashEntry := {
  offset_type : HashOffsetType.t;
  index : ptr
}.

Record SkiplistNode := { record : ptr }.

Record OldDataRecord := {
  pmem_data_record : ptr;
  newer_version_timestamp : N
}.

Record OldDeleteRecord := {
  pmem_delete_record : ptr;
  delete_newer_version_timestamp : N;
  hash_entry_ref : ptr
}.

Record PendingFreeSpaceEntries := {
  entries : list SpaceEntry;
  free_ts : N
}.

Record ThreadCache := {
  old_data_records : list OldDataRecord;
  old_delete_records : list OldDeleteRecord
}.

Record State := {
  thread_cache_ : list ThreadCache;
  global_old_data_records_ : list (list OldDataRecord);
  global_old_delete_records_ : list (list OldDeleteRecord);
  pending_free_space_entries_ : list PendingFreeSpaceEntries;
  last_clean_all_ts_ : N;
  (** kv_engine_->version_controller_ *)
  clock : N;
  snapshots : list N;
  oldest_snapshot_ts : N;
  (** kv_engine_->pmem_allocator_: the arena and the space handed back *)
  pmem : gmap N DataEntry;
  freed : list SpaceEntry;
  (** kv_engine_->hash_table_ slots and the skiplists' DRAM nodes *)
  hash_entries : gmap N HashEntry;
  skiplist_nodes : gmap N SkiplistNode;
  (** outcomes of the coming [Skiplist::Purge] calls ([true]: the splice
      was contended), and the records already spliced out *)
  purge_races : list bool;
  purged : list N;
  log : list string
}.

Definition set_thread_cache (x : list ThreadCache) (e : State) : State :=
  {| thread_cache_ := x;
     global_old_data_records_ := global_old_data_records_ e;
     global_old_delete_records_ := global_old_delete_records_ e;
     pending_free_space_entries_ := pending_free_space_entries_ e;
     last_clean_all_ts_ := last_clean_all_ts_ e; clock := clock e;
     snapshots := snapshots e; oldest_snapshot_ts := oldest_snapshot_ts e;
     pmem := pmem e; freed := freed e; hash_entries := hash_entries e;
     skiplist_nodes := skiplist_nodes e; purge_races := purge_races e;
     purged := purged e; log := log e |}.

Definition set_global_old_data_records (x : list (list OldDataRecord))
    (e : State) : State :=
  {| thread_cache_ := thread_cache_ e;
     global_old_data_records_ := x;
     global_old_delete_records_ := global_old_delete_records_ e;
     pending_free_space_entries_ := pending_free_space_entries_ e;
     last_clean_all_ts_ := last_clean_all_ts_ e; clock := clock e;
     snapshots := snapshots e; oldest_snapshot_ts := oldest_snapshot_ts e;
     pmem := pmem e; freed := freed e; hash_entries := hash_entries e;
     skiplist_nodes := skiplist_nodes e; purge_races := purge_races e;
     purged := purged e; log := log e |}.

Definition set_global_old_delete_records (x : list (list OldDeleteRecord))
    (e : State) : State :=
  {| thread_cache_ := thread_cache_ e;
     global_old_data_records_ := global_old_data_records_ e;
     global_old_delete_records_ := x;
     pending_free_space_entries_ := pending_free_space_entries_ e;
     last_clean_all_ts_ := last_clean_all_ts_ e; clock := clock e;
     snapshots := snapshots e; oldest_snapshot_ts := oldest_snapshot_ts e;
     pmem := pmem e; freed := freed e; hash_entries := hash_entries e;
     skiplist_nodes := skiplist_nodes e; purge_races := purge_races e;
     purged := purged e; log := log e |}.

Definition set_pending_free_space_entries
    (x : list PendingFreeSpaceEntries) (e : State) : State :=
  {| thread_cache_ := thread_cache_ e;
     global_old_data_records_ := global_old_data_records_ e;
     global_old_delete_records_ := global_old_delete_records_ e;
     pending_free_space_entries_ := x;
     last_clean_all_ts_ := last_clean_all_ts_ e; clock := clock e;
     snapshots := snapshots e; oldest_snapshot_ts := oldest_snapshot_ts e;
     pmem := pmem e; freed := freed e; hash_entries := hash_entries e;
     skiplist_nodes := skiplist_nodes e; purge_races := purge_races e;
     purged := purged e; log := log e |}.

Definition set_last_clean_all_ts (x : N) (e : State) : State :=
  {| thread_cache_ := thread_cache_ e;
     global_old_data_records_ := global_old_data_records_ e;
     global_old_delete_records_ := global_old_delete_records_ e;
     pending_free_space_entries_ := pending_free_space_entries_ e;
     last_clean_all_ts_ := x; clock := clock e;
     snapshots := snapshots e; oldest_snapshot_ts := oldest_snapshot_ts e;
     pmem := pmem e; freed := freed e; hash_entries := hash_entries e;
     skiplist_nodes := skiplist_nodes e; purge_races := purge_races e;
     purged := purged e; log := log e |}.

Definition set_clock (x : N) (e : State) : State :=
  {| thread_cache_ := thread_cache_ e;
     global_old_data_records_ := global_old_data_records_ e;
     global_old_delete_records_ := global_old_delete_records_ e;
     pending_free_space_entries_ := pending_free_space_entries_ e;
     last_clean_all_ts_ := last_clean_all_ts_ e; clock := x;
     snapshots := snapshots e; oldest_snapshot_ts := oldest_snapshot_ts e;
     pmem := pmem e; freed := freed e; hash_entries := hash_entries e;
     skiplist_nodes := skiplist_nodes e; purge_races := purge_races e;
     purged := purged e; log := log e |}.

Definition set_oldest_snapshot_ts (x : N) (e : State) : State :=
  {| thread_cache_ := thread_cache_ e;
     global_old_data_records_ := global_old_data_records_ e;
     global_old_delete_records_ := global_old_delete_records_ e;
     pending_free_space_entries_ := pending_free_space_entries_ e;
     last_clean_all_ts_ := last_clean_all_ts_ e; clock := clock e;
     snapshots := snapshots e; oldest_snapshot_ts := x;
     pmem := pmem e; freed := freed e; hash_entries := hash_entries e;
     skiplist_nodes := skiplist_nodes e; purge_races := purge_races e;
     purged := purged e; log := log e |}.

Definition set_pmem (x : gmap N DataEntry) (e : State) : State :=
  {| thread_cache_ := thread_cache_ e;
     global_old_data_records_ := global_old_data_records_ e;
     global_old_delete_records_ := global_old_delete_records_ e;
     pending_free_space_entries_ := pending_free_space_entries_ e;
     last_clean_all_ts_ := last_clean_all_ts_ e; clock := clock e;
     snapshots := snapshots e; oldest_snapshot_ts := oldest_snapshot_ts e;
     pmem := x; freed := freed e; hash_entries := hash_entries e;
     skiplist_nodes := skiplist_nodes e; purge_races := purge_races e;
     purged := purged e; log := log e |}.

Definition set_freed (x : list SpaceEntry) (e : State) : State :=
  {| thread_cache_ := thread_cache_ e;
     global_old_data_records_ := global_old_data_records_ e;
     global_old_delete_records_ := global_old_delete_records_ e;
     pending_free_space_entries_ := pending_free_space_entries_ e;
     last_clean_all_ts_ := last_clean_all_ts_ e; clock := clock e;
     snapshots := snapshots e; oldest_snapshot_ts := oldest_snapshot_ts e;
     pmem := pmem e; freed := x; hash_entries := hash_entries e;
     skiplist_nodes := skiplist_nodes e; purge_races := purge_races e;
     purged := purged e; log := log e |}.

Definition set_hash_entries (x : gmap N HashEntry) (e : State) : State :=
  {| thread_cache_ := thread_cache_ e;
     global_old_data_records_ := global_old_data_records_ e;
     global_old_delete_records_ := global_old_delete_records_ e;
     pending_free_space_entries_ := pending_free_space_entries_ e;
     last_clean_all_ts_ := last_clean_all_ts_ e; clock := clock e;
     snapshots := snapshots e; oldest_snapshot_ts := oldest_snapshot_ts e;
     pmem := pmem e; freed := freed e; hash_entries := x;
     skiplist_nodes := skiplist_nodes e; purge_races := purge_races e;
     purged := purged e; log := log e |}.

Definition set_purge_races (x : list bool) (e : State) : State :=
  {| thread_cache_ := thread_cache_ e;
     global_old_data_records_ := global_old_data_records_ e;
     global_old_delete_records_ := global_old_delete_records_ e;
     pending_free_space_entries_ := pending_free_space_entries_ e;
     last_clean_all_ts_ := last_clean_all_ts_ e; clock := clock e;
     snapshots := snapshots e; oldest_snapshot_ts := oldest_snapshot_ts e;
     pmem := pmem e; freed := freed e; hash_entries := hash_entries e;
     skiplist_nodes := skiplist_nodes e; purge_races := x;
     purged := purged e; log := log e |}.

Definition set_purged (x : list N) (e : State) : State :=
  {| thread_cache_ := thread_cache_ e;
     global_old_data_records_ := global_old_data_records_ e;
     global_old_delete_records_ := global_old_delete_records_ e;
     pending_free_space_entries_ := pending_free_space_entries_ e;
     last_clean_all_ts_ := last_clean_all_ts_ e; clock := clock e;
     snapshots := snapshots e; oldest_snapshot_ts := oldest_snapshot_ts e;
     pmem := pmem e; freed := freed e; hash_entries := hash_entries e;
     skiplist_nodes := skiplist_nodes e; purge_races := purge_races e;
     purged := x; log := log e |}.

Definition set_log (x : list string) (e : State) : State :=
  {| thread_cache_ := thread_cache_ e;
     global_old_data_records_ := global_old_data_records_ e;
     global_old_delete_records_ := global_old_delete_records_ e;
     pending_free_space_entries_ := pending_free_space_entries_ e;
     last_clean_all_ts_ := last_clean_all_ts_ e; clock := clock e;
     snapshots := snapshots e; oldest_snapshot_ts := oldest_snapshot_ts e;
     pmem := pmem e; freed := freed e; hash_entries := hash_entries e;
     skiplist_nodes := skiplist_nodes e; purge_races := purge_races e;
     purged := purged e; log := x |}.

Abbreviation CM := (M State).

Definition deref_data (p : ptr) : CM DataEntry :=
  fun st =>
    match p with
    | Some off =>
        match pmem st !! off with
        | Some e => Done e st
        | None => Crashed st
        end
    | None => Crashed st
    end.

Definition deref_hash_entry (p : ptr) : CM HashEntry :=
  fun st =>
    match p with
    | Some a =>
        match hash_entries st !! a with
        | Some e => Done e st
        | None => Crashed st
        end
    | None => Crashed st
    end.

Definition deref_node (p : ptr) : CM SkiplistNode :=
  fun st =>
    match p with
    | Some a =>
        match skiplist_nodes st !! a with
        | Some n => Done n st
        | None => Crashed st
        end
    | None => Crashed st
    end.

Definition ptr_eqb (p q : ptr) : bool :=
  match p, q with
  | Some a, Some b => a =? b
  | None, None => true
  | _, _ => false
  end.

Definition GlobalLogger_Error (msg : string) : CM unit :=
  modify (fun st => set_log (log st ++ [msg]) st).

(** Modelled from the spec: the version controller, "current_timestamp()
    -> u64, strictly monotonic", "update_oldest_snapshot(): refresh the
    global floor", "oldest_snapshot_ts(): floor of all live snapshots"
    (the current time when no snapshot is live). *)
Definition GetCurrentTimestamp : CM N :=
  fun st => Done (clock st) (set_clock (clock st + 1) st).

Definition UpdatedOldestSnapshot : CM unit :=
  now <- GetCurrentTimestamp ;;
  modify (fun st => set_oldest_snapshot_ts (foldr N.min now (snapshots st)) st).

Definition OldestSnapshotTS : CM N := st <- get ;; ret (oldest_snapshot_ts st).

(** Modelled from the spec: [DataEntry::Destroy], "poisons the header so
    that post-mortem scans reject the slot". *)
Definition Destroy (p : ptr) : CM unit :=
  e <- deref_data p ;;
  match p with
  | Some off =>
      modify (fun st =>
        set_pmem (<[off := {| record_size := record_size e; type := type e;
                              poisoned := true |}]> (pmem st)) st)
  | None => abort
  end.

(** Modelled from the spec: "free(SpaceEntry); batch_free(vector)": the
    space goes back to the allocator. *)
Definition BatchFree (spaces : list SpaceEntry) : CM unit :=
  modify (fun st => set_freed (freed st ++ spaces) st).

(** [addr2offset]: a record's address is its offset in the arena. *)
Definition addr2offset (p : ptr) : CM N :=
  match p with Some off => ret off | None => abort end.

(** Modelled from the spec: [HashEntry::Clear], "clear the index entry":
    the slot is left empty. *)
Definition HashEntry_empty : HashEntry :=
  {| offset_type := HashOffsetType.Other 0; index := None |}.

Definition Clear (hash_entry_ref : ptr) : CM unit :=
  _e <- deref_hash_entry hash_entry_ref ;;
  match hash_entry_ref with
  | Some a =>
      modify (fun st =>
        set_hash_entries (<[a := HashEntry_empty]> (hash_entries st)) st)
  | None => abort
  end.

(** Modelled from the spec: [Skiplist::Purge], "call the list type's
    Purge to splice it out; on splice contention retry": [false] when the
    splice was contended, otherwise the record is off its list. *)
Definition Skiplist_Purge (record dram_node : ptr) : CM bool :=
  st <- get ;;
  match purge_races st with
  | true :: rest => modify (set_purge_races rest) ;;; ret false
  | contended =>
      off <- addr2offset record ;;
      modify (fun st => set_purged (purged st ++ [off])
                          (set_purge_races (tail contended) st)) ;;;
      ret true
  end.

Definition purgeOldDataRecord (old_data_record : OldDataRecord)
    : CM SpaceEntry :=
  let data_entry := pmem_data_record old_data_record in
  e <- deref_data data_entry ;;
  match type e with
  | RecordType.StringDataRecord
  | RecordType.SortedDataRecord =>
      Destroy data_entry ;;;
      off <- addr2offset data_entry ;;
      e' <- deref_data data_entry ;;
      ret {| space_offset := off; space_size := record_size e' |}
  | _ => abort
  end.

(** The [while (1)] of the SortedDeleteRecord case; [continue] is the
    recursive call. *)
Fixpoint purge_sorted_delete (fuel : nat)
    (old_delete_record : OldDeleteRecord) : CM SpaceEntry :=
  match fuel with
  | O => fun _ => Spinning
  | S fuel' =>
      let data_entry := pmem_delete_record old_delete_record in
      let hash_entry_ref := hash_entry_ref old_delete_record in
      h <- deref_hash_entry hash_entry_ref ;;
      target <- (match offset_type h with
                 | HashOffsetType.DLRecord => ret (index h, None)
                 | HashOffsetType.SkiplistNode =>
                     let dram_node := index h in
                     n <- deref_node dram_node ;;
                     ret (record n, dram_node)
                 | _ =>
                     GlobalLogger_Error
                       "Wrong time in handle pending free skiplist delete record" ;;;
                     abort
                 end) ;;
      let '(hash_indexed_pmem_record, dram_node) := target in
      let finish : CM SpaceEntry :=
        off <- addr2offset data_entry ;;
        e <- deref_data data_entry ;;
        ret {| space_offset := off; space_size := record_size e |} in
      if ptr_eqb hash_indexed_pmem_record
                 (pmem_delete_record old_delete_record)
      then
        done <- Skiplist_Purge (pmem_delete_record old_delete_record)
                               dram_node ;;
        if done : bool then Clear hash_entry_ref ;;; finish
        else purge_sorted_delete fuel' old_delete_record
      else finish
  end.

Definition purgeOldDeleteRecord (fuel : nat)
    (old_delete_record : OldDeleteRecord) : CM SpaceEntry :=
  let data_entry := pmem_delete_record old_delete_record in
  e <- deref_data data_entry ;;
  match type e with
  | RecordType.StringDeleteRecord =>
      h <- deref_hash_entry (hash_entry_ref old_delete_record) ;;
      (if ptr_eqb (index h) (pmem_delete_record old_delete_record) then
         h' <- deref_hash_entry (hash_entry_ref old_delete_record) ;;
         if ptr_eqb (index h') (pmem_delete_record old_delete_record)
         then Clear (hash_entry_ref old_delete_record)
         else ret tt
       else ret tt) ;;;
      off <- addr2offset data_entry ;;
      e' <- deref_data data_entry ;;
      ret {| space_offset := off; space_size := record_size e' |}
  | RecordType.SortedDeleteRecord =>
      purge_sorted_delete fuel old_delete_record
  | _ => abort
  end.

(** "Fetch thread cached pending free records": one turn of the loop
    over [thread_cache_]. *)
Definition fetch_thread_cache (tc : ThreadCache) : CM ThreadCache :=
  let data_size := N.of_nat (List.length (old_data_records tc)) in
  let delete_size := N.of_nat (List.length (old_delete_records tc)) in
  if (0 <? data_size) || (10000000 <? delete_size) then
    tc1 <- (if 0 <? data_size then
              modify (fun st =>
                set_global_old_data_records
                  (global_old_data_records_ st ++ [old_data_records tc])
                  st) ;;;
              ret {| old_data_records := [];
                     old_delete_records := old_delete_records tc |}
            else ret tc) ;;
    if 10000000 <? delete_size then
      modify (fun st =>
        set_global_old_delete_records
          (global_old_delete_records_ st ++ [old_delete_records tc1]) st) ;;;
      ret {| old_data_records := old_data_records tc1;
             old_delete_records := [] |}
    else ret tc1
  else ret tc.

Fixpoint fetch_thread_caches (caches : list ThreadCache)
    : CM (list ThreadCache) :=
  match caches with
  | [] => ret []
  | tc :: rest =>
      tc' <- fetch_thread_cache tc ;;
      rest' <- fetch_thread_caches rest ;;
      ret (tc' :: rest')
  end.

(** "Find free-able data records": the inner and the outer [for]. *)
Fixpoint scan_data_records (oldest_snapshot_ts : N)
    (data_records : list OldDataRecord)
    (space_to_free : list SpaceEntry)
    (data_record_refered : list OldDataRecord)
    : CM (list SpaceEntry * list OldDataRecord) :=
  match data_records with
  | [] => ret (space_to_free, data_record_refered)
  | record :: rest =>
      if newer_version_timestamp record <=? oldest_snapshot_ts then
        sp <- purgeOldDataRecord record ;;
        scan_data_records oldest_snapshot_ts rest (space_to_free ++ [sp])
                          data_record_refered
      else
        scan_data_records oldest_snapshot_ts rest space_to_free
                          (data_record_refered ++ [record])
  end.

Fixpoint scan_global_data (oldest_snapshot_ts : N)
    (queues : list (list OldDataRecord))
    (space_to_free : list SpaceEntry)
    (data_record_refered : list OldDataRecord)
    : CM (list SpaceEntry * list OldDataRecord) :=
  match queues with
  | [] => ret (space_to_free, data_record_refered)
  | data_records :: rest =>
      acc <- scan_data_records oldest_snapshot_ts data_records
                               space_to_free data_record_refered ;;
      scan_global_data oldest_snapshot_ts rest (fst acc) (snd acc)
  end.

(** "Find free-able delete records". *)
Fixpoint scan_delete_records (fuel : nat) (oldest_snapshot_ts : N)
    (delete_records : list OldDeleteRecord)
    (space_pending : list SpaceEntry)
    (delete_record_refered : list OldDeleteRecord)
    : CM (list SpaceEntry * list OldDeleteRecord) :=
  match delete_records with
  | [] => ret (space_pending, delete_record_refered)
  | record :: rest =>
      if delete_newer_version_timestamp record <=? oldest_snapshot_ts then
        sp <- purgeOldDeleteRecord fuel record ;;
        scan_delete_records fuel oldest_snapshot_ts rest
                            (space_pending ++ [sp]) delete_record_refered
      else
        scan_delete_records fuel oldest_snapshot_ts rest space_pending
                            (delete_record_refered ++ [record])
  end.

Fixpoint scan_global_delete (fuel : nat) (oldest_snapshot_ts : N)
    (queues : list (list OldDeleteRecord))
    (space_pending : list SpaceEntry)
    (delete_record_refered : list OldDeleteRecord)
    : CM (list SpaceEntry * list OldDeleteRecord) :=
  match queues with
  | [] => ret (space_pending, delete_record_refered)
  | delete_records :: rest =>
      acc <- scan_delete_records fuel oldest_snapshot_ts delete_records
                                 space_pending delete_record_refered ;;
      scan_global_delete fuel oldest_snapshot_ts rest (fst acc) (snd acc)
  end.

(** The [while (iter != end)] over [pending_free_space_entries_]: free
    the leading batches, return where [iter] stopped. *)
Fixpoint free_pending (oldest_snapshot_ts : N)
    (iter : list PendingFreeSpaceEntries)
    : CM (list PendingFreeSpaceEntries) :=
  match iter with
  | [] => ret []
  | batch :: rest =>
      if free_ts batch <? oldest_snapshot_ts then
        BatchFree (entries batch) ;;;
        free_pending oldest_snapshot_ts rest
      else ret iter
  end.

Definition TryCleanAll (fuel : nat) : CM unit :=
  ts <- GetCurrentTimestamp ;;
  UpdatedOldestSnapshot ;;;
  oldest_snapshot_ts <- OldestSnapshotTS ;;
  st <- get ;;
  caches <- fetch_thread_caches (thread_cache_ st) ;;
  modify (set_thread_cache caches) ;;;
  st <- get ;;
  data <- scan_global_data oldest_snapshot_ts (global_old_data_records_ st)
                           [] [] ;;
  let '(space_to_free, data_record_refered) := data in
  st <- get ;;
  deleted <- scan_global_delete fuel oldest_snapshot_ts
                                (global_old_delete_records_ st) [] [] ;;
  let '(space_pending, delete_record_refered) := deleted in
  modify (set_last_clean_all_ts ts) ;;;
  (if (0 <? List.length space_pending)%nat then
     free_ts <- GetCurrentTimestamp ;;
     modify (fun st =>
       set_pending_free_space_entries
         (pending_free_space_entries_ st
            ++ [{| entries := space_pending; free_ts := free_ts |}]) st)
   else ret tt) ;;;
  st <- get ;;
  iter <- free_pending oldest_snapshot_ts (pending_free_space_entries_ st) ;;
  modify (set_pending_free_space_entries iter) ;;;
  (if (0 <? List.length space_to_free)%nat then BatchFree space_to_free
   else ret tt) ;;;
  modify (set_global_old_data_records [data_record_refered]) ;;;
  modify (set_global_old_delete_records [delete_record_refered]).
End Cleaner.

(** ** OldRecordsCleaner: the worker side

    [Push], [TryCleanCachedOldRecords] and [maybeUpdateOldestSnapshot]
    (old_records_cleaner.cpp). *)

Module CleanerCache.
Import Cleaner.

(** [thread_cache_[access_thread.id]], behind
    [kvdk_assert(access_thread.id >= 0, ...)]: with a negative id the
    assertion stops a debug build, and in any build the access is outside
    the vector, as it is with an id past its end. *)
Definition thread_cache_at (access_thread_id : Z) : CM ThreadCache :=
  fun st =>
    if (access_thread_id <? 0)%Z then Crashed st
    else match thread_cache_ st !! Z.to_nat access_thread_id with
         | Some tc => Done tc st
         | None => Crashed st
         end.

(** Writing through the reference [tc]. *)
Definition set_thread_cache_at (access_thread_id : Z) (tc : ThreadCache)
    : CM unit :=
  modify (fun st =>
    set_thread_cache (<[Z.to_nat access_thread_id := tc]> (thread_cache_ st))
                     st).



(** Modelled from the spec: "free(SpaceEntry)": the space goes back to the
    allocator. *)
Definition Free (space : SpaceEntry) : CM unit :=
  modify (fun st => set_freed (freed st ++ [space]) st).

Definition kUpdateSnapshotRound : N := 10000.

(** [maybeUpdateOldestSnapshot]; [round] is the caller's [thread_local
    size_t], handed in and handed back. *)
Definition maybeUpdateOldestSnapshot (round : N) : CM N :=
  let round := (round + 1) mod 2 ^ 64 in
  (if round mod kUpdateSnapshotRound =? 0 then UpdatedOldestSnapshot
   else ret tt) ;;;
  ret round.

(** [int limit = num_limit_clean]: a 64-bit [size_t] narrowed to a 32-bit
    [int], modulo 2^32 in two's complement. *)
Definition int_of_size_t (n : N) : Z :=
  let m := (Z.of_N n mod 2 ^ 32)%Z in
  if (m <? 2 ^ 31)%Z then m else (m - 2 ^ 32)%Z.

(** The first [for] of [TryCleanCachedOldRecords]; [limit] counts the
    turns that [limit > 0; limit--] still allows. *)
Fixpoint clean_cached_delete (fuel : nat) (access_thread_id : Z)
    (limit : nat) : CM unit :=
  match limit with
  | O => ret tt
  | S limit' =>
      tc <- thread_cache_at access_thread_id ;;
      st <- get ;;
      match old_delete_records tc with
      | front :: _ =>
          if delete_newer_version_timestamp front <? last_clean_all_ts_ st
          then
            space <- purgeOldDeleteRecord fuel front ;;
            Free space ;;;
            tc <- thread_cache_at access_thread_id ;;
            set_thread_cache_at access_thread_id
              {| old_data_records := old_data_records tc;
                 old_delete_records := tail (old_delete_records tc) |} ;;;
            clean_cached_delete fuel access_thread_id limit'
          else ret tt
      | [] => ret tt
      end
  end.

(** The second [for]. *)
Fixpoint clean_cached_data (access_thread_id : Z) (oldest_refer_ts : N)
    (limit : nat) : CM unit :=
  match limit with
  | O => ret tt
  | S limit' =>
      tc <- thread_cache_at access_thread_id ;;
      match old_data_records tc with
      | front :: _ =>
          if newer_version_timestamp front <? oldest_refer_ts then
            space <- purgeOldDataRecord front ;;
            Free space ;;;
            tc <- thread_cache_at access_thread_id ;;
            set_thread_cache_at access_thread_id
              {| old_data_records := tail (old_data_records tc);
                 old_delete_records := old_delete_records tc |} ;;;
            clean_cached_data access_thread_id oldest_refer_ts limit'
          else ret tt
      | [] => ret tt
      end
  end.

Definition TryCleanCachedOldRecords (fuel : nat) (access_thread_id : Z)
    (round : N) (num_limit_clean : N) : CM N :=
  tc <- thread_cache_at access_thread_id ;;
  if (0 <? List.length (old_data_records tc))%nat
     || (0 <? List.length (old_delete_records tc))%nat
  then
    round <- maybeUpdateOldestSnapshot round ;;
    clean_cached_delete fuel access_thread_id
      (Z.to_nat (int_of_size_t num_limit_clean)) ;;;
    oldest_refer_ts <- OldestSnapshotTS ;;
    clean_cached_data access_thread_id oldest_refer_ts
      (Z.to_nat (int_of_size_t num_limit_clean)) ;;;
    ret round
  else ret round.
End CleanerCache.

(** * Verification *)

Import HashTable HashList.

(** ** Vocabulary of the statements *)

(** The record an index entry points at, if it is in the arena. *)
Definition record_of (st : Engine) (lr : LookupResult) : option DLRecord :=
  match dl_record (entry lr) with
  | Some off => memory st !! off
  | None => None
  end.

(** The index entry found for a key points into the arena. *)
Definition entry_readable (st : Engine) (lr : LookupResult) : Prop :=
  HashTable.s lr = Status.Ok -> is_Some (record_of st lr).

(** What [Modify] hands to the transformer as the existing value. *)
Definition Modify_existing_value (st : Engine) (lr : LookupResult)
    : option string :=
  match HashTable.s lr, record_of st lr with
  | Status.Ok, Some r =>
      if RecordStatus.eqb (GetRecordStatus r) RecordStatus.Outdated
      then None else Some (Value r)
  | _, _ => None
  end.

(** [ret.existing_record] of [Modify] once the lookup is evaluated. *)
Definition Modify_existing_record (lr : LookupResult) : ptr :=
  match HashTable.s lr with
  | Status.Ok => dl_record (entry lr)
  | _ => None
  end.

(** The arguments [putPrepared] and [deletePrepared] build for the list. *)
Definition put_args (st : Engine) (key value : string) (timestamp : N)
    (space : SpaceEntry) : DLList.WriteArgs :=
  {| DLList.key := InternalKey (ID st) key; DLList.val := value;
     DLList.type := RecordType.HashElem;
     DLList.status := RecordStatus.Normal;
     DLList.ts := timestamp; DLList.space := space |}.

Definition delete_args (st : Engine) (key : string) (timestamp : N)
    (space : SpaceEntry) : DLList.WriteArgs :=
  {| DLList.key := InternalKey (ID st) key; DLList.val := EmptyString;
     DLList.type := RecordType.HashElem;
     DLList.status := RecordStatus.Outdated;
     DLList.ts := timestamp; DLList.space := space |}.

(** The index entry [Insert] stores for a record written at [space]. *)
Definition inserted (slot : string) (status : RecordStatus.t)
    (space : SpaceEntry) (st : Engine) : Engine :=
  set_entries
    (<[slot := {| entry_type := RecordType.HashElem; entry_status := status;
                  index_type := PointerType.DLRecord;
                  dl_record := Some (space_offset space) |}]> (entries st)) st.

(** The engine after the retries of [Update] and its success. *)
Definition updated (args : DLList.WriteArgs) (off : N) (old : DLRecord)
    (st : Engine) : Engine :=
  DLList.spliced args off (prev old) (next old)
    (set_races (drop (S (DLList.lost_races (races st))) (races st)) st).

(** The engine after [PushBack] or [PushFront], as the draw decides. *)
Definition pushed (args : DLList.WriteArgs) (h : DLRecord) (st : Engine)
    : Engine :=
  let st1 := set_random_drawn (S (random_drawn st)) st in
  if random_source st (random_drawn st) mod 2 =? 0
  then DLList.spliced args kNullPMemOffset (prev h) (header st) st1
  else DLList.spliced args kNullPMemOffset (header st) (next h) st1.

(** What [link p n new] makes of the record at [off]. *)
Definition relinked (p n new off : N) (r : DLRecord) : DLRecord :=
  let r1 := if decide (p = off) then with_next new r else r in
  if decide (n = off) then with_prev new r1 else r1.

(** [size_] after [UpdateSize(delta)]. *)
Definition resized (delta : Z) (st : Engine) : Engine :=
  set_size ((size_ st + delta) mod 2 ^ 64)%Z st.

(** The status of the record a pointer refers to, read in [st]. *)
Definition existing_status (st : Engine) (p : ptr)
    : option RecordStatus.t :=
  match p with
  | Some off => GetRecordStatus <$> memory st !! off
  | None => None
  end.

(** What a successful [PrepareWrite] (or the allocation in [Modify]) leaves
    for [Write] on a consistent engine: the descriptor is this list's, the
    lookup named a slot, an existing record is in the arena, linked, older
    than the write and not where the new record goes; a miss is a Put and
    the header is in place. *)
Definition write_ready (fuel : nat) (args : HashWriteArgs) (st : Engine)
    : Prop :=
  let lr := lookup_result args in
  hlist args = this st
  /\ is_Some (entry_ptr lr)
  /\ match HashTable.s lr with
     | Status.Ok =>
         exists off old,
           dl_record (entry lr) = Some off
           /\ memory st !! off = Some old
           /\ DLList.linked (memory st) off = true
           /\ off <> space_offset (space args)
           /\ (kvdk_debug st = true -> GetTimestamp old < ts args)
           /\ (DLList.lost_races (races st) < fuel)%nat
           /\ (op args = WriteOp.Delete ->
                 (kvdk_debug st = true ->
                    entry_type (entry lr) = RecordType.HashElem
                    /\ entry_status (entry lr) = RecordStatus.Normal)
                 /\ (ndebug st = false ->
                       RecordSize (InternalKey (ID st) (key args)) EmptyString
                       <= space_size (space args)))
     | Status.NotFound =>
         op args = WriteOp.Put /\ is_Some (memory st !! header st)
     | _ => False
     end.

(** ** A concrete collection

    Collection 1, named "h", whose HashList object sits at address 7; the
    header record is at offset 0 and the allocator holds four free chunks
    of 128 bytes.  The next two [Update] calls will lose their race. *)
Module Scenario.
Definition chunk (offset : N) : SpaceEntry :=
  {| space_offset := offset; space_size := 128 |}.

Definition header0 : DLRecord :=
  ConstructDLRecord 128 1 RecordType.HashHeader RecordStatus.Normal
    kNullPMemOffset 0 0 "h" (EncodeID 1) kPersistTime.

Definition empty (debug : bool) : Engine :=
  {| kvdk_debug := debug; ndebug := negb debug; this := 7; Name := "h";
     ID := 1;
     memory := {[ 0 := header0 ]};
     free_list := [chunk 128; chunk 256; chunk 384; chunk 512];
     entries := ∅; capacity := 4; header := 0;
     races := [true; true; false];
     size_ := 0%Z; random_source := fun n => N.of_nat n; random_drawn := O;
     log := [] |}.

(** The engine a call leaves behind. *)
Definition after {A} (m : EM A) (st : Engine) : Engine :=
  match m st with
  | Done _ st' => st'
  | Crashed st' => st'
  | Spinning => st
  end.

Definition ikey_a : string := InternalKey 1 "a".

(** After [Put("a", "1", 10)]: the element is at offset 128. *)
Definition with_a (debug : bool) : Engine :=
  after (Put 1 "a" "1" 10) (empty debug).

(** After [Delete("a", 30)] on top: the tombstone is at offset 256. *)
Definition tombstoned (debug : bool) : Engine :=
  after (Delete 3 "a" 30) (with_a debug).

(** The same with an allocator that has one 32-byte chunk left, too
    small for any record. *)
Definition exhausted (debug : bool) : Engine :=
  set_free_list [{| space_offset := 640; space_size := 32 |}]
                (with_a debug).

Definition write_args (o : WriteOp.t) (v : string) (t : N)
    (sp : SpaceEntry) (st : Engine) : HashWriteArgs :=
  {| collection := "h"; key := "a"; value := v; op := o; hlist := 7;
     space := sp; ts := t;
     lookup_result := find true ikey_a RecordType.HashElem st |}.
End Scenario.

(** ** Vocabulary for the cleaner *)

Module Sweep.
Import Cleaner.

(** [oldest_snapshot_ts] as [TryCleanAll] reads it: the floor of the live
    snapshots and of the time at which it is refreshed. *)
Definition oldest (st : State) : N := foldr N.min (clock st + 1) (snapshots st).

(** A record is due when [newer_version_timestamp <= oldest_snapshot_ts]. *)
Definition data_due (floor : N) (r : OldDataRecord) : bool :=
  newer_version_timestamp r <=? floor.

Definition delete_due (floor : N) (r : OldDeleteRecord) : bool :=
  delete_newer_version_timestamp r <=? floor.

(** A pending batch is free-able when [free_ts < oldest_snapshot_ts]. *)
Definition batch_due (floor : N) (b : PendingFreeSpaceEntries) : bool :=
  free_ts b <? floor.

(** The old-data lists of the workers that have any, and the old-delete
    lists of the workers whose backlog is over 10000000. *)
Definition fetched_data (caches : list ThreadCache)
    : list (list OldDataRecord) :=
  List.filter (fun l => 0 <? N.of_nat (List.length l))
              (map old_data_records caches).

Definition fetched_delete (caches : list ThreadCache)
    : list (list OldDeleteRecord) :=
  List.filter (fun l => 10000000 <? N.of_nat (List.length l))
              (map old_delete_records caches).

(** A worker's cache once it is fetched. *)
Definition fetched_cache (tc : ThreadCache) : ThreadCache :=
  {| old_data_records := [];
     old_delete_records :=
       if 10000000 <? N.of_nat (List.length (old_delete_records tc))
       then [] else old_delete_records tc |}.

(** The records queued for this pass, in the order they are visited. *)
Definition queued_data (st : State) : list OldDataRecord :=
  List.concat
    (global_old_data_records_ st ++ fetched_data (thread_cache_ st)).

Definition queued_delete (st : State) : list OldDeleteRecord :=
  List.concat
    (global_old_delete_records_ st ++ fetched_delete (thread_cache_ st)).

(** The space of the record at [p], as the purge functions return it. *)
Definition space_at (pm : gmap N DataEntry) (p : ptr) : SpaceEntry :=
  match p with
  | Some off =>
      match pm !! off with
      | Some e => {| space_offset := off; space_size := record_size e |}
      | None => SpaceEntry_default
      end
  | None => SpaceEntry_default
  end.

(** The arena once [Destroy] has poisoned the record of [r]. *)
Definition poison (pm : gmap N DataEntry) (r : OldDataRecord)
    : gmap N DataEntry :=
  match pmem_data_record r with
  | Some off =>
      match pm !! off with
      | Some e => <[off := {| record_size := record_size e; type := type e;
                              poisoned := true |}]> pm
      | None => pm
      end
  | None => pm
  end.

Fixpoint take_while {A} (f : A -> bool) (l : list A) : list A :=
  match l with
  | x :: rest => if f x then x :: take_while f rest else []
  | [] => []
  end.

Fixpoint drop_while {A} (f : A -> bool) (l : list A) : list A :=
  match l with
  | x :: rest => if f x then drop_while f rest else l
  | [] => []
  end.

(** The old-data record points at a data record of the arena. *)
Definition data_purgeable (pm : gmap N DataEntry) (r : OldDataRecord)
    : Prop :=
  exists off e,
    pmem_data_record r = Some off /\ pm !! off = Some e
    /\ (type e = RecordType.StringDataRecord
        \/ type e = RecordType.SortedDataRecord).

(** The old-delete record points at a delete record of the arena and at a
    slot of the index; for a sorted delete the slot holds a record or a
    skiplist node that exists. *)
Definition delete_purgeable (st : State) (r : OldDeleteRecord) : Prop :=
  exists off e a he,
    pmem_delete_record r = Some off /\ pmem st !! off = Some e
    /\ hash_entry_ref r = Some a /\ hash_entries st !! a = Some he
    /\ match type e with
       | RecordType.StringDeleteRecord => True
       | RecordType.SortedDeleteRecord =>
           match offset_type he with
           | HashOffsetType.DLRecord => True
           | HashOffsetType.SkiplistNode =>
               exists nd node,
                 index he = Some nd /\ skiplist_nodes st !! nd = Some node
           | HashOffsetType.Other _ => False
           end
       | _ => False
       end.

(** Every record that is due can be purged: its pointers are good, its
    type is a data or delete type, no two due tombstones share an index
    slot, and the retries of [Skiplist::Purge] fit in the fuel. *)
Definition cleanable (fuel : nat) (st : State) : Prop :=
  Forall (data_purgeable (pmem st))
         (List.filter (data_due (oldest st)) (queued_data st))
  /\ Forall (delete_purgeable st)
            (List.filter (delete_due (oldest st)) (queued_delete st))
  /\ NoDup (map hash_entry_ref
               (List.filter (delete_due (oldest st)) (queued_delete st)))
  /\ (List.length (purge_races st) < fuel)%nat.
(** What the purge of a tombstone may touch: the index slots, the coming
    race outcomes and the list of spliced-out records. *)
Definition purge_touched (he : gmap N HashEntry) (pr : list bool)
    (pu : list N) (st : State) : State :=
  set_hash_entries he (set_purge_races pr (set_purged pu st)).
End Sweep.

(** ** A concrete cleaner

    The clock stands at 20 and two snapshots are live, at 12 and 15.  One
    worker has two old data records cached; the global queues hold one more
    old data record and three tombstones; two batches of space are
    pending.  The next [Skiplist::Purge] will be contended once. *)
Module SweepScenario.
Import Cleaner.

Definition arena : gmap N DataEntry :=
  {[ 0 := {| record_size := 64; type := RecordType.StringDataRecord;
             poisoned := false |};
     64 := {| record_size := 128; type := RecordType.SortedDataRecord;
              poisoned := false |};
     192 := {| record_size := 64; type := RecordType.StringDeleteRecord;
               poisoned := false |};
     256 := {| record_size := 64; type := RecordType.SortedDeleteRecord;
               poisoned := false |};
     320 := {| record_size := 64; type := RecordType.StringDataRecord;
               poisoned := false |};
     384 := {| record_size := 64; type := RecordType.StringDeleteRecord;
               poisoned := false |} ]}.

Definition early_data : OldDataRecord :=
  {| pmem_data_record := Some 0; newer_version_timestamp := 5 |}.
Definition late_data : OldDataRecord :=
  {| pmem_data_record := Some 320; newer_version_timestamp := 50 |}.
Definition queued_data : OldDataRecord :=
  {| pmem_data_record := Some 64; newer_version_timestamp := 12 |}.

Definition string_tombstone : OldDeleteRecord :=
  {| pmem_delete_record := Some 192; delete_newer_version_timestamp := 6;
     hash_entry_ref := Some 1 |}.
Definition sorted_tombstone : OldDeleteRecord :=
  {| pmem_delete_record := Some 256; delete_newer_version_timestamp := 8;
     hash_entry_ref := Some 2 |}.
Definition late_tombstone : OldDeleteRecord :=
  {| pmem_delete_record := Some 384; delete_newer_version_timestamp := 13;
     hash_entry_ref := Some 3 |}.

Definition cleaner : State :=
  {| thread_cache_ :=
       [{| old_data_records := [early_data; late_data];
           old_delete_records := [] |};
        {| old_data_records := []; old_delete_records := [] |}];
     global_old_data_records_ := [[queued_data]];
     global_old_delete_records_ :=
       [[string_tombstone; late_tombstone; sorted_tombstone]];
     pending_free_space_entries_ :=
       [{| entries := [{| space_offset := 1024; space_size := 64 |}];
           free_ts := 3 |};
        {| entries := [{| space_offset := 2048; space_size := 64 |}];
           free_ts := 12 |};
        {| entries := [{| space_offset := 4096; space_size := 64 |}];
           free_ts := 4 |}];
     last_clean_all_ts_ := 2;
     clock := 20; snapshots := [12; 15]; oldest_snapshot_ts := 3;
     pmem := arena; freed := [];
     hash_entries :=
       {[ 1 := {| offset_type := HashOffsetType.Other 1; index := Some 192 |};
          2 := {| offset_type := HashOffsetType.SkiplistNode;
                  index := Some 9 |};
          3 := {| offset_type := HashOffsetType.Other 1;
                  index := Some 384 |} ]};
     skiplist_nodes := {[ 9 := {| record := Some 256 |} ]};
     purge_races := [true]; purged := []; log := [] |}.

(** An old-data record whose pointer leads to a tombstone. *)
Definition mistyped_data : OldDataRecord :=
  {| pmem_data_record := Some 192; newer_version_timestamp := 5 |}.

(** An old-delete record whose pointer leads to a data record. *)
Definition mistyped_delete : OldDeleteRecord :=
  {| pmem_delete_record := Some 0; delete_newer_version_timestamp := 5;
     hash_entry_ref := Some 1 |}.
End SweepScenario.

(** ** Vocabulary for writes, the ring and the index check *)

Import HashListCheck.

Definition write_args_of (st : Engine) (a : HashWriteArgs) : DLList.WriteArgs :=
  match op a with
  | WriteOp.Put => put_args st (key a) (value a) (ts a) (space a)
  | WriteOp.Delete => delete_args st (key a) (ts a) (space a)
  end.

Definition status_of (o : WriteOp.t) : RecordStatus.t :=
  match o with
  | WriteOp.Put => RecordStatus.Normal
  | WriteOp.Delete => RecordStatus.Outdated
  end.

Definition written (slot : string) (status : RecordStatus.t)
    (wargs : DLList.WriteArgs) (older p n : N) (rcs : list bool) (d : nat)
    (z : Z) (st : Engine) : Engine :=
  set_size z
    (inserted slot status (DLList.space wargs)
       (DLList.spliced wargs older p n
          (set_random_drawn d (set_races rcs st)))).

(** The test [Write] makes on the existing record before it calls
    [UpdateSize], and the delta it passes. *)
Definition size_test (o : WriteOp.t) (p : ptr) : EM bool :=
  match o with
  | WriteOp.Put => null_or_status p RecordStatus.Outdated
  | WriteOp.Delete => nonnull_and_status p RecordStatus.Normal
  end.

Definition delta_of (o : WriteOp.t) : Z :=
  match o with WriteOp.Put => 1%Z | WriteOp.Delete => (-1)%Z end.

(** [ret.existing_record] as [putPrepared] and [deletePrepared] set it. *)
Definition existing_of (a : HashWriteArgs) : ptr :=
  match op a with
  | WriteOp.Put =>
      if Status.eqb (HashTable.s (lookup_result a)) Status.Ok
      then dl_record (entry (lookup_result a)) else None
  | WriteOp.Delete => dl_record (entry (lookup_result a))
  end.

(** An index entry that counts for [Size()]: a Normal hash element. *)
Definition live (e : HashEntry) : bool :=
  RecordType.eqb (entry_type e) RecordType.HashElem
  && RecordStatus.eqb (entry_status e) RecordStatus.Normal.

Definition live_at (m : gmap string HashEntry) (k : string) : bool :=
  match m !! k with Some e => live e | None => false end.

Definition live_elems (st : Engine) : gmap string HashEntry :=
  filter (fun kv : string * HashEntry => live kv.2 = true) (entries st).

(** No free chunk of the allocator holds a record. *)
Definition free_space_unused (st : Engine) : Prop :=
  Forall (fun c => memory st !! space_offset c = None) (free_list st).

(** Every hash-element entry of the index points at a record of the arena
    that has the entry's status. *)
Definition index_agrees (st : Engine) : Prop :=
  forall k e,
    entries st !! k = Some e -> entry_type e = RecordType.HashElem ->
    exists off r,
      dl_record e = Some off /\ memory st !! off = Some r
      /\ GetRecordStatus r = entry_status e.

(** The engine between two calls: the allocator's free chunks are unused
    and at different offsets, the index agrees with the arena and is within
    its capacity, and [size_] is the number of Normal hash elements of the
    index. *)
Definition consistent (st : Engine) : Prop :=
  free_space_unused st
  /\ NoDup (map space_offset (free_list st))
  /\ index_agrees st
  /\ (size (entries st) <= capacity st)%nat
  /\ (Z.of_nat (capacity st) < 2 ^ 64)%Z
  /\ size_ st = Z.of_nat (size (live_elems st)).

(** Where a write splices its record: in the place of the linked record
    [older] that the lookup found, or next to the header with no older
    version. *)
Definition splice_point (st : Engine) (update : bool) (existing : ptr)
    (older p n : N) : Prop :=
  if update then
    exists old,
      existing = Some older /\ memory st !! older = Some old
      /\ DLList.linked (memory st) older = true
      /\ p = prev old /\ n = next old
  else
    exists h,
      memory st !! header st = Some h /\ older = kNullPMemOffset
      /\ (p = prev h /\ n = header st \/ p = header st /\ n = next h).

(** Whether [Write] goes through [DLList::Update]. *)
Definition updates (a : HashWriteArgs) : bool :=
  match op a with
  | WriteOp.Put => Status.eqb (HashTable.s (lookup_result a)) Status.Ok
  | WriteOp.Delete => true
  end.

(** What [CheckIndex] asks of a record on the list: the index resolves the
    record's key, with the record's type, to that very record, and the
    record's neighbours point back at it. *)
Definition indexed (st : Engine) (off : N) : Prop :=
  exists r e,
    memory st !! off = Some r
    /\ entries st !! Key r = Some e
    /\ entry_type e = GetRecordType r
    /\ dl_record e = Some off
    /\ DLList.linked (memory st) off = true.

(** [follows st p off]: [off] is reached from [p] along [next] before the
    header is. *)
Inductive follows (st : Engine) : N -> N -> Prop :=
| follows_next p r :
    memory st !! p = Some r -> next r <> header st ->
    follows st p (next r)
| follows_later p r off :
    memory st !! p = Some r -> next r <> header st ->
    follows st (next r) off -> follows st p off.

(** [offs] are the records from [p] round to the header, each of them
    indexed. *)
Fixpoint ring (st : Engine) (p : N) (offs : list N) : Prop :=
  match offs with
  | [] => exists r, memory st !! p = Some r /\ next r = header st
  | o :: rest =>
      (exists r, memory st !! p = Some r /\ next r = o)
      /\ o <> header st /\ indexed st o /\ ring st o rest
  end.

(** The records [l] follow one another between [before] and [after]: each
    has its predecessor as [prev] and its successor as [next]. *)
Fixpoint strung (m : gmap N DLRecord) (before : N) (l : list N) (after : N)
    : Prop :=
  match l with
  | [] => True
  | o :: rest =>
      exists r, m !! o = Some r /\ prev r = before /\ next r = hd after rest
                /\ strung m o rest after
  end.

(** The list of the collection is the ring header, [offs], header. *)
Definition well_linked (st : Engine) (offs : list N) : Prop :=
  NoDup (header st :: offs)
  /\ (exists h, memory st !! header st = Some h
                /\ next h = hd (header st) offs
                /\ prev h = default (header st) (last offs))
  /\ strung (memory st) (header st) offs (header st).

(** The ring and the index go together: every record of the ring is a hash
    element that the index resolves, by its key, to the record itself, and
    every hash-element entry of the index points at the record of the ring
    that has its key. *)
Definition listed (st : Engine) (offs : list N) : Prop :=
  well_linked st offs
  /\ (forall o, o ∈ offs ->
        exists r e,
          memory st !! o = Some r
          /\ GetRecordType r = RecordType.HashElem
          /\ entries st !! Key r = Some e
          /\ entry_type e = RecordType.HashElem
          /\ dl_record e = Some o)
  /\ (forall k e,
        entries st !! k = Some e -> entry_type e = RecordType.HashElem ->
        exists o r, dl_record e = Some o /\ o ∈ offs
                    /\ memory st !! o = Some r /\ Key r = k).

(** ** Vocabulary for the teardown *)



(** Two records that differ in their links at most. *)
Definition same_payload (r' r : DLRecord) : Prop :=
  Key r' = Key r /\ Value r' = Value r
  /\ GetTimestamp r' = GetTimestamp r /\ GetExpireTime r' = GetExpireTime r
  /\ old_version r' = old_version r /\ GetRecordType r' = GetRecordType r
  /\ GetRecordStatus r' = GetRecordStatus r
  /\ GetRecordSize r' = GetRecordSize r.


(** The collection as its teardown expects it: the ring and the index go
    together, the index holds the hash elements by record pointer, and the
    header is a HashHeader record whose index entry, if there is one, is the
    handle of this list. *)
Definition destroyable (e : Engine) (offs : list N) : Prop :=
  listed e offs
  /\ (forall k x,
        entries e !! k = Some x -> entry_type x = RecordType.HashElem ->
        index_type x = PointerType.DLRecord)
  /\ exists h,
       memory e !! header e = Some h
       /\ GetRecordType h = RecordType.HashHeader
       /\ (entries e !! Key h = None
           \/ exists x,
                entries e !! Key h = Some x
                /\ entry_type x = RecordType.HashHeader
                /\ index_type x = PointerType.HashList
                /\ dl_record x = Some (this e)).

(** ** Collections to tear down *)
Module TeardownScenario.
(** A teardown that starts on [e], with no other collection in the index,
    nothing destroyed and nothing freed yet. *)
Definition fresh (e : Engine) : Teardown.State :=
  {| Teardown.engine := e; Teardown.hlists := ∅; Teardown.destroyed := [];
     Teardown.freed := [] |}.


(** [Scenario.with_a] with the element's back pointer gone astray. *)
Definition detached : Engine :=
  set_memory (alter (with_prev 999) 128 (memory (Scenario.with_a true)))
             (Scenario.with_a true).
End TeardownScenario.

(** ** A collection with a full index *)

Module FullIndex.
(** The engine of [Scenario.with_a] with an index of one slot, which the
    element "a" fills. *)
Definition engine (debug : bool) : Engine :=
  let st := Scenario.with_a debug in
  {| kvdk_debug := kvdk_debug st; ndebug := ndebug st; this := this st;
     Name := Name st; ID := ID st; memory := memory st;
     free_list := free_list st; entries := entries st; capacity := 1;
     header := header st; races := races st; size_ := size_ st;
     random_source := random_source st; random_drawn := random_drawn st;
     log := log st |}.
End FullIndex.

(** ** Vocabulary for the worker-side cleaning *)
Module Worker.
Import Cleaner CleanerCache.

(** The round counter after a call, and whether that call refreshes the
    oldest snapshot. *)
Definition round_after (round : N) : N := (round + 1) mod 2 ^ 64.

Definition refreshes (round : N) : bool :=
  round_after round mod kUpdateSnapshotRound =? 0.


(** The version controller after [maybeUpdateOldestSnapshot]. *)
Definition refreshed (round : N) (st : State) : State :=
  if refreshes round
  then set_oldest_snapshot_ts (foldr N.min (clock st) (snapshots st))
                              (set_clock (clock st + 1) st)
  else st.


End Worker.

(** ** A worker with a backlog

    The cleaner of [SweepScenario] after a sweep at time 10, with worker 0
    holding two old data records and two tombstones. *)
Module WorkerScenario.
Import Cleaner.

Definition backlog : ThreadCache :=
  {| old_data_records := [SweepScenario.early_data; SweepScenario.late_data];
     old_delete_records :=
       [SweepScenario.string_tombstone; SweepScenario.late_tombstone] |}.

Definition busy : State :=
  set_last_clean_all_ts 10
    (set_global_old_delete_records []
       (set_thread_cache
          [backlog; {| old_data_records := []; old_delete_records := [] |}]
          SweepScenario.cleaner)).
End WorkerScenario.

(** ** Assertions, allocator, index: basic facts *)

Lemma kvdk_assert_holds (c : bool) (st : Engine) :
  (kvdk_debug st = true -> c = true) -> kvdk_assert c st = Done tt st.
Proof.
  unfold kvdk_assert. intros H.
  destruct (kvdk_debug st); [rewrite H by reflexivity|]; reflexivity.
Qed.

Lemma first_fit_grant size chunks g rest :
  Allocator.first_fit size chunks = Some (g, rest) ->
  0 < space_size g /\ size <= space_size g.
Proof.
  revert g rest.
  induction chunks as [|c chunks IH]; intros g rest; simpl; [discriminate|].
  destruct ((0 <? space_size c) && (size <=? space_size c)) eqn:E.
  - intros [= <- <-]. apply andb_true_iff in E as [E1 E2].
    apply N.ltb_lt in E1. apply N.leb_le in E2. auto.
  - destruct (Allocator.first_fit size chunks) as [[g' rest']|];
      [|discriminate].
    intros [= <- <-]. eapply IH; eauto.
Qed.

Lemma Allocate_zero size st g st' :
  Allocator.Allocate size st = Done g st' -> space_size g = 0 ->
  g = SpaceEntry_default /\ st' = st.
Proof.
  unfold Allocator.Allocate.
  destruct (Allocator.first_fit size (free_list st)) as [[g' rest]|] eqn:E.
  - intros [= <- <-] Hz. apply first_fit_grant in E. lia.
  - intros [= <- <-]. auto.
Qed.

Lemma first_fit_zero size st g st' :
  Allocator.Allocate size st = Done g st' -> space_size g = 0 ->
  Allocator.first_fit size (free_list st) = None.
Proof.
  unfold Allocator.Allocate.
  destruct (Allocator.first_fit size (free_list st)) as [[g' rest]|] eqn:E;
    [|reflexivity].
  intros [= <- <-] Hz. apply first_fit_grant in E. lia.
Qed.

Lemma find_status b key ty st :
  HashTable.s (find b key ty st) = Status.Ok
  \/ HashTable.s (find b key ty st) = Status.NotFound
  \/ HashTable.s (find b key ty st) = Status.MemoryOverflow.
Proof.
  unfold find, miss.
  destruct (entries st !! key) as [e|]; [destruct (RecordType.eqb _ _)|];
    destruct b; try destruct (_ <? _)%nat; simpl; auto.
Qed.

Lemma find_false_status key ty st :
  HashTable.s (find false key ty st) = Status.Ok
  \/ HashTable.s (find false key ty st) = Status.NotFound.
Proof.
  unfold find, miss.
  destruct (entries st !! key) as [e|]; [destruct (RecordType.eqb _ _)|];
    simpl; auto.
Qed.

Lemma deref_record_of st lr r :
  record_of st lr = Some r -> deref (dl_record (entry lr)) st = Done r st.
Proof.
  unfold record_of, deref. destruct (dl_record (entry lr)); [|discriminate].
  intros ->. reflexivity.
Qed.

Lemma allocate_space_put lr : allocate_space false lr = true.
Proof. unfold allocate_space. destruct (HashTable.s lr); reflexivity. Qed.

(** ** PrepareWrite and Modify in closed form *)

Lemma PrepareWrite_run (args : HashWriteArgs) (ts : N) (st : Engine) :
  (kvdk_debug st = true -> delete_value_empty args = true) ->
  hlist args = this st ->
  PrepareWrite args ts st =
    let internal_key := InternalKey (ID st) (key args) in
    let lr := find (negb (is_delete (op args))) internal_key
                   RecordType.HashElem st in
    let args1 := with_lookup_result lr (with_ts ts args) in
    match HashTable.s lr with
    | Status.MemoryOverflow => Done (Status.MemoryOverflow, args1) st
    | _ =>
        if allocate_space (is_delete (op args)) lr then
          match Allocator.first_fit (RecordSize internal_key (value args))
                                    (free_list st) with
          | Some (g, rest) =>
              Done (Status.Ok, with_space g args1) (set_free_list rest st)
          | None =>
              Done (Status.MemoryOverflow,
                    with_space SpaceEntry_default args1) st
          end
        else Done (Status.Ok, args1) st
    end.
Proof.
  intros Hpre Hh.
  unfold PrepareWrite, bind. rewrite (kvdk_assert_holds _ _ Hpre). unfold get.
  rewrite Hh, N.eqb_refl. simpl negb. cbv iota. unfold Lookup.
  replace (if is_delete (op (with_ts ts args)) then _ else _)
    with (fun st0 : Engine =>
            Done (find (negb (is_delete (op args)))
                       (InternalKey (ID st) (key args)) RecordType.HashElem st0)
                 st0)
    by (simpl; destruct (is_delete (op args)); reflexivity).
  simpl.
  pose proof (find_status (negb (is_delete (op args)))
                (InternalKey (ID st) (key args)) RecordType.HashElem st) as Hst.
  destruct (HashTable.s (find _ _ _ _)) eqn:E;
    try (exfalso; intuition congruence); try reflexivity;
    (destruct (allocate_space _ _); [|reflexivity]);
    unfold Allocator.Allocate;
    (destruct (Allocator.first_fit _ _) as [[g rest]|] eqn:F; [|reflexivity]);
    apply first_fit_grant in F as [F _];
    replace (space_size g =? 0) with false
      by (symmetry; apply N.eqb_neq; lia);
    reflexivity.
Qed.

Lemma Modify_run (fuel : nat) (k : string) (f : ModifyFunc) (ts : N)
    (st : Engine) :
  let internal_key := InternalKey (ID st) k in
  let lr := find true internal_key RecordType.HashElem st in
  HashTable.s lr <> Status.MemoryOverflow ->
  entry_readable st lr ->
  Modify fuel k f ts st =
    let ret1 := with_existing_record (Modify_existing_record lr)
                                     WriteResult_default in
    let args (v : string) (o : WriteOp.t) (g : SpaceEntry) :=
      {| collection := Name st; key := k; value := v; op := o;
         hlist := this st; space := g; ts := ts; lookup_result := lr |} in
    match f (Modify_existing_value st lr) with
    | (ModifyOperation.Write, new_value) =>
        match Allocator.first_fit (RecordSize internal_key new_value)
                                  (free_list st) with
        | Some (g, rest) =>
            Write fuel (args new_value WriteOp.Put g) (set_free_list rest st)
        | None => Done (with_s Status.MemoryOverflow ret1) st
        end
    | (ModifyOperation.Delete, _) =>
        match Allocator.first_fit (RecordSize internal_key EmptyString)
                                  (free_list st) with
        | Some (g, rest) =>
            Write fuel (args EmptyString WriteOp.Delete g)
                  (set_free_list rest st)
        | None => Done (with_s Status.MemoryOverflow ret1) st
        end
    | (ModifyOperation.Abort, _) => Done (with_s Status.Abort ret1) st
    | (ModifyOperation.Noop, _) => Done (with_s Status.Ok ret1) st
    end.
Proof.
  intros ikey lr Hs Hr. unfold lr, ikey in *. clear lr ikey.
  unfold Modify, bind, get, Lookup.
  unfold Modify_existing_value, Modify_existing_record.
  pose proof (find_status true (InternalKey (ID st) k) RecordType.HashElem st)
    as Hst.
  destruct (HashTable.s (find _ _ _ _)) eqn:E;
    try (exfalso; intuition congruence).
  - destruct (Hr E) as [r Hrec]. rewrite Hrec.
    rewrite (deref_record_of _ _ _ Hrec).
    destruct (RecordStatus.eqb (GetRecordStatus r) RecordStatus.Outdated);
      simpl; destruct (f _) as [[] nv]; simpl; try reflexivity;
      unfold Allocator.Allocate;
      destruct (Allocator.first_fit _ _) as [[g rest]|] eqn:F;
      try reflexivity;
      apply first_fit_grant in F as [F _];
      replace (space_size g =? 0) with false
        by (symmetry; apply N.eqb_neq; lia); reflexivity.
  - simpl. destruct (f None) as [[] nv]; simpl;
      try reflexivity;
      unfold Allocator.Allocate;
      destruct (Allocator.first_fit _ _) as [[g rest]|] eqn:F;
      try reflexivity;
      apply first_fit_grant in F as [F _];
      replace (space_size g =? 0) with false
        by (symmetry; apply N.eqb_neq; lia); reflexivity.
Qed.

(** ** The list operations in closed form *)

Lemma Update_run (args : DLList.WriteArgs) (off : N) (old : DLRecord)
    (st : Engine) :
  memory st !! off = Some old ->
  DLList.Update args (Some off) st =
    match races st with
    | true :: rest => Done Status.Fail (set_races rest st)
    | outcomes =>
        let st1 := set_races (tail outcomes) st in
        if DLList.linked (memory st) off
        then Done Status.Ok (DLList.spliced args off (prev old) (next old) st1)
        else Done Status.Fail st1
    end.
Proof.
  intros Hold. unfold DLList.Update, DLList.lost_race, bind.
  destruct (races st) as [|[] rest] eqn:E; simpl; try reflexivity.
  - rewrite Hold. unfold get. destruct (DLList.linked (memory st) off) eqn:L.
    + unfold DLList.splice, modify, ret. simpl.
      destruct st; simpl in *; subst; reflexivity.
    + unfold ret. destruct st; simpl in *; subst; reflexivity.
  - rewrite Hold. unfold get. simpl.
    destruct (DLList.linked (memory st) off) eqn:L; reflexivity.
Qed.

Lemma update_until_ok_run (fuel : nat) (args : DLList.WriteArgs) (off : N)
    (old : DLRecord) (st : Engine) :
  memory st !! off = Some old ->
  DLList.linked (memory st) off = true ->
  (DLList.lost_races (races st) < fuel)%nat ->
  update_until_ok fuel args (Some off) st =
    Done Status.Ok
      (DLList.spliced args off (prev old) (next old)
         (set_races (drop (S (DLList.lost_races (races st))) (races st)) st)).
Proof.
  revert st. induction fuel as [|fuel IH]; intros st Hold Hl Hf; [lia|].
  simpl. unfold bind. rewrite (Update_run _ _ _ _ Hold).
  destruct (races st) as [|[] rest] eqn:E.
  - simpl. rewrite Hl. reflexivity.
  - simpl. rewrite kvdk_assert_holds by reflexivity.
    rewrite IH; simpl; try assumption; [|simpl in Hf; lia].
    reflexivity.
  - simpl. rewrite Hl. simpl. rewrite drop_0. reflexivity.
Qed.

Lemma kvdk_assert_reading_holds (c : EM bool) (st : Engine) :
  (kvdk_debug st = true -> c st = Done true st) ->
  kvdk_assert_reading c st = Done tt st.
Proof.
  intros H. unfold kvdk_assert_reading, bind, get.
  destruct (kvdk_debug st) eqn:D; [|reflexivity].
  rewrite H by reflexivity. unfold kvdk_assert. rewrite D. reflexivity.
Qed.

Lemma newer_timestamp_asserted (p : ptr) (off : N) (old : DLRecord)
    (timestamp : N) (st : Engine) :
  p = Some off -> memory st !! off = Some old ->
  (kvdk_debug st = true -> GetTimestamp old < timestamp) ->
  kvdk_assert_reading
    (e <- deref p ;; ret (GetTimestamp e <? timestamp)) st = Done tt st.
Proof.
  intros -> Hold Hts. apply kvdk_assert_reading_holds. intros D.
  unfold bind, deref. rewrite Hold. unfold ret.
  rewrite (proj2 (N.ltb_lt _ _) (Hts D)). reflexivity.
Qed.

Lemma putPrepared_existing (fuel : nat) (lr : LookupResult)
    (key value : string) (timestamp : N) (space : SpaceEntry) (st : Engine)
    (off : N) (old : DLRecord) (slot : string) :
  HashTable.s lr = Status.Ok ->
  dl_record (entry lr) = Some off ->
  entry_ptr lr = Some slot ->
  memory st !! off = Some old ->
  DLList.linked (memory st) off = true ->
  (kvdk_debug st = true -> GetTimestamp old < timestamp) ->
  (DLList.lost_races (races st) < fuel)%nat ->
  putPrepared fuel lr key value timestamp space st =
    Done {| HashList.s := Status.Ok; existing_record := Some off;
            write_record := Some (space_offset space);
            hash_entry_ptr := Some slot |}
         (inserted slot RecordStatus.Normal space
            (updated (put_args st key value timestamp space) off old st)).
Proof.
  intros Hs Hp Hslot Hold Hl Hts Hf.
  pose proof (newer_timestamp_asserted _ off old timestamp st Hp Hold Hts)
    as Hta.
  unfold putPrepared, bind, get in *. rewrite Hs.
  cbn [Status.eqb]. cbv beta iota.
  rewrite Hta, Hp.
  fold (put_args st key value timestamp space).
  rewrite (update_until_ok_run _ _ _ _ _ Hold Hl Hf).
  unfold ret, Insert. rewrite Hslot. reflexivity.
Qed.

Lemma putPrepared_new (fuel : nat) (lr : LookupResult)
    (key value : string) (timestamp : N) (space : SpaceEntry) (st : Engine)
    (h : DLRecord) (slot : string) :
  HashTable.s lr = Status.NotFound ->
  entry_ptr lr = Some slot ->
  memory st !! header st = Some h ->
  putPrepared fuel lr key value timestamp space st =
    Done {| HashList.s := Status.Ok; existing_record := None;
            write_record := Some (space_offset space);
            hash_entry_ptr := Some slot |}
         (inserted slot RecordStatus.Normal space
            (pushed (put_args st key value timestamp space) h st)).
Proof.
  intros Hs Hslot Hh.
  unfold putPrepared, bind, get. rewrite Hs.
  cbn [Status.eqb]. cbv beta iota.
  rewrite kvdk_assert_holds by reflexivity.
  unfold fast_random_64, pushed.
  fold (put_args st key value timestamp space).
  destruct (random_source st (random_drawn st) mod 2 =? 0);
    unfold DLList.PushBack, DLList.PushFront, bind, get, deref; simpl;
    rewrite Hh; unfold DLList.splice, modify, ret; simpl;
    rewrite kvdk_assert_holds by reflexivity;
    unfold Insert; rewrite Hslot; reflexivity.
Qed.

Lemma deletePrepared_existing (fuel : nat) (lr : LookupResult)
    (key : string) (timestamp : N) (space : SpaceEntry) (st : Engine)
    (off : N) (old : DLRecord) (slot : string) :
  (kvdk_debug st = true ->
     HashTable.s lr = Status.Ok
     /\ entry_type (entry lr) = RecordType.HashElem
     /\ entry_status (entry lr) = RecordStatus.Normal) ->
  (ndebug st = false ->
     RecordSize (InternalKey (ID st) key) EmptyString <= space_size space) ->
  dl_record (entry lr) = Some off ->
  entry_ptr lr = Some slot ->
  memory st !! off = Some old ->
  DLList.linked (memory st) off = true ->
  (kvdk_debug st = true -> GetTimestamp old < timestamp) ->
  (DLList.lost_races (races st) < fuel)%nat ->
  deletePrepared fuel lr key timestamp space st =
    Done {| HashList.s := Status.Ok; existing_record := Some off;
            write_record := Some (space_offset space);
            hash_entry_ptr := None |}
         (inserted slot RecordStatus.Outdated space
            (updated (delete_args st key timestamp space) off old st)).
Proof.
  intros Hassert Hsize Hp Hslot Hold Hl Hts Hf.
  pose proof (newer_timestamp_asserted _ off old timestamp st Hp Hold Hts)
    as Hta.
  unfold deletePrepared, bind, get in *.
  rewrite kvdk_assert_holds.
  2:{ intros D. destruct (Hassert D) as (-> & -> & ->). reflexivity. }
  unfold std_assert.
  replace (negb (ndebug st) && negb (_ <=? _)) with false.
  2:{ destruct (ndebug st) eqn:Nd; [reflexivity|]. simpl.
      rewrite (proj2 (N.leb_le _ _) (Hsize eq_refl)). reflexivity. }
  rewrite Hta, Hp.
  fold (delete_args st key timestamp space).
  rewrite (update_until_ok_run _ _ _ _ _ Hold Hl Hf).
  unfold ret, Insert. rewrite Hslot. reflexivity.
Qed.

(** ** Reading the arena after a splice *)

Lemma link_lookup (m : gmap N DLRecord) (p n new off : N) :
  DLList.link p n new m !! off = relinked p n new off <$> m !! off.
Proof.
  unfold DLList.link, relinked.
  destruct (decide (n = off)) as [->|Hn], (decide (p = off)) as [->|Hp];
    rewrite ?lookup_alter_eq, ?lookup_alter_ne, ?lookup_alter_eq by done;
    destruct (m !! off); reflexivity.
Qed.

Lemma relinked_status p n new off r :
  GetRecordStatus (relinked p n new off r) = GetRecordStatus r.
Proof.
  unfold relinked. destruct (decide (p = off)), (decide (n = off)); reflexivity.
Qed.

Lemma spliced_lookup_old (args : DLList.WriteArgs) (older p n off : N)
    (old : DLRecord) (st : Engine) :
  memory st !! off = Some old ->
  off <> space_offset (DLList.space args) ->
  exists old', memory (DLList.spliced args older p n st) !! off = Some old'
               /\ GetRecordStatus old' = GetRecordStatus old.
Proof.
  intros Hold Hne. unfold DLList.spliced. simpl.
  rewrite link_lookup, lookup_insert_ne by congruence. rewrite Hold. simpl.
  eexists. split; [reflexivity|]. apply relinked_status.
Qed.

Lemma UpdateSize_run (delta : Z) (st : Engine) :
  (kvdk_debug st = true -> (0 <= delta \/ - delta <= size_ st)%Z) ->
  UpdateSize delta st = Done tt (resized delta st).
Proof.
  intros H. unfold UpdateSize, bind, get. rewrite kvdk_assert_holds.
  - reflexivity.
  - intros D. apply orb_true_iff. destruct (H D); [left|right];
      apply Z.leb_le; assumption.
Qed.

(** ** Write in closed form *)

Lemma null_or_status_after_update (args : DLList.WriteArgs) (off : N)
    (old : DLRecord) (slot : string) (status status' : RecordStatus.t)
    (st : Engine) :
  memory st !! off = Some old ->
  off <> space_offset (DLList.space args) ->
  let st2 := inserted slot status' (DLList.space args) (updated args off old st) in
  null_or_status (Some off) status st2
    = Done (RecordStatus.eqb (GetRecordStatus old) status) st2
  /\ nonnull_and_status (Some off) status st2
    = Done (RecordStatus.eqb (GetRecordStatus old) status) st2.
Proof.
  intros Hold Hne st2.
  destruct (spliced_lookup_old args off (prev old) (next old) off old
              (set_races (drop (S (DLList.lost_races (races st))) (races st)) st)
              Hold Hne) as (old' & Hl & Hst).
  unfold null_or_status, nonnull_and_status, bind, deref.
  change (memory st2) with (memory (updated args off old st)).
  unfold updated. rewrite Hl, Hst. split; reflexivity.
Qed.

Lemma Write_put_existing (fuel : nat) (args : HashWriteArgs) (st : Engine)
    (off : N) (old : DLRecord) (slot : string) :
  hlist args = this st ->
  op args = WriteOp.Put ->
  HashTable.s (lookup_result args) = Status.Ok ->
  dl_record (entry (lookup_result args)) = Some off ->
  entry_ptr (lookup_result args) = Some slot ->
  memory st !! off = Some old ->
  DLList.linked (memory st) off = true ->
  (kvdk_debug st = true -> GetTimestamp old < ts args) ->
  (DLList.lost_races (races st) < fuel)%nat ->
  off <> space_offset (space args) ->
  let st2 := inserted slot RecordStatus.Normal (space args)
               (updated (put_args st (key args) (value args) (ts args)
                                  (space args)) off old st) in
  Write fuel args st =
    Done {| HashList.s := Status.Ok; existing_record := Some off;
            write_record := Some (space_offset (space args));
            hash_entry_ptr := Some slot |}
         (if RecordStatus.eqb (GetRecordStatus old) RecordStatus.Outdated
          then resized 1 st2 else st2).
Proof.
  intros Hh Hop Hs Hp Hslot Hold Hl Hts Hf Hne st2.
  unfold Write. unfold bind at 1. unfold get. rewrite Hh, N.eqb_refl, Hop.
  cbn [negb]. unfold bind at 1.
  rewrite (putPrepared_existing fuel _ _ _ _ _ st off old slot) by assumption.
  fold st2. cbn [existing_record].
  destruct (null_or_status_after_update
              (put_args st (key args) (value args) (ts args) (space args))
              off old slot RecordStatus.Outdated RecordStatus.Normal st
              Hold Hne) as [Hn _].
  cbn [DLList.space put_args] in Hn. fold st2 in Hn.
  unfold bind. rewrite Hn.
  destruct (RecordStatus.eqb (GetRecordStatus old) RecordStatus.Outdated).
  - rewrite UpdateSize_run by (intros _; left; lia). reflexivity.
  - reflexivity.
Qed.

Lemma Write_put_new (fuel : nat) (args : HashWriteArgs) (st : Engine)
    (h : DLRecord) (slot : string) :
  hlist args = this st ->
  op args = WriteOp.Put ->
  HashTable.s (lookup_result args) = Status.NotFound ->
  entry_ptr (lookup_result args) = Some slot ->
  memory st !! header st = Some h ->
  Write fuel args st =
    Done {| HashList.s := Status.Ok; existing_record := None;
            write_record := Some (space_offset (space args));
            hash_entry_ptr := Some slot |}
         (resized 1
            (inserted slot RecordStatus.Normal (space args)
               (pushed (put_args st (key args) (value args) (ts args)
                                 (space args)) h st))).
Proof.
  intros Hh Hop Hs Hslot Hhd.
  unfold Write. unfold bind at 1. unfold get. rewrite Hh, N.eqb_refl, Hop.
  cbn [negb]. unfold bind at 1.
  rewrite (putPrepared_new fuel _ _ _ _ _ st h slot) by assumption.
  cbn [existing_record]. unfold null_or_status, bind, ret.
  rewrite UpdateSize_run by (intros _; left; lia). reflexivity.
Qed.

Lemma Write_delete_existing (fuel : nat) (args : HashWriteArgs) (st : Engine)
    (off : N) (old : DLRecord) (slot : string) :
  hlist args = this st ->
  op args = WriteOp.Delete ->
  (kvdk_debug st = true ->
     HashTable.s (lookup_result args) = Status.Ok
     /\ entry_type (entry (lookup_result args)) = RecordType.HashElem
     /\ entry_status (entry (lookup_result args)) = RecordStatus.Normal) ->
  (ndebug st = false ->
     RecordSize (InternalKey (ID st) (key args)) EmptyString
     <= space_size (space args)) ->
  dl_record (entry (lookup_result args)) = Some off ->
  entry_ptr (lookup_result args) = Some slot ->
  memory st !! off = Some old ->
  DLList.linked (memory st) off = true ->
  (kvdk_debug st = true -> GetTimestamp old < ts args) ->
  (DLList.lost_races (races st) < fuel)%nat ->
  off <> space_offset (space args) ->
  (kvdk_debug st = true -> (1 <= size_ st)%Z) ->
  let st2 := inserted slot RecordStatus.Outdated (space args)
               (updated (delete_args st (key args) (ts args) (space args))
                        off old st) in
  Write fuel args st =
    Done {| HashList.s := Status.Ok; existing_record := Some off;
            write_record := Some (space_offset (space args));
            hash_entry_ptr := None |}
         (if RecordStatus.eqb (GetRecordStatus old) RecordStatus.Normal
          then resized (-1) st2 else st2).
Proof.
  intros Hh Hop Ha Hsz Hp Hslot Hold Hl Hts Hf Hne Hsize st2.
  unfold Write. unfold bind at 1. unfold get. rewrite Hh, N.eqb_refl, Hop.
  cbn [negb]. unfold bind at 1.
  rewrite (deletePrepared_existing fuel _ _ _ _ st off old slot) by assumption.
  fold st2. cbn [existing_record].
  destruct (null_or_status_after_update
              (delete_args st (key args) (ts args) (space args))
              off old slot RecordStatus.Normal RecordStatus.Outdated st
              Hold Hne) as [_ Hn].
  cbn [DLList.space delete_args] in Hn. fold st2 in Hn.
  unfold bind. rewrite Hn.
  destruct (RecordStatus.eqb (GetRecordStatus old) RecordStatus.Normal).
  - rewrite UpdateSize_run; [reflexivity|].
    intros D. right. apply Hsize in D. simpl in *. lia.
  - reflexivity.
Qed.

(** C7: Write adds one to Size() exactly for a Put whose existing record
    was absent or Outdated, takes one away exactly for a Delete whose
    existing record was Normal, and leaves Size() alone otherwise. *)
Theorem Write_updates_size (fuel : nat) (args : HashWriteArgs) (st : Engine) :
  write_ready fuel args st ->
  (0 <= size_ st < 2 ^ 64 - 1)%Z ->
  (op args = WriteOp.Delete -> 1 <= size_ st)%Z ->
  exists r st',
    Write fuel args st = Done r st'
    /\ let was := existing_status st (existing_record r) in
       let put_grows :=
         op args = WriteOp.Put
         /\ (existing_record r = None \/ was = Some RecordStatus.Outdated) in
       let delete_shrinks :=
         op args = WriteOp.Delete /\ was = Some RecordStatus.Normal in
       (size_ st' = size_ st + 1 <-> put_grows)%Z
       /\ (size_ st' = size_ st - 1 <-> delete_shrinks)%Z
       /\ (~ put_grows -> ~ delete_shrinks -> size_ st' = size_ st).
Proof.
  intros (Hh & [slot Hslot] & Hcase) Hrange Hdel.
  destruct (HashTable.s (lookup_result args)) eqn:Hs; try contradiction.
  - destruct Hcase as (off & old & Hp & Hold & Hl & Hne & Hts & Hf & Hd).
    destruct (op args) eqn:Hop.
    + eexists _, _. split.
      { apply (Write_put_existing fuel args st off old slot); assumption. }
      cbn [existing_record existing_status]. rewrite Hold. cbn [fmap option_fmap option_map].
      destruct (GetRecordStatus old) eqn:E; cbn [RecordStatus.eqb];
        unfold resized, inserted, updated, DLList.spliced; cbn [size_ set_size set_entries set_memory set_races];
        rewrite ?Z.mod_small by lia;
        repeat split; intros; try lia; try tauto; try intuition congruence.
    + destruct (Hd eq_refl) as [Hd1 Hd2].
      eexists _, _. split.
      { apply (Write_delete_existing fuel args st off old slot); try assumption.
        - intros D. destruct (Hd1 D). auto.
        - intros _. apply Hdel. reflexivity. }
      cbn [existing_record existing_status]. rewrite Hold. cbn [fmap option_fmap option_map].
      specialize (Hdel eq_refl).
      destruct (GetRecordStatus old) eqn:E; cbn [RecordStatus.eqb];
        unfold resized, inserted, updated, DLList.spliced; cbn [size_ set_size set_entries set_memory set_races];
        rewrite ?Z.mod_small by lia;
        repeat split; intros; try lia; try tauto; try intuition congruence.
  - destruct Hcase as [Hop [h Hhd]].
    eexists _, _. split.
    { apply (Write_put_new fuel args st h slot); assumption. }
    cbn [existing_record existing_status].
    unfold resized, inserted, pushed.
    destruct (_ =? 0); unfold DLList.spliced; cbn [size_ set_size set_entries set_memory set_races set_random_drawn];
      rewrite ?Z.mod_small by lia;
      repeat split; intros; try lia; try tauto; try intuition congruence.
Qed.

(** ** The record a splice publishes *)

Lemma relinked_next_of_prev p n new r : next (relinked p n new p r) = new.
Proof.
  unfold relinked.
  destruct (decide (p = p)), (decide (n = p)); try congruence; reflexivity.
Qed.

Lemma relinked_prev_of_next p n new r : prev (relinked p n new n r) = new.
Proof.
  unfold relinked.
  destruct (decide (p = n)), (decide (n = n)); try congruence; reflexivity.
Qed.

Lemma relinked_elsewhere p n new off r :
  p <> off -> n <> off -> relinked p n new off r = r.
Proof.
  intros Hp Hn. unfold relinked.
  destruct (decide (p = off)), (decide (n = off)); try congruence; reflexivity.
Qed.

Lemma linked_neighbours (m : gmap N DLRecord) (off : N) (r : DLRecord) :
  m !! off = Some r -> DLList.linked m off = true ->
  is_Some (m !! prev r) /\ is_Some (m !! next r).
Proof.
  unfold DLList.linked. intros ->.
  destruct (m !! prev r), (m !! next r); try discriminate. eauto.
Qed.

Lemma spliced_new_record (args : DLList.WriteArgs) (older p n : N)
    (st : Engine) :
  let new := space_offset (DLList.space args) in
  memory st !! new = None ->
  is_Some (memory st !! p) -> is_Some (memory st !! n) ->
  memory (DLList.spliced args older p n st) !! new
    = Some (ConstructDLRecord (space_size (DLList.space args))
              (DLList.ts args) (DLList.type args) (DLList.status args)
              older p n (DLList.key args) (DLList.val args) kPersistTime)
  /\ DLList.linked (memory (DLList.spliced args older p n st)) new = true.
Proof.
  intros new Hfresh [P HP] [Nx HN].
  assert (Hpn : p <> new) by (intros ->; congruence).
  assert (Hnn : n <> new) by (intros ->; congruence).
  assert (Hnew : memory (DLList.spliced args older p n st) !! new
    = Some (ConstructDLRecord (space_size (DLList.space args))
              (DLList.ts args) (DLList.type args) (DLList.status args)
              older p n (DLList.key args) (DLList.val args) kPersistTime)).
  { unfold DLList.spliced. cbn [memory set_memory]. fold new.
    rewrite link_lookup, lookup_insert_eq. cbn [fmap option_fmap option_map].
    rewrite relinked_elsewhere by assumption. reflexivity. }
  split; [exact Hnew|].
  unfold DLList.linked. rewrite Hnew. cbn [prev next ConstructDLRecord].
  unfold DLList.spliced. cbn [memory set_memory]. fold new.
  rewrite !link_lookup, !lookup_insert_ne, HP, HN by congruence.
  cbn [fmap option_fmap option_map].
  rewrite relinked_next_of_prev, relinked_prev_of_next, N.eqb_refl.
  reflexivity.
Qed.

(** ** putPrepared: replace what the lookup found, push what it missed *)

Lemma lost_races_drop (l : list bool) (k : nat) :
  (k < DLList.lost_races l)%nat -> drop k l = true :: drop (S k) l.
Proof.
  revert k. induction l as [|[] l IH]; intros k; simpl; try lia.
  destruct k as [|k]; [reflexivity|]. intros H.
  simpl. apply IH. lia.
Qed.

Lemma lost_races_stop (l : list bool) :
  DLList.lost_races (drop (DLList.lost_races l) l) = O.
Proof. induction l as [|[] l IH]; simpl; auto. Qed.

Lemma tail_drop {A} (l : list A) (k : nat) : tail (drop k l) = drop (S k) l.
Proof.
  revert k. induction l as [|x l IH]; intros [|k]; simpl; try reflexivity.
  apply IH.
Qed.

Lemma Update_retry (args : DLList.WriteArgs) (off : N) (old : DLRecord)
    (st : Engine) (k : nat) :
  memory st !! off = Some old ->
  (k < DLList.lost_races (races st))%nat ->
  DLList.Update args (Some off) (set_races (drop k (races st)) st)
    = Done Status.Fail (set_races (drop (S k) (races st)) st).
Proof.
  intros Hold Hk. rewrite (Update_run _ _ old) by exact Hold.
  cbn [races set_races]. rewrite (lost_races_drop _ _ Hk). reflexivity.
Qed.

Lemma Update_succeeds (args : DLList.WriteArgs) (off : N) (old : DLRecord)
    (st : Engine) :
  memory st !! off = Some old ->
  DLList.linked (memory st) off = true ->
  DLList.Update args (Some off)
    (set_races (drop (DLList.lost_races (races st)) (races st)) st)
    = Done Status.Ok (updated args off old st).
Proof.
  intros Hold Hl. rewrite (Update_run _ _ old) by exact Hold.
  cbn [races set_races memory]. rewrite Hl.
  pose proof (lost_races_stop (races st)) as Hstop.
  pose proof (tail_drop (races st) (DLList.lost_races (races st))) as Ht.
  unfold updated.
  destruct (drop (DLList.lost_races (races st)) (races st)) as [|[] rest];
    simpl in Hstop; try discriminate; cbv zeta; rewrite Ht; reflexivity.
Qed.

(** C1 (as amended): when the lookup returned Ok, whatever the status of
    the existing record, putPrepared replaces that record in place through
    DLList.Update, retried while it fails, and the new record's old_version
    is the existing record; only when the lookup returned NotFound is the
    new record pushed next to the header, at the back when the draw of
    fast_random_64 is even and at the front when it is odd. *)
Theorem putPrepared_updates_found_pushes_missing
    (fuel : nat) (lr : LookupResult) (key value : string) (timestamp : N)
    (space : SpaceEntry) (st : Engine) (slot : string) :
  entry_ptr lr = Some slot ->
  memory st !! space_offset space = None ->
  let args := put_args st key value timestamp space in
  let new := space_offset space in
  (forall (off : N) (old : DLRecord),
      HashTable.s lr = Status.Ok ->
      dl_record (entry lr) = Some off ->
      memory st !! off = Some old ->
      DLList.linked (memory st) off = true ->
      (kvdk_debug st = true -> GetTimestamp old < timestamp) ->
      (DLList.lost_races (races st) < fuel)%nat ->
      let st1 := updated args off old st in
      (forall k, (k < DLList.lost_races (races st))%nat ->
         DLList.Update args (Some off) (set_races (drop k (races st)) st)
         = Done Status.Fail (set_races (drop (S k) (races st)) st))
      /\ DLList.Update args (Some off)
           (set_races (drop (DLList.lost_races (races st)) (races st)) st)
         = Done Status.Ok st1
      /\ putPrepared fuel lr key value timestamp space st
         = Done {| HashList.s := Status.Ok; existing_record := Some off;
                   write_record := Some new; hash_entry_ptr := Some slot |}
                (inserted slot RecordStatus.Normal space st1)
      /\ memory st1 !! new
         = Some (ConstructDLRecord (space_size space) timestamp
                   RecordType.HashElem RecordStatus.Normal off
                   (prev old) (next old) (InternalKey (ID st) key) value
                   kPersistTime)
      /\ DLList.linked (memory st1) new = true)
  /\ (forall (h : DLRecord),
      HashTable.s lr = Status.NotFound ->
      memory st !! header st = Some h ->
      let draw := random_source st (random_drawn st) in
      exists st1 st2,
        fast_random_64 st = Done draw st1
        /\ (if draw mod 2 =? 0 then DLList.PushBack args st1
            else DLList.PushFront args st1) = Done Status.Ok st2
        /\ putPrepared fuel lr key value timestamp space st
           = Done {| HashList.s := Status.Ok; existing_record := None;
                     write_record := Some new; hash_entry_ptr := Some slot |}
                  (inserted slot RecordStatus.Normal space st2)).
Proof.
  intros Hslot Hfresh args new. split.
  - intros off old Hs Hp Hold Hl Hts Hf st1.
    split; [intros k Hk; apply (Update_retry args off old); assumption|].
    split; [apply Update_succeeds; assumption|].
    split; [apply putPrepared_existing; assumption|].
    destruct (linked_neighbours _ _ _ Hold Hl) as [HP HN].
    unfold st1, updated.
    apply (spliced_new_record args off (prev old) (next old)
             (set_races _ st)); assumption.
  - intros h Hs Hh draw.
    exists (set_random_drawn (S (random_drawn st)) st), (pushed args h st).
    split; [reflexivity|]. split.
    + unfold draw, pushed. destruct (_ =? 0);
        unfold DLList.PushBack, DLList.PushFront, bind, get, deref;
        cbn [memory set_random_drawn header]; rewrite Hh; reflexivity.
    + apply putPrepared_new; assumption.
Qed.

(** C1 as stated fails on a key whose index entry is a tombstone: the
    lookup returns Ok with an Outdated entry, and putPrepared replaces the
    tombstone through Update (the new record's old_version is the
    tombstone's offset 256, and the tombstone is off the list), where
    either push would have left old_version null and the tombstone
    linked. *)
Lemma put_over_tombstone_is_an_update :
  entry_status
    (entry (find true Scenario.ikey_a RecordType.HashElem
                 (Scenario.tombstoned true))) = RecordStatus.Outdated
  /\ putPrepared 1
       (find true Scenario.ikey_a RecordType.HashElem
             (Scenario.tombstoned true))
       "a" "3" 40 (Scenario.chunk 384) (Scenario.tombstoned true)
     = Done {| HashList.s := Status.Ok; existing_record := Some 256;
               write_record := Some 384;
               hash_entry_ptr := Some Scenario.ikey_a |}
            (inserted Scenario.ikey_a RecordStatus.Normal (Scenario.chunk 384)
               (Scenario.after
                  (DLList.Update
                     (put_args (Scenario.tombstoned true) "a" "3" 40
                               (Scenario.chunk 384)) (Some 256))
                  (Scenario.tombstoned true)))
  /\ (let after_put :=
        Scenario.after
          (putPrepared 1
             (find true Scenario.ikey_a RecordType.HashElem
                   (Scenario.tombstoned true))
             "a" "3" 40 (Scenario.chunk 384)) (Scenario.tombstoned true) in
      let after_push (push : DLList.WriteArgs -> EM Status.t) :=
        Scenario.after
          (push (put_args (Scenario.tombstoned true) "a" "3" 40
                          (Scenario.chunk 384)))
          (Scenario.tombstoned true) in
      old_version <$> memory after_put !! 384 = Some 256
      /\ DLList.linked (memory after_put) 256 = false
      /\ old_version <$> memory (after_push DLList.PushBack) !! 384
         = Some kNullPMemOffset
      /\ DLList.linked (memory (after_push DLList.PushBack)) 256 = true
      /\ old_version <$> memory (after_push DLList.PushFront) !! 384
         = Some kNullPMemOffset
      /\ DLList.linked (memory (after_push DLList.PushFront)) 256 = true).
Proof. vm_compute. repeat split; reflexivity. Qed.

Lemma putPrepared_updates_found_pushes_missing_witness :
  let st := Scenario.with_a true in
  let lr := find true Scenario.ikey_a RecordType.HashElem st in
  (entry_ptr lr = Some Scenario.ikey_a
   /\ memory st !! 256 = None
   /\ HashTable.s lr = Status.Ok
   /\ DLList.linked (memory st) 128 = true)
  /\ putPrepared 3 lr "a" "2" 20 (Scenario.chunk 256) st
     = Done {| HashList.s := Status.Ok; existing_record := Some 128;
               write_record := Some 256;
               hash_entry_ptr := Some Scenario.ikey_a |}
            (inserted Scenario.ikey_a RecordStatus.Normal (Scenario.chunk 256)
               (updated (put_args st "a" "2" 20 (Scenario.chunk 256)) 128
                  (ConstructDLRecord 128 10 RecordType.HashElem
                     RecordStatus.Normal kNullPMemOffset 0 0
                     Scenario.ikey_a "1" kPersistTime) st)).
Proof.
  cbv zeta. split; [vm_compute; repeat split; reflexivity|].
  refine (proj1 (proj2 (proj2
    (proj1 (putPrepared_updates_found_pushes_missing 3
              (find true Scenario.ikey_a RecordType.HashElem
                    (Scenario.with_a true))
              "a" "2" 20 (Scenario.chunk 256) (Scenario.with_a true)
              Scenario.ikey_a _ _)
       128
       (ConstructDLRecord 128 10 RecordType.HashElem RecordStatus.Normal
          kNullPMemOffset 0 0 Scenario.ikey_a "1" kPersistTime)
       _ _ _ _ _ _)))).
  all: vm_compute; reflexivity.
Defined.

Lemma Write_updates_size_witness :
  let st := Scenario.with_a true in
  let args := Scenario.write_args WriteOp.Delete "" 30 (Scenario.chunk 256) st in
  write_ready 3 args st
  /\ exists r st',
       Write 3 args st = Done r st' /\ size_ st = 1%Z /\ size_ st' = 0%Z.
Proof.
  cbv zeta.
  assert (Hready : write_ready 3
            (Scenario.write_args WriteOp.Delete "" 30 (Scenario.chunk 256)
               (Scenario.with_a true)) (Scenario.with_a true)).
  { unfold write_ready. cbv zeta. split; [reflexivity|].
    split; [vm_compute; eauto|]. vm_compute HashTable.s.
    exists 128, (ConstructDLRecord 128 10 RecordType.HashElem
                   RecordStatus.Normal kNullPMemOffset 0 0
                   Scenario.ikey_a "1" kPersistTime).
    repeat split; try (vm_compute; reflexivity); vm_compute; congruence. }
  split; [exact Hready|].
  destruct (Write_updates_size 3 _ _ Hready) as (r & st' & Hw & _ & Hshrink & _).
  - vm_compute. split; [discriminate|reflexivity].
  - intros _. vm_compute. discriminate.
  - exists r, st'. split; [exact Hw|]. split; [reflexivity|].
    cbv zeta in Hshrink.
    assert (Hs : (size_ st' = size_ (Scenario.with_a true) - 1)%Z).
    { apply Hshrink. split; [reflexivity|].
      assert (Hr : existing_record r = Some 128)
        by (vm_compute in Hw; injection Hw as <- _; reflexivity).
      rewrite Hr. vm_compute. reflexivity. }
    rewrite Hs. reflexivity.
Defined.

(** ** Rejected and failed writes leave the engine alone *)

(** C6: a write descriptor bound to another collection makes PrepareWrite
    and Write return InvalidArgument; the engine (index, allocator, arena,
    list, size) is the same afterwards, and PrepareWrite hands the
    descriptor back as it got it: no lookup result, no space. *)
Theorem wrong_collection_is_rejected (fuel : nat) (args : HashWriteArgs)
    (ts : N) (st : Engine) :
  hlist args <> this st ->
  (kvdk_debug st = true -> delete_value_empty args = true) ->
  PrepareWrite args ts st = Done (Status.InvalidArgument, args) st
  /\ Write fuel args st
     = Done {| HashList.s := Status.InvalidArgument; existing_record := None;
               write_record := None; hash_entry_ptr := None |} st.
Proof.
  intros Hne Hpre. apply N.eqb_neq in Hne. split.
  - unfold PrepareWrite, bind.
    rewrite (kvdk_assert_holds _ _ Hpre). unfold get. rewrite Hne. reflexivity.
  - unfold Write, bind, get. rewrite Hne. reflexivity.
Qed.

Lemma wrong_collection_is_rejected_witness :
  let st := Scenario.with_a true in
  let args :=
    {| collection := "other"; key := "a"; value := "2"; op := WriteOp.Put;
       hlist := 8; space := Scenario.chunk 256; ts := 20;
       lookup_result := find true Scenario.ikey_a RecordType.HashElem st |} in
  PrepareWrite args 20 st = Done (Status.InvalidArgument, args) st
  /\ Write 3 args st
     = Done {| HashList.s := Status.InvalidArgument; existing_record := None;
               write_record := None; hash_entry_ptr := None |} st.
Proof.
  cbv zeta. apply wrong_collection_is_rejected.
  - vm_compute. discriminate.
  - intros _. reflexivity.
Defined.

(** C5: when the allocator's grant has size zero, PrepareWrite (and so
    Put and Delete), and Modify in its Write and Delete branches, return
    MemoryOverflow and the engine is the same afterwards: no record, no
    change to the list, the index or Size(). *)
Theorem zero_sized_grant_is_memory_overflow :
  (forall (args : HashWriteArgs) (ts : N) (st : Engine) (g : SpaceEntry)
          (st' : Engine),
      let internal_key := InternalKey (ID st) (key args) in
      let lr := find (negb (is_delete (op args))) internal_key
                     RecordType.HashElem st in
      hlist args = this st ->
      (kvdk_debug st = true -> delete_value_empty args = true) ->
      HashTable.s lr <> Status.MemoryOverflow ->
      allocate_space (is_delete (op args)) lr = true ->
      Allocator.Allocate (RecordSize internal_key (value args)) st
        = Done g st' ->
      space_size g = 0 ->
      PrepareWrite args ts st
      = Done (Status.MemoryOverflow,
              with_space g (with_lookup_result lr (with_ts ts args))) st)
  /\ (forall (fuel : nat) (k v : string) (ts : N) (st : Engine)
             (g : SpaceEntry) (st' : Engine),
      Allocator.Allocate (RecordSize (InternalKey (ID st) k) v) st
        = Done g st' ->
      space_size g = 0 ->
      Put fuel k v ts st
      = Done (with_s Status.MemoryOverflow WriteResult_default) st)
  /\ (forall (fuel : nat) (k : string) (ts : N) (st : Engine)
             (g : SpaceEntry) (st' : Engine),
      let lr := find false (InternalKey (ID st) k) RecordType.HashElem st in
      HashTable.s lr = Status.Ok ->
      entry_status (entry lr) = RecordStatus.Normal ->
      Allocator.Allocate (RecordSize (InternalKey (ID st) k) EmptyString) st
        = Done g st' ->
      space_size g = 0 ->
      Delete fuel k ts st
      = Done (with_s Status.MemoryOverflow WriteResult_default) st)
  /\ (forall (fuel : nat) (k : string) (f : ModifyFunc) (ts : N)
             (st : Engine) (g : SpaceEntry) (st' : Engine)
             (new_value : string),
      let internal_key := InternalKey (ID st) k in
      let lr := find true internal_key RecordType.HashElem st in
      HashTable.s lr <> Status.MemoryOverflow ->
      entry_readable st lr ->
      (f (Modify_existing_value st lr) = (ModifyOperation.Write, new_value)
       /\ Allocator.Allocate (RecordSize internal_key new_value) st
          = Done g st'
       \/ f (Modify_existing_value st lr)
          = (ModifyOperation.Delete, new_value)
       /\ Allocator.Allocate (RecordSize internal_key EmptyString) st
          = Done g st') ->
      space_size g = 0 ->
      Modify fuel k f ts st
      = Done (with_s Status.MemoryOverflow
                (with_existing_record (Modify_existing_record lr)
                                      WriteResult_default)) st).
Proof.
  split; [|split; [|split]].
  - intros args ts st g st' ikey lr Hh Hpre Hs Ha Hal Hz.
    unfold lr, ikey in *. clear lr ikey.
    rewrite (PrepareWrite_run _ _ _ Hpre Hh). cbv zeta.
    rewrite Ha, (first_fit_zero _ _ _ _ Hal Hz).
    destruct (Allocate_zero _ _ _ _ Hal Hz) as [-> _].
    destruct (HashTable.s (find _ _ _ _)); congruence.
  - intros fuel k v ts st g st' Hal Hz.
    unfold Put. unfold bind at 1. unfold InitWriteArgs, bind, get, ret.
    rewrite PrepareWrite_run by reflexivity. cbv zeta.
    cbn [op key value is_delete negb].
    rewrite allocate_space_put, (first_fit_zero _ _ _ _ Hal Hz).
    destruct (HashTable.s (find _ _ _ _)); reflexivity.
  - intros fuel k ts st g st' lr Hok Hnormal Hal Hz. unfold lr in *. clear lr.
    unfold Delete. unfold bind at 1. unfold InitWriteArgs, bind, get, ret.
    rewrite PrepareWrite_run by reflexivity. cbv zeta.
    cbn [op key value is_delete negb].
    rewrite Hok. unfold allocate_space. rewrite Hok, Hnormal.
    cbn [is_delete RecordStatus.eqb andb].
    rewrite (first_fit_zero _ _ _ _ Hal Hz). reflexivity.
  - intros fuel k f ts st g st' nv ikey lr Hs Hr Hf Hz.
    rewrite (Modify_run fuel k f ts st Hs Hr). cbv zeta. fold ikey lr.
    destruct Hf as [[-> Hal]|[-> Hal]];
      rewrite (first_fit_zero _ _ _ _ Hal Hz); reflexivity.
Qed.

Lemma zero_sized_grant_is_memory_overflow_witness :
  let st := Scenario.exhausted true in
  let args := Scenario.write_args WriteOp.Put "2" 0 SpaceEntry_default st in
  PrepareWrite args 20 st
  = Done (Status.MemoryOverflow,
          with_space SpaceEntry_default
            (with_lookup_result
               (find true Scenario.ikey_a RecordType.HashElem st)
               (with_ts 20 args))) st
  /\ Put 3 "b" "x" 20 st
     = Done (with_s Status.MemoryOverflow WriteResult_default) st
  /\ Delete 3 "a" 20 st
     = Done (with_s Status.MemoryOverflow WriteResult_default) st
  /\ Modify 3 "a" (fun _ => (ModifyOperation.Write, "2"%string)) 20 st
     = Done (with_s Status.MemoryOverflow
               (with_existing_record (Some 128) WriteResult_default)) st.
Proof.
  cbv zeta.
  destruct zero_sized_grant_is_memory_overflow as (Hprep & Hput & Hdel & Hmod).
  split; [|split; [|split]].
  - refine (Hprep (Scenario.write_args WriteOp.Put "2" 0 SpaceEntry_default
                     (Scenario.exhausted true))
                  20 (Scenario.exhausted true) SpaceEntry_default
                  (Scenario.exhausted true) _ _ _ _ _ _);
      try reflexivity; vm_compute; congruence.
  - refine (Hput 3%nat "b"%string "x"%string 20 (Scenario.exhausted true)
                 SpaceEntry_default (Scenario.exhausted true) _ _);
      reflexivity.
  - refine (Hdel 3%nat "a"%string 20 (Scenario.exhausted true) SpaceEntry_default
                 (Scenario.exhausted true) _ _ _ _); reflexivity.
  - refine (Hmod 3%nat "a"%string
                 (fun _ => (ModifyOperation.Write, "2"%string)) 20
                 (Scenario.exhausted true) SpaceEntry_default
                 (Scenario.exhausted true) "2"%string _ _ _ _).
    + vm_compute. congruence.
    + intros _. vm_compute. eauto.
    + left. split; reflexivity.
    + reflexivity.
Defined.

(** C10: when the transformer answers Noop, Modify returns Ok and the
    engine is the same afterwards: nothing is allocated or written; the
    result's write_record is null. *)
Theorem Modify_noop_writes_nothing (fuel : nat) (k : string) (f : ModifyFunc)
    (ts : N) (st : Engine) :
  let lr := find true (InternalKey (ID st) k) RecordType.HashElem st in
  HashTable.s lr <> Status.MemoryOverflow ->
  entry_readable st lr ->
  fst (f (Modify_existing_value st lr)) = ModifyOperation.Noop ->
  Modify fuel k f ts st
  = Done {| HashList.s := Status.Ok;
            existing_record := Modify_existing_record lr;
            write_record := None; hash_entry_ptr := None |} st.
Proof.
  intros lr Hs Hr Hf.
  rewrite (Modify_run fuel k f ts st Hs Hr). cbv zeta. fold lr.
  destruct (f (Modify_existing_value st lr)) as [o nv]. simpl in Hf.
  subst o. reflexivity.
Qed.

Lemma Modify_noop_writes_nothing_witness :
  let st := Scenario.with_a true in
  Modify 3 "a" (fun _ => (ModifyOperation.Noop, "ignored"%string)) 20 st
  = Done {| HashList.s := Status.Ok; existing_record := Some 128;
            write_record := None; hash_entry_ptr := None |} st.
Proof.
  cbv zeta.
  apply (Modify_noop_writes_nothing 3 "a"
           (fun _ => (ModifyOperation.Noop, "ignored"%string)) 20
           (Scenario.with_a true)).
  - vm_compute. congruence.
  - intros _. vm_compute. eauto.
  - reflexivity.
Defined.

(** ** Get *)



(** ** What a returning call has gone through *)

Lemma bind_Done {S A B} (m : M S A) (f : A -> M S B) (st st'' : S) (b : B) :
  bind m f st = Done b st'' ->
  exists a st', m st = Done a st' /\ f a st' = Done b st''.
Proof.
  unfold bind. destruct (m st) as [a st'| |]; try discriminate. eauto.
Qed.

Lemma kvdk_assert_Done c st u st' : kvdk_assert c st = Done u st' -> st' = st.
Proof.
  unfold kvdk_assert. destruct (_ && _); [discriminate|]. congruence.
Qed.

Lemma std_assert_Done c st u st' : std_assert c st = Done u st' -> st' = st.
Proof.
  unfold std_assert. destruct (_ && _); [discriminate|]. congruence.
Qed.

Lemma deref_Done p st r st' : deref p st = Done r st' -> st' = st.
Proof.
  unfold deref. destruct p as [off|]; [|discriminate].
  destruct (memory st !! off); [|discriminate]. congruence.
Qed.

Lemma timestamp_assert_Done p timestamp st u st' :
  kvdk_assert_reading
    (e <- deref p ;; ret (GetTimestamp e <? timestamp)) st = Done u st' ->
  st' = st.
Proof.
  unfold kvdk_assert_reading. intros H.
  apply bind_Done in H as (st0 & st1 & Hg & H). injection Hg as <- <-.
  destruct (kvdk_debug st); [|injection H as _ <-; reflexivity].
  apply bind_Done in H as (c & st2 & Hc & H).
  apply bind_Done in Hc as (e & st3 & He & Hc).
  apply deref_Done in He as ->. injection Hc as _ <-.
  apply kvdk_assert_Done in H. assumption.
Qed.

(** [Update] and its retries touch the arena and the race outcomes only. *)
Lemma Update_frame args p st r st' :
  DLList.Update args p st = Done r st' ->
  entries st' = entries st /\ ID st' = ID st.
Proof.
  unfold DLList.Update. intros H.
  apply bind_Done in H as (raced & st1 & Hr & H).
  assert (H1 : entries st1 = entries st /\ ID st1 = ID st).
  { unfold DLList.lost_race in Hr. destruct (races st);
      injection Hr as _ <-; auto. }
  destruct raced; [injection H as _ <-; exact H1|].
  apply bind_Done in H as (o & st2 & Ho & H). apply deref_Done in Ho as ->.
  apply bind_Done in H as (st3 & st4 & Hg & H). injection Hg as <- <-.
  destruct p as [off|]; [|discriminate].
  destruct (DLList.linked (memory st1) off).
  - apply bind_Done in H as (u & st5 & Hsp & H). injection H as _ <-.
    injection Hsp as _ <-. exact H1.
  - injection H as _ <-. exact H1.
Qed.

Lemma update_until_ok_frame fuel args p st r st' :
  update_until_ok fuel args p st = Done r st' ->
  entries st' = entries st /\ ID st' = ID st.
Proof.
  revert st. induction fuel as [|fuel IH]; intros st; [discriminate|].
  simpl. intros H. apply bind_Done in H as (s0 & st1 & Hu & H).
  apply Update_frame in Hu as [He Hi].
  destruct (Status.eqb s0 Status.Ok).
  - injection H as _ <-. auto.
  - apply bind_Done in H as (u & st2 & Ha & H).
    apply kvdk_assert_Done in Ha as ->.
    apply IH in H as [He' Hi']. split; congruence.
Qed.

Lemma update_until_ok_Done fuel args p st r st' :
  update_until_ok fuel args p st = Done r st' -> r = Status.Ok.
Proof.
  revert st. induction fuel as [|fuel IH]; intros st; [discriminate|].
  simpl. intros H. apply bind_Done in H as (s1 & st2 & Hu & H).
  destruct (Status.eqb s1 Status.Ok) eqn:E.
  - injection H as <- _. destruct s1; try discriminate. reflexivity.
  - apply bind_Done in H as (u & st3 & Ha & H). eapply IH; eauto.
Qed.

Lemma deletePrepared_Done fuel lr key timestamp space st r st' :
  deletePrepared fuel lr key timestamp space st = Done r st' ->
  exists slot,
    entry_ptr lr = Some slot
    /\ ID st' = ID st
    /\ entries st' !! slot
       = Some {| entry_type := RecordType.HashElem;
                 entry_status := RecordStatus.Outdated;
                 index_type := PointerType.DLRecord;
                 dl_record := Some (space_offset space) |}
    /\ HashList.s r = Status.Ok.
Proof.
  unfold deletePrepared. intros H.
  apply bind_Done in H as (st0 & st1 & Hg & H). injection Hg as <- <-.
  apply bind_Done in H as (u1 & st1 & Ha & H).
  apply kvdk_assert_Done in Ha as ->.
  apply bind_Done in H as (u2 & st1 & Ha & H).
  apply std_assert_Done in Ha as ->.
  apply bind_Done in H as (u3 & st1 & Ha & H).
  apply timestamp_assert_Done in Ha as ->.
  apply bind_Done in H as (s0 & st1 & Hu & H).
  assert (Hok : s0 = Status.Ok) by (eapply update_until_ok_Done; eauto).
  apply update_until_ok_frame in Hu as [He Hi].
  apply bind_Done in H as (u4 & st2 & Hins & H). injection H as <- <-.
  unfold Insert in Hins. destruct (entry_ptr lr) as [slot|]; [|discriminate].
  injection Hins as _ <-. exists slot. cbn [ID entries set_entries].
  rewrite lookup_insert_eq. subst s0. auto.
Qed.

(** ** Delete of a tombstone or of a missing key *)

(** The descriptor [Delete] starts from. *)
Lemma Delete_noop (fuel : nat) (k : string) (ts : N) (st : Engine) :
  let lr := find false (InternalKey (ID st) k) RecordType.HashElem st in
  HashTable.s lr = Status.NotFound
  \/ HashTable.s lr = Status.Ok
     /\ entry_status (entry lr) = RecordStatus.Outdated ->
  Delete fuel k ts st = Done WriteResult_default st.
Proof.
  intros lr H. unfold lr in *. clear lr.
  unfold Delete. unfold bind at 1. unfold InitWriteArgs, bind, get, ret.
  rewrite PrepareWrite_run by reflexivity. cbv zeta.
  cbn [op key value is_delete negb]. unfold allocate_space.
  destruct H as [->|[-> ->]]; reflexivity.
Qed.

(** C3: on a key whose index entry is a tombstone or absent, Delete is a
    no-op: PrepareWrite returns Ok with no space in the descriptor and the
    allocator untouched, Delete returns Ok with no record, and the engine
    (list, index, Size()) is the same afterwards; a Delete that returned
    Ok leaves the key in that state, so a second Delete is such a no-op. *)
Theorem Delete_of_tombstone_or_absent_is_noop :
  (forall (fuel : nat) (k : string) (ts : N) (st : Engine),
      let lr := find false (InternalKey (ID st) k) RecordType.HashElem st in
      let args :=
        {| collection := Name st; key := k; value := EmptyString;
           op := WriteOp.Delete; hlist := this st;
           space := SpaceEntry_default; ts := 0;
           lookup_result := LookupResult_default |} in
      HashTable.s lr = Status.NotFound
      \/ HashTable.s lr = Status.Ok
         /\ entry_status (entry lr) = RecordStatus.Outdated ->
      InitWriteArgs k EmptyString WriteOp.Delete st = Done args st
      /\ allocate_space true lr = false
      /\ PrepareWrite args ts st
         = Done (Status.Ok, with_lookup_result lr (with_ts ts args)) st
      /\ Delete fuel k ts st
         = Done {| HashList.s := Status.Ok; existing_record := None;
                   write_record := None; hash_entry_ptr := None |} st)
  /\ (forall (fuel fuel' : nat) (k : string) (t t' : N) (st : Engine)
             (r : WriteResult) (st' : Engine),
      Delete fuel k t st = Done r st' ->
      HashList.s r = Status.Ok ->
      Delete fuel' k t' st'
      = Done {| HashList.s := Status.Ok; existing_record := None;
                write_record := None; hash_entry_ptr := None |} st').
Proof.
  split.
  - intros fuel k ts st lr args H. split; [reflexivity|].
    split; [|split].
    + unfold allocate_space. destruct H as [->|[-> ->]]; reflexivity.
    + unfold args, lr in *. clear args lr.
      rewrite PrepareWrite_run by reflexivity. cbv zeta.
      cbn [op key value is_delete negb]. unfold allocate_space.
      destruct H as [->|[-> ->]]; reflexivity.
    + apply Delete_noop. exact H.
  - intros fuel fuel' k t t' st r st' Hd Hok.
    apply Delete_noop.
    revert Hd. unfold Delete. unfold bind at 1.
    unfold InitWriteArgs, bind, get, ret.
    rewrite PrepareWrite_run by reflexivity. cbv zeta.
    cbn [op key value is_delete negb].
    set (lr := find false (InternalKey (ID st) k) RecordType.HashElem st).
    destruct (find_false_status (InternalKey (ID st) k) RecordType.HashElem st)
      as [Hs|Hs]; fold lr in Hs; rewrite Hs; unfold allocate_space; rewrite Hs;
      cbn [is_delete andb].
    + destruct (entry_status (entry lr)) eqn:Est; cbn [RecordStatus.eqb].
      * (* the key was live: the write path *)
        destruct (Allocator.first_fit _ _) as [[g rest]|] eqn:F.
        -- pose proof (first_fit_grant _ _ _ _ F) as [Hg _].
           cbn [Status.eqb andb space with_space].
           rewrite (proj2 (N.ltb_lt _ _) Hg).
           unfold Write. unfold bind at 1. unfold get.
           cbn [hlist with_space with_lookup_result with_ts this set_free_list].
           rewrite N.eqb_refl. cbn [negb op with_space with_lookup_result with_ts].
           intros H. apply bind_Done in H as (r0 & st2 & Hdp & H).
           apply deletePrepared_Done in Hdp as (slot & Hslot & Hid & Hent & _).
           apply bind_Done in H as (b & st3 & Hn & H).
           assert (st3 = st2) as ->.
           { unfold nonnull_and_status in Hn.
             destruct (existing_record r0);
               [|injection Hn as _ <-; reflexivity].
             apply bind_Done in Hn as (x & st4 & Hx & Hn).
             apply deref_Done in Hx as ->. injection Hn as _ <-.
             reflexivity. }
           apply bind_Done in H as (u & st4 & Hu & H). injection H as _ <-.
           assert (Hst4 : entries st4 = entries st2 /\ ID st4 = ID st2).
           { destruct b; [|injection Hu as _ <-; auto].
             unfold UpdateSize in Hu.
             apply bind_Done in Hu as (x & st5 & Hg5 & Hu).
             injection Hg5 as <- <-.
             apply bind_Done in Hu as (y & st5 & Ha & Hu).
             apply kvdk_assert_Done in Ha as ->.
             injection Hu as _ <-. auto. }
           destruct Hst4 as [He4 Hi4].
           cbn [lookup_result with_space with_lookup_result with_ts] in Hslot.
           assert (slot = InternalKey (ID st) k) as ->.
           { unfold lr, find in Hslot, Hs.
             destruct (entries st !! InternalKey (ID st) k) as [e|];
               [destruct (RecordType.eqb (entry_type e) RecordType.HashElem)|];
               simpl in Hslot, Hs; congruence. }
           right. cbn [ID set_free_list] in Hid.
           unfold find. rewrite Hi4, Hid, He4, Hent. cbn [entry_type].
           auto.
        -- cbn [Status.eqb andb]. intros [= <- <-]. discriminate.
      * cbn [Status.eqb andb space with_lookup_result with_ts].
        cbn [space_size SpaceEntry_default]. intros [= <- <-].
        right. fold lr. auto.
    + cbn [Status.eqb andb space with_lookup_result with_ts].
      cbn [space_size SpaceEntry_default]. intros [= <- <-].
      left. exact Hs.
Qed.

Lemma Delete_of_tombstone_or_absent_is_noop_witness :
  Delete 3 "a" 40 (Scenario.tombstoned true)
  = Done {| HashList.s := Status.Ok; existing_record := None;
            write_record := None; hash_entry_ptr := None |}
         (Scenario.tombstoned true)
  /\ Delete 1 "a" 40 (Scenario.after (Delete 3 "a" 30) (Scenario.with_a true))
     = Done {| HashList.s := Status.Ok; existing_record := None;
               write_record := None; hash_entry_ptr := None |}
            (Scenario.after (Delete 3 "a" 30) (Scenario.with_a true)).
Proof.
  destruct Delete_of_tombstone_or_absent_is_noop as [Hnoop Hagain]. split.
  - apply (Hnoop 3%nat "a"%string 40 (Scenario.tombstoned true)).
    right. split; reflexivity.
  - apply (Hagain 3%nat 1%nat "a"%string 30 40 (Scenario.with_a true)
             {| HashList.s := Status.Ok; existing_record := Some 128;
                write_record := Some 256; hash_entry_ptr := None |}).
    + vm_compute. reflexivity.
    + reflexivity.
Defined.

(** ** SetExpireTime *)

Lemma relinked_payload p n new off r :
  let r' := relinked p n new off r in
  Key r' = Key r /\ Value r' = Value r /\ GetTimestamp r' = GetTimestamp r
  /\ GetExpireTime r' = GetExpireTime r /\ old_version r' = old_version r
  /\ GetRecordType r' = GetRecordType r
  /\ GetRecordStatus r' = GetRecordStatus r
  /\ GetRecordSize r' = GetRecordSize r.
Proof.
  unfold relinked.
  destruct (decide (p = off)), (decide (n = off)); cbv zeta; repeat split.
Qed.






(** ** Unknown record types *)

(** C9 as stated fails in a build without kvdk_assert: FetchID on a record
    that is neither HashElem nor HashHeader logs and returns 0.  And where
    the cleaner's purge meets a record of another type it stops the process
    with the log as it was: nothing is logged. *)
Lemma FetchID_returns_zero_without_assertions :
  (let st := set_memory
               {[ 0 := ConstructDLRecord 128 1 (RecordType.Other 1)
                         RecordStatus.Normal kNullPMemOffset 0 0 "k" "v"
                         kPersistTime ]}
               (Scenario.empty false) in
   FetchID (Some 0) st
   = Done 0 (set_log ["Wrong record type %u in HashListID"%string] st))
  /\ Cleaner.purgeOldDataRecord SweepScenario.mistyped_data
       SweepScenario.cleaner = Crashed SweepScenario.cleaner
  /\ Cleaner.log SweepScenario.cleaner = [].
Proof. vm_compute. repeat split; reflexivity. Qed.

(** C9 (as amended): on a record of any other type, purgeOldDataRecord
    and purgeOldDeleteRecord stop the process, with nothing logged; FetchID
    logs the wrong type and asserts: it stops the process where
    kvdk_assert is compiled in and returns 0 where it is not. *)
Theorem unknown_record_type_stops_or_returns_zero :
  (forall (st : Engine) (off : N) (r : DLRecord) (code : N),
      memory st !! off = Some r ->
      GetRecordType r = RecordType.Other code ->
      let logged :=
        set_log (log st ++ ["Wrong record type %u in HashListID"%string]) st in
      FetchID (Some off) st
      = if kvdk_debug st then Crashed logged else Done 0 logged)
  /\ (forall (st : Cleaner.State) (rec : Cleaner.OldDataRecord) (p : N)
             (e : Cleaner.DataEntry),
      Cleaner.pmem_data_record rec = Some p ->
      Cleaner.pmem st !! p = Some e ->
      Cleaner.type e <> Cleaner.RecordType.StringDataRecord ->
      Cleaner.type e <> Cleaner.RecordType.SortedDataRecord ->
      Cleaner.purgeOldDataRecord rec st = Crashed st)
  /\ (forall (fuel : nat) (st : Cleaner.State)
             (rec : Cleaner.OldDeleteRecord) (p : N) (e : Cleaner.DataEntry),
      Cleaner.pmem_delete_record rec = Some p ->
      Cleaner.pmem st !! p = Some e ->
      Cleaner.type e <> Cleaner.RecordType.StringDeleteRecord ->
      Cleaner.type e <> Cleaner.RecordType.SortedDeleteRecord ->
      Cleaner.purgeOldDeleteRecord fuel rec st = Crashed st).
Proof.
  split; [|split].
  - intros st off r code Hr Hty logged.
    unfold FetchID, bind, std_assert, deref. cbn [is_nonnull negb].
    rewrite andb_false_r, Hr, Hty.
    unfold GlobalLogger_Error, modify, kvdk_assert. fold logged.
    cbn [kvdk_debug set_log negb]. 
    replace (kvdk_debug logged) with (kvdk_debug st) by reflexivity.
    destruct (kvdk_debug st); reflexivity.
  - intros st rec p e Hp He H1 H2.
    unfold Cleaner.purgeOldDataRecord, bind, Cleaner.deref_data.
    rewrite Hp, He. destruct (Cleaner.type e) eqn:E; try congruence;
      reflexivity.
  - intros fuel st rec p e Hp He H1 H2.
    unfold Cleaner.purgeOldDeleteRecord, bind, Cleaner.deref_data.
    rewrite Hp, He. destruct (Cleaner.type e) eqn:E; try congruence;
      reflexivity.
Qed.

(** ** The cleaner's loops in closed form *)

Section CleanerLoops.
Import Cleaner Sweep.

Lemma purgeOldDataRecord_run (r : OldDataRecord) (st : State) :
  data_purgeable (pmem st) r ->
  purgeOldDataRecord r st
  = Done (space_at (pmem st) (pmem_data_record r))
         (set_pmem (poison (pmem st) r) st).
Proof.
  intros (off & e & Hp & He & Hty).
  unfold purgeOldDataRecord, poison, space_at. rewrite Hp.
  unfold bind at 1. unfold deref_data at 1. rewrite He.
  assert (Hrun :
    (Destroy (Some off) ;;;
     o <- addr2offset (Some off) ;;
     e' <- deref_data (Some off) ;;
     ret {| space_offset := o; space_size := record_size e' |}) st
    = Done {| space_offset := off; space_size := record_size e |}
           (set_pmem (<[off := {| record_size := record_size e;
                                  type := type e; poisoned := true |}]>
                        (pmem st)) st)).
  { unfold Destroy, bind, deref_data, addr2offset, modify, ret.
    rewrite He. cbn [pmem set_pmem]. rewrite lookup_insert_eq. reflexivity. }
  remember (Done {| space_offset := off; space_size := record_size e |}
                 (set_pmem (<[off := {| record_size := record_size e;
                                        type := type e; poisoned := true |}]>
                              (pmem st)) st)) as R eqn:HR in *.
  clear HR. destruct (type e) eqn:E; try exact Hrun;
    destruct Hty; congruence.
Qed.

Lemma poison_lookup (pm : gmap N DataEntry) (r : OldDataRecord) (off : N) :
  record_size <$> poison pm r !! off = record_size <$> pm !! off
  /\ type <$> poison pm r !! off = type <$> pm !! off.
Proof.
  unfold poison. destruct (pmem_data_record r) as [p|]; [|auto].
  destruct (pm !! p) as [e|] eqn:He; [|auto].
  destruct (decide (p = off)) as [->|Hne].
  - rewrite lookup_insert_eq, He. auto.
  - rewrite lookup_insert_ne by exact Hne. auto.
Qed.

Lemma space_at_poison pm r p : space_at (poison pm r) p = space_at pm p.
Proof.
  unfold space_at. destruct p as [off|]; [|reflexivity].
  destruct (poison_lookup pm r off) as [Hs _].
  destruct (poison pm r !! off), (pm !! off); simpl in Hs; try congruence.
Qed.

Lemma data_purgeable_poison pm r r' :
  data_purgeable pm r' -> data_purgeable (poison pm r) r'.
Proof.
  intros (off & e & Hp & He & Hty).
  destruct (poison_lookup pm r off) as [_ Ht]. rewrite He in Ht.
  destruct (poison pm r !! off) as [e'|] eqn:He'; [|discriminate].
  simpl in Ht. exists off, e'. repeat split; try assumption.
  injection Ht as Ht. rewrite Ht. exact Hty.
Qed.

Lemma scan_data_records_run (floor : N) (rs : list OldDataRecord)
    (space_to_free : list SpaceEntry) (refered : list OldDataRecord)
    (st : State) :
  Forall (data_purgeable (pmem st)) (List.filter (data_due floor) rs) ->
  scan_data_records floor rs space_to_free refered st
  = Done (space_to_free
            ++ map (fun r => space_at (pmem st) (pmem_data_record r))
                   (List.filter (data_due floor) rs),
          refered ++ List.filter (fun r => negb (data_due floor r)) rs)
         (set_pmem (foldl poison (pmem st) (List.filter (data_due floor) rs))
                   st).
Proof.
  revert space_to_free refered st.
  induction rs as [|r rs IH]; intros a1 a2 st Hall.
  - simpl. rewrite !app_nil_r. unfold ret. destruct st; reflexivity.
  - simpl in *. unfold data_due at 1. fold (data_due floor r).
    destruct (data_due floor r) eqn:Hdue.
    + apply Forall_cons in Hall as [Hr Hrest].
      unfold bind. rewrite (purgeOldDataRecord_run r st Hr).
      rewrite IH.
      * cbn [pmem set_pmem negb]. f_equal.
        rewrite <- app_assoc. simpl. f_equal. f_equal. f_equal.
        apply map_ext. intros x. apply space_at_poison.
      * cbn [pmem set_pmem].
        eapply Forall_impl; [exact Hrest|].
        intros x. apply data_purgeable_poison.
    + simpl. rewrite IH by exact Hall. rewrite <- app_assoc. reflexivity.
Qed.
Lemma space_at_poisoned pm rs p :
  space_at (foldl poison pm rs) p = space_at pm p.
Proof.
  revert pm. induction rs as [|r rs IH]; intros pm; [reflexivity|].
  simpl. rewrite IH. apply space_at_poison.
Qed.

Lemma data_purgeable_poisoned pm rs r :
  data_purgeable pm r -> data_purgeable (foldl poison pm rs) r.
Proof.
  revert pm. induction rs as [|x rs IH]; intros pm H; [exact H|].
  simpl. apply IH. apply data_purgeable_poison. exact H.
Qed.

Lemma scan_global_data_run (floor : N) (queues : list (list OldDataRecord))
    (space_to_free : list SpaceEntry) (refered : list OldDataRecord)
    (st : State) :
  Forall (data_purgeable (pmem st))
         (List.filter (data_due floor) (List.concat queues)) ->
  scan_global_data floor queues space_to_free refered st
  = Done (space_to_free
            ++ map (fun r => space_at (pmem st) (pmem_data_record r))
                   (List.filter (data_due floor) (List.concat queues)),
          refered ++ List.filter (fun r => negb (data_due floor r))
                                 (List.concat queues))
         (set_pmem (foldl poison (pmem st)
                      (List.filter (data_due floor) (List.concat queues)))
                   st).
Proof.
  revert space_to_free refered st.
  induction queues as [|q queues IH]; intros a1 a2 st Hall.
  - simpl. rewrite !app_nil_r. unfold ret. destruct st; reflexivity.
  - simpl in *. rewrite List.filter_app in Hall.
    apply Forall_app in Hall as [Hq Hrest].
    unfold bind. rewrite (scan_data_records_run floor q a1 a2 st Hq).
    cbn [fst snd]. rewrite IH.
    + cbn [pmem set_pmem]. rewrite !List.filter_app, map_app, foldl_app.
      rewrite <- !app_assoc. f_equal. f_equal. f_equal. f_equal.
      apply map_ext. intros x. apply space_at_poisoned.
    + cbn [pmem set_pmem]. eapply Forall_impl; [exact Hrest|].
      intros x. apply data_purgeable_poisoned.
Qed.

Lemma free_pending_run (floor : N) (iter : list PendingFreeSpaceEntries)
    (st : State) :
  free_pending floor iter st
  = Done (drop_while (batch_due floor) iter)
         (set_freed
            (freed st
               ++ List.concat (map entries (take_while (batch_due floor) iter)))
            st).
Proof.
  revert st. induction iter as [|b iter IH]; intros st.
  - simpl. rewrite app_nil_r. unfold ret. destruct st; reflexivity.
  - cbn [free_pending take_while drop_while]. unfold batch_due at 1 3.
    destruct (free_ts b <? floor) eqn:E.
    + unfold bind at 1. unfold BatchFree, modify. rewrite IH.
      cbn [freed set_freed map List.concat]. rewrite <- app_assoc.
      reflexivity.
    + cbn [map List.concat]. rewrite app_nil_r. unfold ret.
      destruct st; reflexivity.
Qed.

Lemma fetch_thread_caches_run (caches : list ThreadCache) (st : State) :
  fetch_thread_caches caches st
  = Done (map fetched_cache caches)
         (set_global_old_data_records
            (global_old_data_records_ st ++ fetched_data caches)
            (set_global_old_delete_records
               (global_old_delete_records_ st ++ fetched_delete caches) st)).
Proof.
  revert st. induction caches as [|tc caches IH]; intros st.
  - simpl. unfold fetched_data, fetched_delete. simpl. rewrite !app_nil_r.
    unfold ret. destruct st; reflexivity.
  - cbn [fetch_thread_caches map]. unfold bind at 1.
    assert (Hone : fetch_thread_cache tc st
      = Done (fetched_cache tc)
             (set_global_old_data_records
                (global_old_data_records_ st ++ fetched_data [tc])
                (set_global_old_delete_records
                   (global_old_delete_records_ st ++ fetched_delete [tc])
                   st))).
    { unfold fetch_thread_cache, fetched_data, fetched_delete, fetched_cache.
      destruct tc as [d e]. cbn [old_data_records old_delete_records map
                                 List.filter].
      destruct (10000000 <? N.of_nat (List.length e)) eqn:Ee;
        destruct d as [|x d]; cbn [List.length N.of_nat N.ltb N.compare orb];
        rewrite ?Ee; unfold bind, modify, ret;
        cbn [old_data_records old_delete_records global_old_data_records_
             global_old_delete_records_ set_global_old_data_records
             set_global_old_delete_records];
        rewrite ?app_nil_r; try reflexivity;
        destruct st; reflexivity. }
    rewrite Hone. unfold bind at 1. rewrite IH. unfold ret.
    cbn [global_old_data_records_ global_old_delete_records_
         set_global_old_data_records set_global_old_delete_records].
    unfold fetched_data, fetched_delete.
    cbn [map List.filter old_data_records old_delete_records].
    destruct (0 <? N.of_nat (List.length (old_data_records tc)));
      destruct (10000000 <? N.of_nat (List.length (old_delete_records tc)));
      rewrite <- ?app_assoc; rewrite ?app_nil_r; reflexivity.
Qed.

Lemma purge_touched_nothing (st : State) :
  purge_touched (hash_entries st) (purge_races st) (purged st) st = st.
Proof. destruct st; reflexivity. Qed.

Lemma purge_sorted_delete_run (fuel : nat) (r : OldDeleteRecord) (st : State)
    (off : N) (e : DataEntry) (a : N) (he : HashEntry) :
  pmem_delete_record r = Some off -> pmem st !! off = Some e ->
  hash_entry_ref r = Some a -> hash_entries st !! a = Some he ->
  match offset_type he with
  | HashOffsetType.DLRecord => True
  | HashOffsetType.SkiplistNode =>
      exists nd node,
        index he = Some nd /\ skiplist_nodes st !! nd = Some node
  | HashOffsetType.Other _ => False
  end ->
  (List.length (purge_races st) < fuel)%nat ->
  exists he' pr pu,
    purge_sorted_delete fuel r st
    = Done {| space_offset := off; space_size := record_size e |}
           (purge_touched he' pr pu st)
    /\ (List.length pr <= List.length (purge_races st))%nat
    /\ (forall a', a' <> a -> he' !! a' = hash_entries st !! a').
Proof.
  intros Hp He Ha Hhe Hty.
  revert st He Hhe Hty.
  induction fuel as [|fuel IH]; intros st He Hhe Hty Hfuel; [lia|].
  cbn [purge_sorted_delete]. rewrite Hp, Ha.
  unfold bind at 1. unfold deref_hash_entry at 1. rewrite Hhe.
  assert (Hfinish : forall st1, pmem st1 = pmem st ->
            (o <- addr2offset (Some off) ;;
             e0 <- deref_data (Some off) ;;
             ret {| space_offset := o; space_size := record_size e0 |}) st1
            = Done {| space_offset := off; space_size := record_size e |} st1).
  { intros st1 Hpm. unfold bind, addr2offset, ret, deref_data.
    rewrite Hpm, He. reflexivity. }
  assert (Hstep : forall (target dram_node : ptr),
    (if ptr_eqb target (Some off)
     then done <- Skiplist_Purge (Some off) dram_node ;;
          (if done : bool
           then Clear (Some a) ;;;
                o <- addr2offset (Some off) ;;
                e0 <- deref_data (Some off) ;;
                ret {| space_offset := o; space_size := record_size e0 |}
           else purge_sorted_delete fuel r)
     else o <- addr2offset (Some off) ;;
          e0 <- deref_data (Some off) ;;
          ret {| space_offset := o; space_size := record_size e0 |}) st
    = Done {| space_offset := off; space_size := record_size e |}
           (purge_touched (hash_entries st) (purge_races st) (purged st) st)
    \/ exists he' pr pu,
        (if ptr_eqb target (Some off)
         then done <- Skiplist_Purge (Some off) dram_node ;;
              (if done : bool
               then Clear (Some a) ;;;
                    o <- addr2offset (Some off) ;;
                    e0 <- deref_data (Some off) ;;
                    ret {| space_offset := o; space_size := record_size e0 |}
               else purge_sorted_delete fuel r)
         else o <- addr2offset (Some off) ;;
              e0 <- deref_data (Some off) ;;
              ret {| space_offset := o; space_size := record_size e0 |}) st
        = Done {| space_offset := off; space_size := record_size e |}
               (purge_touched he' pr pu st)
        /\ (List.length pr <= List.length (purge_races st))%nat
        /\ (forall a', a' <> a -> he' !! a' = hash_entries st !! a')).
  { intros target dram_node.
    destruct (ptr_eqb target (Some off)).
    - right. unfold bind at 1. unfold Skiplist_Purge.
      unfold bind at 1. unfold get.
      destruct (purge_races st) as [|[] rest] eqn:Hr.
      + (* no contention left: spliced out *)
        exists (<[a := HashEntry_empty]> (hash_entries st)), [],
               (purged st ++ [off]).
        split; [|split; [simpl; lia|]].
        * unfold Clear, deref_hash_entry, addr2offset, modify, ret, bind.
          cbn [hash_entries set_purged set_purge_races tail]. rewrite Hhe.
          unfold deref_data.
          cbn [pmem set_hash_entries set_purged set_purge_races].
          rewrite He. reflexivity.
        * intros a' Hne. rewrite lookup_insert_ne by congruence. reflexivity.
      + (* contended: go round again *)
        unfold bind at 1. unfold modify at 1. unfold bind at 1.
        unfold ret at 1.
        destruct (IH (set_purge_races rest st)) as (he' & pr & pu & Hrun & Hlen & Hagree);
          try assumption.
        { simpl in Hfuel. cbn [purge_races set_purge_races]. lia. }
        exists he', pr, pu. split; [exact Hrun|].
        split; [cbn [purge_races set_purge_races] in Hlen; simpl; lia|].
        exact Hagree.
      + exists (<[a := HashEntry_empty]> (hash_entries st)), rest,
               (purged st ++ [off]).
        split; [|split; [simpl; lia|]].
        * unfold Clear, deref_hash_entry, addr2offset, modify, ret, bind.
          cbn [hash_entries set_purged set_purge_races tail]. rewrite Hhe.
          unfold deref_data.
          cbn [pmem set_hash_entries set_purged set_purge_races].
          rewrite He. reflexivity.
        * intros a' Hne. rewrite lookup_insert_ne by congruence. reflexivity.
    - left. rewrite purge_touched_nothing. apply Hfinish. reflexivity. }
  assert (Hout : forall (target dram_node : ptr),
    exists he' pr pu,
        (if ptr_eqb target (Some off)
         then done <- Skiplist_Purge (Some off) dram_node ;;
              (if done : bool
               then Clear (Some a) ;;;
                    o <- addr2offset (Some off) ;;
                    e0 <- deref_data (Some off) ;;
                    ret {| space_offset := o; space_size := record_size e0 |}
               else purge_sorted_delete fuel r)
         else o <- addr2offset (Some off) ;;
              e0 <- deref_data (Some off) ;;
              ret {| space_offset := o; space_size := record_size e0 |}) st
        = Done {| space_offset := off; space_size := record_size e |}
               (purge_touched he' pr pu st)
        /\ (List.length pr <= List.length (purge_races st))%nat
        /\ (forall a', a' <> a -> he' !! a' = hash_entries st !! a')).
  { intros target dram_node.
    destruct (Hstep target dram_node) as [H|H]; [|exact H].
    exists (hash_entries st), (purge_races st), (purged st). auto. }
  destruct (offset_type he) eqn:Hot.
  - unfold bind at 1. unfold ret at 1. apply Hout.
  - destruct Hty as (nd & node & Hidx & Hnode).
    unfold bind at 1. unfold bind at 1. unfold deref_node.
    rewrite Hidx, Hnode. unfold ret at 1. apply Hout.
  - contradiction.
Qed.

Lemma purgeOldDeleteRecord_run (fuel : nat) (r : OldDeleteRecord)
    (st : State) :
  delete_purgeable st r ->
  (List.length (purge_races st) < fuel)%nat ->
  exists he' pr pu,
    purgeOldDeleteRecord fuel r st
    = Done (space_at (pmem st) (pmem_delete_record r))
           (purge_touched he' pr pu st)
    /\ (List.length pr <= List.length (purge_races st))%nat
    /\ (forall a', hash_entry_ref r <> Some a' ->
                   he' !! a' = hash_entries st !! a').
Proof.
  intros (off & e & a & he & Hp & He & Ha & Hhe & Hty) Hfuel.
  unfold purgeOldDeleteRecord, space_at. rewrite Hp, He.
  unfold bind at 1. unfold deref_data at 1. rewrite He.
  destruct (type e) eqn:Et; try contradiction.
  - (* StringDeleteRecord *)
    rewrite Ha.
    destruct (ptr_eqb (index he) (Some off)) eqn:Eq.
    + exists (<[a := HashEntry_empty]> (hash_entries st)), (purge_races st),
             (purged st).
      split; [|split; [lia|]].
      * unfold Clear, deref_hash_entry, addr2offset, deref_data, modify, ret,
          bind. rewrite Hhe, Eq, Hhe, Eq, Hhe.
        cbn [pmem set_hash_entries]. rewrite He.
        destruct st; reflexivity.
      * intros a' Hne. rewrite lookup_insert_ne by congruence. reflexivity.
    + exists (hash_entries st), (purge_races st), (purged st).
      split; [|split; [lia|auto]].
      unfold deref_hash_entry, addr2offset, deref_data, ret, bind.
      rewrite Hhe, Eq, He. rewrite purge_touched_nothing. reflexivity.
  - (* SortedDeleteRecord *)
    destruct (purge_sorted_delete_run fuel r st off e a he Hp He Ha Hhe Hty
                Hfuel) as (he' & pr & pu & Hrun & Hlen & Hagree).
    exists he', pr, pu. split; [exact Hrun|]. split; [exact Hlen|].
    intros a' Hne. apply Hagree. congruence.
Qed.

Lemma delete_purgeable_touched he' pr pu st r :
  delete_purgeable st r ->
  (forall a, hash_entry_ref r = Some a -> he' !! a = hash_entries st !! a) ->
  delete_purgeable (purge_touched he' pr pu st) r.
Proof.
  intros (off & e & a & he & Hp & He & Ha & Hhe & Hty) Hsame.
  exists off, e, a, he. repeat split; try assumption.
  cbn [purge_touched hash_entries set_hash_entries].
  rewrite (Hsame a Ha). exact Hhe.
Qed.

Lemma scan_delete_records_run (fuel : nat) (floor : N)
    (rs : list OldDeleteRecord) (space_pending : list SpaceEntry)
    (refered : list OldDeleteRecord) (st : State) :
  Forall (delete_purgeable st) (List.filter (delete_due floor) rs) ->
  NoDup (map hash_entry_ref (List.filter (delete_due floor) rs)) ->
  (List.length (purge_races st) < fuel)%nat ->
  exists he' pr pu,
    scan_delete_records fuel floor rs space_pending refered st
    = Done (space_pending
              ++ map (fun r => space_at (pmem st) (pmem_delete_record r))
                     (List.filter (delete_due floor) rs),
            refered ++ List.filter (fun r => negb (delete_due floor r)) rs)
           (purge_touched he' pr pu st)
    /\ (List.length pr <= List.length (purge_races st))%nat
    /\ (forall a',
          Some a' ∉ map hash_entry_ref (List.filter (delete_due floor) rs) ->
          he' !! a' = hash_entries st !! a').
Proof.
  revert space_pending refered st.
  induction rs as [|r rs IH]; intros a1 a2 st Hall Hnd Hfuel.
  - exists (hash_entries st), (purge_races st), (purged st).
    simpl. rewrite !app_nil_r, purge_touched_nothing. auto.
  - cbn [scan_delete_records List.filter] in *.
    unfold delete_due at 1. fold (delete_due floor r).
    destruct (delete_due floor r) eqn:Hdue.
    + cbn [map] in Hnd. apply NoDup_cons in Hnd as [Hnotin Hnd].
      apply Forall_cons in Hall as [Hr Hrest].
      destruct (purgeOldDeleteRecord_run fuel r st Hr Hfuel)
        as (he1 & pr1 & pu1 & Hrun & Hlen1 & Hagree1).
      unfold bind. rewrite Hrun.
      destruct (IH (a1 ++ [space_at (pmem st) (pmem_delete_record r)]) a2
                  (purge_touched he1 pr1 pu1 st))
        as (he2 & pr2 & pu2 & Hrun2 & Hlen2 & Hagree2).
      * apply Forall_forall. intros x Hx.
        apply delete_purgeable_touched.
        -- rewrite Forall_forall in Hrest. apply Hrest. exact Hx.
        -- intros a Ha. apply Hagree1. intros Hra. apply Hnotin.
           rewrite Hra, <- Ha. apply list_elem_of_In, in_map.
           apply list_elem_of_In. exact Hx.
      * exact Hnd.
      * cbn [purge_touched purge_races set_hash_entries set_purge_races]. lia.
      * exists he2, pr2, pu2. split; [|split].
        -- rewrite Hrun2. cbn [negb map]. rewrite <- app_assoc. reflexivity.
        -- cbn [purge_touched purge_races set_hash_entries set_purge_races]
             in Hlen2. lia.
        -- intros a' Hnot. cbn [map] in Hnot.
           apply not_elem_of_cons in Hnot as [Hne Hnot].
           rewrite (Hagree2 a' Hnot).
           cbn [purge_touched hash_entries set_hash_entries].
           apply Hagree1. congruence.
    + cbn [negb]. destruct (IH a1 (a2 ++ [r]) st Hall Hnd Hfuel)
        as (he2 & pr2 & pu2 & Hrun2 & Hlen2 & Hagree2).
      exists he2, pr2, pu2. split; [|auto].
      rewrite Hrun2. rewrite <- app_assoc. reflexivity.
Qed.

Lemma scan_global_delete_run (fuel : nat) (floor : N)
    (queues : list (list OldDeleteRecord)) (space_pending : list SpaceEntry)
    (refered : list OldDeleteRecord) (st : State) :
  Forall (delete_purgeable st)
         (List.filter (delete_due floor) (List.concat queues)) ->
  NoDup (map hash_entry_ref
           (List.filter (delete_due floor) (List.concat queues))) ->
  (List.length (purge_races st) < fuel)%nat ->
  exists he' pr pu,
    scan_global_delete fuel floor queues space_pending refered st
    = Done (space_pending
              ++ map (fun r => space_at (pmem st) (pmem_delete_record r))
                     (List.filter (delete_due floor) (List.concat queues)),
            refered ++ List.filter (fun r => negb (delete_due floor r))
                                   (List.concat queues))
           (purge_touched he' pr pu st)
    /\ (List.length pr <= List.length (purge_races st))%nat.
Proof.
  revert space_pending refered st.
  induction queues as [|q queues IH]; intros a1 a2 st Hall Hnd Hfuel.
  - exists (hash_entries st), (purge_races st), (purged st).
    simpl. rewrite !app_nil_r, purge_touched_nothing. auto.
  - cbn [scan_global_delete List.concat] in *.
    rewrite List.filter_app in Hall, Hnd. rewrite map_app in Hnd.
    apply Forall_app in Hall as [Hq Hrest].
    apply NoDup_app in Hnd as (Hndq & Hdisj & Hndrest).
    destruct (scan_delete_records_run fuel floor q a1 a2 st Hq Hndq Hfuel)
      as (he1 & pr1 & pu1 & Hrun & Hlen1 & Hagree1).
    unfold bind. rewrite Hrun. cbn [fst snd].
    destruct (IH (a1 ++ map (fun r => space_at (pmem st) (pmem_delete_record r))
                         (List.filter (delete_due floor) q))
                 (a2 ++ List.filter (fun r => negb (delete_due floor r)) q)
                 (purge_touched he1 pr1 pu1 st))
      as (he2 & pr2 & pu2 & Hrun2 & Hlen2).
    + apply Forall_forall. intros x Hx.
      apply delete_purgeable_touched.
      * rewrite Forall_forall in Hrest. apply Hrest. exact Hx.
      * intros a Ha. apply Hagree1. intros Hin.
        apply (Hdisj (Some a)); [exact Hin|].
        rewrite <- Ha. apply list_elem_of_In, in_map.
        apply list_elem_of_In. exact Hx.
    + exact Hndrest.
    + cbn [purge_touched purge_races set_hash_entries set_purge_races]. lia.
    + exists he2, pr2, pu2. split.
      * rewrite Hrun2. rewrite !List.filter_app, map_app, <- !app_assoc.
        reflexivity.
      * cbn [purge_touched purge_races set_hash_entries set_purge_races]
          in Hlen2. lia.
Qed.

Lemma poisoned_type pm rs off :
  type <$> foldl poison pm rs !! off = type <$> pm !! off.
Proof.
  revert pm. induction rs as [|r rs IH]; intros pm; [reflexivity|].
  simpl. rewrite IH. apply poison_lookup.
Qed.

Lemma delete_purgeable_ext (st st' : State) (r : OldDeleteRecord) :
  (forall off, type <$> pmem st' !! off = type <$> pmem st !! off) ->
  hash_entries st' = hash_entries st ->
  skiplist_nodes st' = skiplist_nodes st ->
  delete_purgeable st r -> delete_purgeable st' r.
Proof.
  intros Hty Hhe Hsn (off & e & a & he & Hp & He & Ha & Hhe' & Hcase).
  specialize (Hty off). rewrite He in Hty.
  destruct (pmem st' !! off) as [e'|] eqn:He'; [|discriminate].
  injection Hty as Hty.
  exists off, e', a, he. rewrite Hhe, Hsn, Hty. auto.
Qed.
End CleanerLoops.



Lemma unknown_record_type_stops_or_returns_zero_witness :
  (let st := set_memory
               {[ 0 := ConstructDLRecord 128 1 (RecordType.Other 1)
                         RecordStatus.Normal kNullPMemOffset 0 0 "k" "v"
                         kPersistTime ]}
               (Scenario.empty true) in
   FetchID (Some 0) st
   = Crashed (set_log ["Wrong record type %u in HashListID"%string] st))
  /\ Cleaner.purgeOldDataRecord SweepScenario.mistyped_data
       SweepScenario.cleaner = Crashed SweepScenario.cleaner
  /\ Cleaner.purgeOldDeleteRecord 2 SweepScenario.mistyped_delete
       SweepScenario.cleaner = Crashed SweepScenario.cleaner.
Proof.
  destruct unknown_record_type_stops_or_returns_zero
    as (Hfetch & Hdata & Hdelete).
  split; [|split].
  - cbv zeta.
    refine (Hfetch _ 0 (ConstructDLRecord 128 1 (RecordType.Other 1)
                          RecordStatus.Normal kNullPMemOffset 0 0 "k" "v"
                          kPersistTime) 1 _ _); reflexivity.
  - refine (Hdata _ _ 192
              {| Cleaner.record_size := 64;
                 Cleaner.type := Cleaner.RecordType.StringDeleteRecord;
                 Cleaner.poisoned := false |} _ _ _ _);
      try reflexivity; discriminate.
  - refine (Hdelete 2%nat _ _ 0
              {| Cleaner.record_size := 64;
                 Cleaner.type := Cleaner.RecordType.StringDataRecord;
                 Cleaner.poisoned := false |} _ _ _ _);
      try reflexivity; discriminate.
Defined.

(** * Round trips, invariants and the index check of the collection *)

Lemma set_races_same st : set_races (races st) st = st.
Proof. destruct st; reflexivity. Qed.
Lemma set_random_drawn_same st : set_random_drawn (random_drawn st) st = st.
Proof. destruct st; reflexivity. Qed.
Lemma set_size_same st : set_size (size_ st) st = st.
Proof. destruct st; reflexivity. Qed.

Lemma Update_Done args p st r st' :
  DLList.Update args p st = Done r st' ->
  exists rcs,
    (r = Status.Fail /\ st' = set_races rcs st)
    \/ (exists off old, p = Some off /\ memory st !! off = Some old
          /\ DLList.linked (memory st) off = true
          /\ r = Status.Ok
          /\ st' = DLList.spliced args off (prev old) (next old)
                     (set_races rcs st)).
Proof.
  unfold DLList.Update. intros H.
  apply bind_Done in H as (raced & st1 & Hr & H).
  assert (H1 : exists rcs, st1 = set_races rcs st).
  { unfold DLList.lost_race in Hr. destruct (races st) eqn:E.
    - injection Hr as _ <-. exists []. rewrite <- E. symmetry.
      apply set_races_same.
    - injection Hr as _ <-. eauto. }
  destruct H1 as (rcs & ->). exists rcs.
  destruct raced; [injection H as <- <-; left; auto|].
  apply bind_Done in H as (o & st2 & Ho & H).
  pose proof (deref_Done _ _ _ _ Ho) as ->.
  apply bind_Done in H as (st3 & st4 & Hg & H). injection Hg as <- <-.
  destruct p as [off|]; [|discriminate].
  unfold deref in Ho. cbn [memory set_races] in Ho.
  destruct (memory st !! off) as [old|] eqn:Hold; [|discriminate].
  injection Ho as <-.
  cbn [memory set_races] in H.
  destruct (DLList.linked (memory st) off) eqn:Hl.
  - apply bind_Done in H as (u & st5 & Hsp & H). injection H as <- <-.
    injection Hsp as <-. right. exists off, old. auto.
  - injection H as <- <-. left. auto.
Qed.

Lemma update_until_ok_Done_spliced fuel args p st r st' :
  update_until_ok fuel args p st = Done r st' ->
  exists off old rcs,
    p = Some off /\ memory st !! off = Some old
    /\ DLList.linked (memory st) off = true
    /\ st' = DLList.spliced args off (prev old) (next old) (set_races rcs st).
Proof.
  revert st. induction fuel as [|fuel IH]; intros st; [discriminate|].
  simpl. intros H. apply bind_Done in H as (s0 & st1 & Hu & H).
  apply Update_Done in Hu
    as (rcs & [[-> ->]|(off & old & -> & Hold & Hl & -> & ->)]).
  - cbn [Status.eqb] in H.
    apply bind_Done in H as (u & st2 & Ha & H).
    apply kvdk_assert_Done in Ha as ->.
    apply IH in H as (off & old & rcs' & -> & Hold & Hl & ->).
    exists off, old, rcs'. repeat split; solve [assumption | reflexivity].
  - cbn [Status.eqb] in H. injection H as _ <-. exists off, old, rcs.
    repeat split; solve [assumption | reflexivity].
Qed.

Lemma kvdk_assert_reading_Done c st u st' :
  (forall st0 b st1, c st0 = Done b st1 -> st1 = st0) ->
  kvdk_assert_reading c st = Done u st' -> st' = st.
Proof.
  intros Hc. unfold kvdk_assert_reading. intros H.
  apply bind_Done in H as (st0 & st1 & Hg & H). injection Hg as <- <-.
  destruct (kvdk_debug st); [|injection H as _ <-; reflexivity].
  apply bind_Done in H as (b & st2 & Hb & H).
  apply Hc in Hb as ->. apply kvdk_assert_Done in H. assumption.
Qed.

Lemma putPrepared_Done fuel lr key value timestamp space st r st' :
  putPrepared fuel lr key value timestamp space st = Done r st' ->
  exists slot older p n rcs d,
    entry_ptr lr = Some slot
    /\ splice_point st (Status.eqb (HashTable.s lr) Status.Ok)
                    (dl_record (entry lr)) older p n
    /\ st' = written slot RecordStatus.Normal
               (put_args st key value timestamp space) older p n rcs d
               (size_ st) st
    /\ r = {| HashList.s := Status.Ok;
              existing_record :=
                if Status.eqb (HashTable.s lr) Status.Ok
                then dl_record (entry lr) else None;
              write_record := Some (space_offset space);
              hash_entry_ptr := Some slot |}.
Proof.
  unfold putPrepared. intros H.
  apply bind_Done in H as (st0 & st1 & Hg & H). injection Hg as <- <-.
  fold (put_args st key value timestamp space) in H.
  apply bind_Done in H as (r3 & st1 & Hb & H).
  apply bind_Done in H as (u & st2 & Hins & H). injection H as <- <-.
  unfold Insert in Hins. destruct (entry_ptr lr) as [slot|]; [|discriminate].
  injection Hins as _ <-. exists slot.
  destruct (Status.eqb (HashTable.s lr) Status.Ok) eqn:E.
  - apply bind_Done in Hb as (u1 & st3 & Ha & Hb).
    apply timestamp_assert_Done in Ha as ->.
    apply bind_Done in Hb as (s0 & st3 & Hu & Hb). injection Hb as <- <-.
    pose proof (update_until_ok_Done _ _ _ _ _ _ Hu) as ->.
    apply update_until_ok_Done_spliced in Hu
      as (off & old & rcs & Hp & Hold & Hl & ->).
    exists off, (prev old), (next old), rcs, (random_drawn st).
    split; [reflexivity|].
    split; [exists old; repeat split; assumption|].
    split; [|reflexivity].
    unfold written, inserted. cbn. destruct st; reflexivity.
  - apply bind_Done in Hb as (u1 & st3 & Ha & Hb).
    apply kvdk_assert_Done in Ha as ->.
    apply bind_Done in Hb as (rnd & st3 & Hr & Hb).
    unfold fast_random_64 in Hr. injection Hr as <- <-.
    apply bind_Done in Hb as (s0 & st3 & Hpush & Hb).
    apply bind_Done in Hb as (u2 & st4 & Ha & Hb).
    apply kvdk_assert_Done in Ha as ->. injection Hb as <- <-.
    assert (Hshape : exists p n,
      splice_point st false (dl_record (entry lr)) kNullPMemOffset p n
      /\ st3 = DLList.spliced (put_args st key value timestamp space)
                 kNullPMemOffset p n
                 (set_random_drawn (S (random_drawn st)) st)).
    { destruct (_ =? 0);
        unfold DLList.PushBack, DLList.PushFront in Hpush;
        apply bind_Done in Hpush as (st5 & st6 & Hg & Hpush);
        injection Hg as <- <-;
        apply bind_Done in Hpush as (h & st6 & Hd & Hpush);
        pose proof (deref_Done _ _ _ _ Hd) as ->;
        unfold deref in Hd; cbn [memory header set_random_drawn] in Hd;
        (destruct (memory st !! header st) as [h0|] eqn:Hh; [|discriminate]);
        injection Hd as <-;
        apply bind_Done in Hpush as (u3 & st6 & Hsp & Hpush);
        injection Hpush as _ <-; injection Hsp as _ <-;
        eexists _, _; (split; [|reflexivity]);
        exists h0; (split; [exact Hh|]); (split; [reflexivity|]);
        [left|right]; split; reflexivity. }
    destruct Hshape as (p & n & Hsp & ->).
    exists kNullPMemOffset, p, n, (races st), (S (random_drawn st)).
    split; [reflexivity|]. split; [exact Hsp|]. split; [|reflexivity].
    unfold written, inserted. cbn. destruct st; reflexivity.
Qed.

Lemma deletePrepared_Done_written fuel lr key timestamp space st r st' :
  deletePrepared fuel lr key timestamp space st = Done r st' ->
  exists slot older p n rcs d,
    entry_ptr lr = Some slot
    /\ splice_point st true (dl_record (entry lr)) older p n
    /\ st' = written slot RecordStatus.Outdated
               (delete_args st key timestamp space) older p n rcs d
               (size_ st) st
    /\ r = {| HashList.s := Status.Ok;
              existing_record := dl_record (entry lr);
              write_record := Some (space_offset space);
              hash_entry_ptr := None |}.
Proof.
  unfold deletePrepared. intros H.
  apply bind_Done in H as (st0 & st1 & Hg & H). injection Hg as <- <-.
  apply bind_Done in H as (u1 & st1 & Ha & H).
  apply kvdk_assert_Done in Ha as ->.
  apply bind_Done in H as (u2 & st1 & Ha & H).
  apply std_assert_Done in Ha as ->.
  apply bind_Done in H as (u3 & st1 & Ha & H).
  apply timestamp_assert_Done in Ha as ->.
  fold (delete_args st key timestamp space) in H.
  apply bind_Done in H as (s0 & st1 & Hu & H).
  pose proof (update_until_ok_Done _ _ _ _ _ _ Hu) as ->.
  apply update_until_ok_Done_spliced in Hu
    as (off & old & rcs & Hp & Hold & Hl & ->).
  apply bind_Done in H as (u4 & st2 & Hins & H). injection H as <- <-.
  unfold Insert in Hins. destruct (entry_ptr lr) as [slot|]; [|discriminate].
  injection Hins as _ <-.
  exists slot, off, (prev old), (next old), rcs, (random_drawn st).
  split; [reflexivity|].
  split; [exists old; repeat split; assumption|].
  split; [|reflexivity].
  unfold written, inserted. cbn. destruct st; reflexivity.
Qed.

Lemma UpdateSize_Done delta st u st' :
  UpdateSize delta st = Done u st' -> st' = resized delta st.
Proof.
  unfold UpdateSize. intros H.
  apply bind_Done in H as (st0 & st1 & Hg & H). injection Hg as <- <-.
  apply bind_Done in H as (u1 & st1 & Ha & H).
  apply kvdk_assert_Done in Ha as ->. injection H as _ <-. reflexivity.
Qed.

Lemma size_test_Done o p st b st' :
  size_test o p st = Done b st' -> st' = st.
Proof.
  unfold size_test, null_or_status, nonnull_and_status.
  destruct o; (destruct p; [|intros [= _ <-]; reflexivity]);
    intros H; apply bind_Done in H as (r & st1 & Hd & H);
    apply deref_Done in Hd as ->; injection H as _ <-; reflexivity.
Qed.

Lemma Write_Done fuel args st r st' :
  hlist args = this st ->
  Write fuel args st = Done r st' ->
  exists slot older p n rcs d (b : bool),
    entry_ptr (lookup_result args) = Some slot
    /\ splice_point st (updates args)
                    (dl_record (entry (lookup_result args))) older p n
    /\ (let W := written slot (status_of (op args)) (write_args_of st args)
                   older p n rcs d (size_ st) st in
        size_test (op args) (existing_record r) W = Done b W
        /\ st' = if b then resized (delta_of (op args)) W else W)
    /\ HashList.s r = Status.Ok
    /\ write_record r = Some (space_offset (space args))
    /\ existing_record r = existing_of args.
Proof.
  unfold Write. intros Hh H.
  apply bind_Done in H as (st0 & st1 & Hg & H). injection Hg as <- <-.
  rewrite Hh, N.eqb_refl in H. cbn [negb] in H.
  unfold write_args_of, existing_of, updates.
  destruct (op args).
  - apply bind_Done in H as (r0 & st1 & Hp & H).
    apply putPrepared_Done in Hp
      as (slot & older & p & n & rcs & d & Hslot & Hsp & -> & ->).
    apply bind_Done in H as (grow & st2 & Hn & H).
    pose proof (size_test_Done WriteOp.Put _ _ _ _ Hn) as ->.
    apply bind_Done in H as (u & st2 & Hu & H). injection H as <- <-.
    exists slot, older, p, n, rcs, d, grow.
    split; [assumption|]. split; [exact Hsp|]. split; [|repeat split].
    cbv zeta. split; [exact Hn|].
    destruct grow.
    + apply UpdateSize_Done in Hu as ->. reflexivity.
    + injection Hu as _ <-. reflexivity.
  - apply bind_Done in H as (r0 & st1 & Hp & H).
    apply deletePrepared_Done_written in Hp
      as (slot & older & p & n & rcs & d & Hslot & Hsp & -> & ->).
    apply bind_Done in H as (shrink & st2 & Hn & H).
    pose proof (size_test_Done WriteOp.Delete _ _ _ _ Hn) as ->.
    apply bind_Done in H as (u & st2 & Hu & H). injection H as <- <-.
    exists slot, older, p, n, rcs, d, shrink.
    split; [assumption|]. split; [exact Hsp|]. split; [|repeat split].
    cbv zeta. split; [exact Hn|].
    destruct shrink.
    + apply UpdateSize_Done in Hu as ->. reflexivity.
    + injection Hu as _ <-. reflexivity.
Qed.

Lemma Write_Done_written fuel args st r st' :
  hlist args = this st ->
  Write fuel args st = Done r st' ->
  exists slot older p n rcs d z,
    entry_ptr (lookup_result args) = Some slot
    /\ st' = written slot (status_of (op args)) (write_args_of st args)
               older p n rcs d z st
    /\ HashList.s r = Status.Ok
    /\ write_record r = Some (space_offset (space args)).
Proof.
  intros Hh H.
  apply Write_Done in H
    as (slot & older & p & n & rcs & d & b & Hslot & _ & [_ ->] & Hs & Hw
        & _);
    [|exact Hh].
  exists slot, older, p, n, rcs, d.
  destruct b; eexists; (split; [exact Hslot|]); (split; [reflexivity|]); auto.
Qed.

Lemma find_entry_ptr b key ty st slot :
  entry_ptr (find b key ty st) = Some slot -> slot = key.
Proof.
  unfold find, miss.
  destruct (entries st !! key) as [e|]; [destruct (RecordType.eqb _ _)|];
    destruct b; try destruct (_ <? _)%nat; simpl; congruence.
Qed.

Lemma find_Ok b key ty st :
  HashTable.s (find b key ty st) = Status.Ok ->
  entries st !! key = Some (entry (find b key ty st))
  /\ RecordType.eqb (entry_type (entry (find b key ty st))) ty = true.
Proof.
  unfold find, miss.
  destruct (entries st !! key) as [e|];
    [destruct (RecordType.eqb _ _) eqn:E|];
    destruct b; try destruct (_ <? _)%nat; simpl; try discriminate; auto.
Qed.

Lemma find_hit b key ty st e :
  entries st !! key = Some e -> RecordType.eqb (entry_type e) ty = true ->
  find b key ty st = {| HashTable.s := Status.Ok; entry := e;
                        entry_ptr := Some key |}.
Proof. unfold find. intros -> ->. reflexivity. Qed.

Lemma Put_run (fuel : nat) (k v : string) (t : N) (st : Engine) :
  Put fuel k v t st =
    let internal_key := InternalKey (ID st) k in
    let lr := find true internal_key RecordType.HashElem st in
    match HashTable.s lr with
    | Status.MemoryOverflow =>
        Done (with_s Status.MemoryOverflow WriteResult_default) st
    | _ =>
        match Allocator.first_fit (RecordSize internal_key v) (free_list st) with
        | Some (g, rest) =>
            Write fuel {| collection := Name st; key := k; value := v;
                          op := WriteOp.Put; hlist := this st; space := g;
                          ts := t; lookup_result := lr |}
                  (set_free_list rest st)
        | None => Done (with_s Status.MemoryOverflow WriteResult_default) st
        end
    end.
Proof.
  unfold Put. unfold bind at 1. unfold InitWriteArgs, bind, get, ret.
  rewrite PrepareWrite_run by reflexivity. cbv zeta.
  cbn [op key value is_delete negb]. rewrite allocate_space_put.
  destruct (HashTable.s _); try reflexivity;
    destruct (Allocator.first_fit _ _) as [[g rest]|]; reflexivity.
Qed.

Lemma Delete_run (fuel : nat) (k : string) (t : N) (st : Engine) :
  Delete fuel k t st =
    let internal_key := InternalKey (ID st) k in
    let lr := find false internal_key RecordType.HashElem st in
    if Status.eqb (HashTable.s lr) Status.Ok
       && RecordStatus.eqb (entry_status (entry lr)) RecordStatus.Normal
    then
      match Allocator.first_fit (RecordSize internal_key EmptyString)
                                (free_list st) with
      | Some (g, rest) =>
          Write fuel {| collection := Name st; key := k; value := EmptyString;
                        op := WriteOp.Delete; hlist := this st; space := g;
                        ts := t; lookup_result := lr |}
                (set_free_list rest st)
      | None => Done (with_s Status.MemoryOverflow WriteResult_default) st
      end
    else Done WriteResult_default st.
Proof.
  unfold Delete. unfold bind at 1. unfold InitWriteArgs, bind, get, ret.
  rewrite PrepareWrite_run by reflexivity. cbv zeta.
  cbn [op key value is_delete negb]. unfold allocate_space.
  destruct (find_false_status (InternalKey (ID st) k) RecordType.HashElem st)
    as [E|E]; rewrite E; cbn [Status.eqb andb]; [|reflexivity].
  destruct (entry_status _); cbn [RecordStatus.eqb andb]; [|reflexivity].
  destruct (Allocator.first_fit _ _) as [[g rest]|] eqn:F; [|reflexivity].
  cbn [Status.eqb space with_space andb].
  apply first_fit_grant in F as [F _].
  rewrite (proj2 (N.ltb_lt _ _) F). reflexivity.
Qed.

(** The record a write leaves at the granted offset. *)
Lemma written_record slot status wargs older p n rcs d z st :
  exists nr,
    memory (written slot status wargs older p n rcs d z st)
      !! space_offset (DLList.space wargs) = Some nr
    /\ Key nr = DLList.key wargs /\ Value nr = DLList.val wargs
    /\ GetRecordType nr = DLList.type wargs
    /\ GetRecordStatus nr = DLList.status wargs
    /\ GetTimestamp nr = DLList.ts wargs
    /\ old_version nr = older
    /\ GetRecordSize nr = space_size (DLList.space wargs).
Proof.
  unfold written, inserted, DLList.spliced. cbn [memory set_size set_entries set_memory].
  rewrite link_lookup, lookup_insert_eq. cbn [fmap option_fmap option_map].
  eexists. split; [reflexivity|].
  match goal with
  | |- context [relinked ?p ?n ?new ?off ?r] =>
      destruct (relinked_payload p n new off r)
        as (-> & -> & -> & _ & -> & -> & -> & ->)
  end.
  repeat split.
Qed.

(** Every other record keeps what it holds. *)
Lemma written_elsewhere slot status wargs older p n rcs d z st off r :
  memory st !! off = Some r ->
  off <> space_offset (DLList.space wargs) ->
  exists r',
    memory (written slot status wargs older p n rcs d z st) !! off = Some r'
    /\ Key r' = Key r /\ Value r' = Value r
    /\ GetRecordType r' = GetRecordType r
    /\ GetRecordStatus r' = GetRecordStatus r.
Proof.
  intros Hr Hne.
  unfold written, inserted, DLList.spliced. cbn [memory set_size set_entries set_memory].
  rewrite link_lookup, lookup_insert_ne by congruence.
  cbn [memory set_random_drawn set_races]. rewrite Hr.
  cbn [fmap option_fmap option_map].
  eexists. split; [reflexivity|].
  match goal with
  | |- context [relinked ?p ?n ?new ?off ?r] =>
      destruct (relinked_payload p n new off r)
        as (-> & -> & _ & _ & _ & -> & -> & _)
  end.
  repeat split.
Qed.

Lemma written_entries slot status wargs older p n rcs d z st :
  entries (written slot status wargs older p n rcs d z st)
  = <[slot := {| entry_type := RecordType.HashElem; entry_status := status;
                 index_type := PointerType.DLRecord;
                 dl_record := Some (space_offset (DLList.space wargs)) |}]>
      (entries st).
Proof. reflexivity. Qed.

Lemma Get_run (k v0 : string) (st : Engine) (e : HashEntry) (off : N)
    (r : DLRecord) :
  entries st !! InternalKey (ID st) k = Some e ->
  entry_type e = RecordType.HashElem ->
  entry_status e = RecordStatus.Normal ->
  dl_record e = Some off ->
  memory st !! off = Some r ->
  GetRecordType r = RecordType.HashElem ->
  Get k v0 st
  = Done (match GetRecordStatus r with
          | RecordStatus.Outdated => (Status.NotFound, v0)
          | RecordStatus.Normal => (Status.Ok, Value r)
          end) st.
Proof.
  intros He Hty Hst Hp Hr Hrt.
  unfold Get, bind, get, Lookup.
  rewrite (find_hit false _ _ _ e He) by (rewrite Hty; reflexivity).
  cbn [HashTable.s entry Status.eqb negb orb]. rewrite Hst.
  cbn [RecordStatus.eqb]. rewrite Hp.
  rewrite kvdk_assert_reading_holds.
  2:{ intros _. unfold bind, deref. rewrite Hr. unfold ret. rewrite Hrt.
      reflexivity. }
  unfold deref. rewrite Hr. destruct (GetRecordStatus r); reflexivity.
Qed.

(** X1: When Put(key, value, ts) returns with status Ok, Get(key) on the
    engine it leaves returns Ok with exactly that value and changes nothing.
    *)
Theorem Put_then_Get (fuel : nat) (k v v0 : string) (t : N)
    (st st' : Engine) (r : WriteResult) :
  Put fuel k v t st = Done r st' ->
  HashList.s r = Status.Ok ->
  Get k v0 st' = Done (Status.Ok, v) st'.
Proof.
  rewrite Put_run. cbv zeta. intros H Hok.
  assert (HW : exists g rest,
    Write fuel {| collection := Name st; key := k; value := v;
                  op := WriteOp.Put; hlist := this st; space := g; ts := t;
                  lookup_result := find true (InternalKey (ID st) k)
                                        RecordType.HashElem st |}
          (set_free_list rest st) = Done r st').
  { destruct (HashTable.s _);
      try (injection H as <- _; discriminate);
      destruct (Allocator.first_fit _ _) as [[g rest]|];
      try (injection H as <- _; discriminate); eauto. }
  clear H. destruct HW as (g & rest & H).
  apply Write_Done_written in H
    as (slot & older & p & n & rcs & d & z & Hslot & -> & _); [|reflexivity].
  cbn [lookup_result] in Hslot. apply find_entry_ptr in Hslot as ->.
  cbn [op status_of write_args_of key value ts space ID set_free_list].
  destruct (written_record (InternalKey (ID st) k) RecordStatus.Normal
              (put_args (set_free_list rest st) k v t g) older p n rcs d z
              (set_free_list rest st))
    as (nr & Hnr & _ & Hval & Hty & Hst & _).
  erewrite Get_run;
    [ rewrite Hst, Hval; reflexivity
    | rewrite written_entries; apply lookup_insert_eq
    | reflexivity | reflexivity | reflexivity | exact Hnr | exact Hty ].
Qed.

Lemma Get_closed (k v0 : string) (st : Engine) :
  Get k v0 st =
    match entries st !! InternalKey (ID st) k with
    | Some e =>
        if RecordType.eqb (entry_type e) RecordType.HashElem
           && negb (RecordStatus.eqb (entry_status e) RecordStatus.Outdated)
        then
          match dl_record e ≫= (memory st !!.) with
          | Some r =>
              if kvdk_debug st
                 && negb (RecordType.eqb (GetRecordType r) RecordType.HashElem)
              then Crashed st
              else Done (if RecordStatus.eqb (GetRecordStatus r)
                                             RecordStatus.Outdated
                         then (Status.NotFound, v0)
                         else (Status.Ok, Value r)) st
          | None => Crashed st
          end
        else Done (Status.NotFound, v0) st
    | None => Done (Status.NotFound, v0) st
    end.
Proof.
  unfold Get, bind, get, Lookup, find, miss.
  destruct (entries st !! InternalKey (ID st) k) as [e|]; [|reflexivity].
  destruct (RecordType.eqb (entry_type e) RecordType.HashElem);
    [|reflexivity].
  cbn [HashTable.s entry Status.eqb negb orb andb].
  destruct (RecordStatus.eqb (entry_status e) RecordStatus.Outdated);
    [reflexivity|].
  cbn [negb]. unfold kvdk_assert_reading, bind, get, deref, ret, kvdk_assert.
  destruct (dl_record e) as [off|]; cbn [mbind option_bind]; cbv beta iota;
    [|destruct (kvdk_debug st); reflexivity].
  destruct (kvdk_debug st) eqn:D;
    destruct (memory st !! off) as [r|] eqn:Hm;
    cbv beta iota; rewrite ?D; cbn [andb]; try reflexivity;
    destruct (RecordType.eqb (GetRecordType r) RecordType.HashElem);
    cbn [negb andb]; cbv beta iota; rewrite ?Hm; try reflexivity;
    destruct (RecordStatus.eqb _ _); reflexivity.
Qed.

(** X2: When Delete(key, ts) returns with status Ok, Get(key) on the engine
    it leaves returns NotFound and leaves the caller's value as it was,
    whether the key was live, already deleted or never written. *)
Theorem Delete_then_Get (fuel : nat) (k v0 : string) (t : N)
    (st st' : Engine) (r : WriteResult) :
  Delete fuel k t st = Done r st' ->
  HashList.s r = Status.Ok ->
  Get k v0 st' = Done (Status.NotFound, v0) st'.
Proof.
  rewrite Delete_run. cbv zeta. intros H Hok.
  destruct (Status.eqb _ _ && RecordStatus.eqb _ _) eqn:C.
  - destruct (Allocator.first_fit _ _) as [[g rest]|];
      [|injection H as <- _; discriminate].
    apply Write_Done_written in H
      as (slot & older & p & n & rcs & d & z & Hslot & -> & _); [|reflexivity].
    cbn [lookup_result] in Hslot. apply find_entry_ptr in Hslot as ->.
    rewrite Get_closed, written_entries.
    cbn [op status_of ID written set_size inserted set_entries DLList.spliced
         set_memory set_random_drawn set_races set_free_list].
    rewrite lookup_insert_eq. reflexivity.
  - injection H as _ <-. rewrite Get_closed.
    unfold find, miss in C.
    destruct (entries st !! InternalKey (ID st) k) as [e|]; [|reflexivity].
    destruct (RecordType.eqb (entry_type e) RecordType.HashElem);
      [|reflexivity].
    cbn [HashTable.s entry Status.eqb andb] in C.
    destruct (entry_status e); [discriminate|reflexivity].
Qed.

Lemma first_fit_split size chunks g rest :
  Allocator.first_fit size chunks = Some (g, rest) ->
  exists l1 l2, chunks = l1 ++ g :: l2 /\ rest = l1 ++ l2.
Proof.
  revert g rest.
  induction chunks as [|c chunks IH]; intros g rest; simpl; [discriminate|].
  destruct ((0 <? space_size c) && (size <=? space_size c)).
  - intros [= <- <-]. exists [], chunks. auto.
  - destruct (Allocator.first_fit size chunks) as [[g' rest']|];
      [|discriminate].
    intros [= <- <-]. destruct (IH _ _ eq_refl) as (l1 & l2 & -> & ->).
    exists (c :: l1), l2. auto.
Qed.

Lemma append_inj_l (a k k' : string) : (a ++ k)%string = (a ++ k')%string -> k = k'.
Proof. induction a as [|c a IH]; simpl; [auto|]. intros [= H]. auto. Qed.

Lemma InternalKey_inj (id : N) (k k' : string) :
  InternalKey id k = InternalKey id k' -> k = k'.
Proof. apply append_inj_l. Qed.

Lemma Get_ext (k v0 : string) (st st' : Engine) (a : Status.t * string) :
  ID st' = ID st -> kvdk_debug st' = kvdk_debug st ->
  entries st' !! InternalKey (ID st) k = entries st !! InternalKey (ID st) k ->
  (forall e off r,
      entries st !! InternalKey (ID st) k = Some e ->
      dl_record e = Some off -> memory st !! off = Some r ->
      exists r', memory st' !! off = Some r'
                 /\ Value r' = Value r
                 /\ GetRecordType r' = GetRecordType r
                 /\ GetRecordStatus r' = GetRecordStatus r) ->
  Get k v0 st = Done a st -> Get k v0 st' = Done a st'.
Proof.
  intros Hid Hdbg Hent Hmem. rewrite !Get_closed, Hid, Hdbg, Hent.
  destruct (entries st !! InternalKey (ID st) k) as [e|] eqn:He;
    [|intros [= <-]; reflexivity].
  destruct (_ && _); [|intros [= <-]; reflexivity].
  destruct (dl_record e) as [off|] eqn:Hp; cbn [mbind option_bind];
    [|discriminate].
  destruct (memory st !! off) as [r|] eqn:Hr; [|discriminate].
  destruct (Hmem e off r eq_refl Hp Hr) as (r' & -> & -> & -> & ->).
  destruct (_ && _); [discriminate|]. intros [= <-]. reflexivity.
Qed.

Lemma Get_after_write (k' v0 : string) slot status wargs older p n rcs d z
    (chunks : list SpaceEntry) (st : Engine) (a : Status.t * string) :
  slot <> InternalKey (ID st) k' ->
  memory st !! space_offset (DLList.space wargs) = None ->
  let st' := written slot status wargs older p n rcs d z
               (set_free_list chunks st) in
  Get k' v0 st = Done a st -> Get k' v0 st' = Done a st'.
Proof.
  intros Hslot Hfresh st'. apply Get_ext; try reflexivity.
  - unfold st'. rewrite written_entries. cbn [entries set_free_list].
    apply lookup_insert_ne. exact Hslot.
  - intros e off r _ _ Hr.
    destruct (written_elsewhere slot status wargs older p n rcs d z
                (set_free_list chunks st) off r Hr)
      as (r' & Hr' & _ & Hv & Ht & Hs).
    { intros ->. congruence. }
    exists r'. auto.
Qed.

Lemma first_fit_unused size st g rest :
  free_space_unused st ->
  Allocator.first_fit size (free_list st) = Some (g, rest) ->
  memory st !! space_offset g = None.
Proof.
  intros Hfree F. apply first_fit_split in F as (l1 & l2 & E & _).
  unfold free_space_unused in Hfree. rewrite E in Hfree.
  apply Forall_app in Hfree as [_ Hfree]. inversion Hfree; assumption.
Qed.



Lemma live_lookup (m : gmap string HashEntry) (k : string) :
  filter (fun kv : string * HashEntry => live kv.2 = true) m !! k
  = match m !! k with
    | Some e => if live e then Some e else None
    | None => None
    end.
Proof.
  destruct (m !! k) as [e|] eqn:E; [destruct (live e) eqn:L|].
  - apply map_lookup_filter_Some_2; assumption.
  - apply map_lookup_filter_None_2. right. intros x Hx. rewrite E in Hx.
    injection Hx as <-. simpl. congruence.
  - apply map_lookup_filter_None_2. left. assumption.
Qed.

Lemma live_size_insert (m : gmap string HashEntry) (k : string)
    (x : HashEntry) :
  Z.of_nat (size (filter (fun kv : string * HashEntry => live kv.2 = true)
                         (<[k := x]> m)))
  = (Z.of_nat (size (filter (fun kv : string * HashEntry => live kv.2 = true)
                            m))
     - (if live_at m k then 1 else 0) + (if live x then 1 else 0))%Z.
Proof.
  rewrite map_filter_insert. unfold live_at.
  pose proof (live_lookup m k) as Hk.
  case_decide as Hx; simpl in Hx.
  - rewrite Hx, map_size_insert, Hk.
    destruct (m !! k) as [e|]; [destruct (live e)|]; simpl; lia.
  - rewrite map_filter_delete, map_size_delete, Hk.
    destruct (live x); [congruence|].
    destruct (m !! k) as [e|] eqn:E; [destruct (live e) eqn:L|]; simpl;
      try lia.
    assert (size (filter (fun kv : string * HashEntry => live kv.2 = true) m)
            <> 0%nat).
    { apply (map_size_ne_0_lookup_2 _ k). rewrite Hk, ?E, ?L. eauto. }
    lia.
Qed.

Lemma live_size_le (m : gmap string HashEntry) :
  (size (filter (fun kv : string * HashEntry => live kv.2 = true) m)
   <= size m)%nat.
Proof. apply map_subseteq_size, map_filter_subseteq. Qed.

Lemma sized_state (b : bool) (delta : Z) (W : Engine) :
  let st' := if b then resized delta W else W in
  memory st' = memory W /\ entries st' = entries W
  /\ free_list st' = free_list W /\ capacity st' = capacity W
  /\ size_ st' = if b then ((size_ W + delta) mod 2 ^ 64)%Z else size_ W.
Proof. destruct b; repeat split. Qed.

Lemma written_consistent (st : Engine) (size : N)
    (rest : list SpaceEntry) (slot : string)
    (wargs : DLList.WriteArgs) (older p n : N) (rcs : list bool) (d : nat)
    (b : bool) (delta : Z) :
  consistent st ->
  Allocator.first_fit size (free_list st) = Some (DLList.space wargs, rest) ->
  let ne := {| entry_type := RecordType.HashElem;
               entry_status := DLList.status wargs;
               index_type := PointerType.DLRecord;
               dl_record := Some (space_offset (DLList.space wargs)) |} in
  let W := written slot (DLList.status wargs) wargs older p n rcs d (size_ st)
             (set_free_list rest st) in
  let st' := if b then resized delta W else W in
  (base.size (<[slot := ne]> (entries st)) <= capacity st)%nat ->
  size_ st' = (size_ st - (if live_at (entries st) slot then 1 else 0)
               + (if live ne then 1 else 0))%Z ->
  consistent st'.
Proof.
  intros (Hunused & Hnd & Hagree & Hcap & Hcap64 & Hsize) F ne W st'
    Hbound Hsz.
  destruct (sized_state b delta W) as (Hm & He & Hf & Hc & _).
  fold st' in Hm, He, Hf, Hc.
  pose proof (first_fit_unused _ _ _ _ Hunused F) as Hfresh.
  apply first_fit_split in F as (l1 & l2 & Hfl & ->).
  assert (HmW : forall off, off <> space_offset (DLList.space wargs) ->
            memory W !! off
            = relinked p n (space_offset (DLList.space wargs)) off
                <$> memory st !! off).
  { intros off Hne. unfold W, written, inserted, DLList.spliced.
    cbn [memory set_size set_entries set_memory set_random_drawn set_races
         set_free_list].
    rewrite link_lookup, lookup_insert_ne by congruence. reflexivity. }
  unfold consistent, live_elems, free_space_unused, index_agrees.
  rewrite Hf, He, Hc, Hm.
  change (free_list W) with (l1 ++ l2).
  change (capacity W) with (capacity st).
  change (entries W) with (<[slot := ne]> (entries st)).
  unfold free_space_unused in Hunused. rewrite Hfl in Hunused, Hnd.
  rewrite map_app in Hnd. cbn [map] in Hnd.
  apply NoDup_app in Hnd as (Hnd1 & Hnd12 & Hnd2).
  apply NoDup_cons in Hnd2 as (Hg2 & Hnd2).
  apply Forall_app in Hunused as (Hu1 & Hu2).
  apply Forall_cons in Hu2 as (_ & Hu2).
  split; [|split; [|split; [|split; [|split]]]].
  - apply Forall_app. split.
    + apply Forall_forall. intros c Hc1.
      rewrite HmW.
      * rewrite Forall_forall in Hu1. rewrite (Hu1 c Hc1). reflexivity.
      * intros E. apply (Hnd12 (space_offset c)).
        -- apply list_elem_of_In, in_map, list_elem_of_In, Hc1.
        -- rewrite E. left.
    + apply Forall_forall. intros c Hc2.
      rewrite HmW.
      * rewrite Forall_forall in Hu2. rewrite (Hu2 c Hc2). reflexivity.
      * intros E. apply Hg2. rewrite <- E.
        apply list_elem_of_In, in_map, list_elem_of_In, Hc2.
  - rewrite map_app. apply NoDup_app. split; [exact Hnd1|]. split; [|exact Hnd2].
    intros x Hx1 Hx2. apply (Hnd12 x Hx1). right. exact Hx2.
  - intros k e Hk Hty.
    destruct (decide (k = slot)) as [->|Hne].
    + rewrite lookup_insert_eq in Hk. injection Hk as <-.
      destruct (written_record slot (DLList.status wargs) wargs older p n rcs
                  d (size_ st) (set_free_list (l1 ++ l2) st))
        as (nr & Hnr & _ & _ & _ & Hst & _).
      exists (space_offset (DLList.space wargs)), nr.
      split; [reflexivity|]. split; [exact Hnr|exact Hst].
    + rewrite lookup_insert_ne in Hk by congruence.
      destruct (Hagree k e Hk Hty) as (off & r & Hp & Hr & Hs).
      exists off, (relinked p n (space_offset (DLList.space wargs)) off r).
      split; [exact Hp|]. split.
      * rewrite HmW, Hr by (intros ->; congruence). reflexivity.
      * rewrite relinked_status. exact Hs.
  - exact Hbound.
  - exact Hcap64.
  - rewrite Hsz, Hsize, live_size_insert. reflexivity.
Qed.

Lemma RecordType_eqb_eq (a b : RecordType.t) :
  RecordType.eqb a b = true -> a = b.
Proof.
  destruct a, b; simpl; try discriminate; try reflexivity.
  intros H. apply N.eqb_eq in H. congruence.
Qed.

Lemma Put_Done_sized (fuel : nat) (k v : string) (t : N) (st st' : Engine)
    (r : WriteResult) :
  Put fuel k v t st = Done r st' ->
  let lr := find true (InternalKey (ID st) k) RecordType.HashElem st in
  (st' = st /\ r = with_s Status.MemoryOverflow WriteResult_default)
  \/ exists g rest older p n rcs d b,
       Allocator.first_fit (RecordSize (InternalKey (ID st) k) v)
                           (free_list st) = Some (g, rest)
       /\ HashTable.s lr <> Status.MemoryOverflow
       /\ splice_point st (Status.eqb (HashTable.s lr) Status.Ok)
                       (dl_record (entry lr)) older p n
       /\ (let W := written (InternalKey (ID st) k) RecordStatus.Normal
                     (put_args st k v t g) older p n rcs d (size_ st)
                     (set_free_list rest st) in
           null_or_status
             (if Status.eqb (HashTable.s lr) Status.Ok
              then dl_record (entry lr) else None)
             RecordStatus.Outdated W = Done b W
           /\ st' = if b then resized 1 W else W)
       /\ HashList.s r = Status.Ok
       /\ write_record r = Some (space_offset g).
Proof.
  rewrite Put_run. cbv zeta. intros H.
  assert (HW : (st' = st /\ r = with_s Status.MemoryOverflow WriteResult_default)
    \/ exists g rest,
    Allocator.first_fit (RecordSize (InternalKey (ID st) k) v) (free_list st)
      = Some (g, rest) /\
    HashTable.s (find true (InternalKey (ID st) k) RecordType.HashElem st)
      <> Status.MemoryOverflow /\
    Write fuel {| collection := Name st; key := k; value := v;
                  op := WriteOp.Put; hlist := this st; space := g; ts := t;
                  lookup_result := find true (InternalKey (ID st) k)
                                        RecordType.HashElem st |}
          (set_free_list rest st) = Done r st').
  { destruct (HashTable.s _);
      try (injection H as <- <-; left; split; reflexivity);
      destruct (Allocator.first_fit _ _) as [[g rest]|];
      try (injection H as <- <-; left; split; reflexivity);
      right; exists g, rest; repeat split; solve [discriminate|assumption]. }
  clear H. destruct HW as [HW|(g & rest & F & Hs & H)]; [left; exact HW|right].
  apply Write_Done in H
    as (slot & older & p & n & rcs & d & b & Hslot & Hsp & [Ht ->] & Hok & Hw
        & Hex);
    [|reflexivity].
  cbn [lookup_result] in Hslot. apply find_entry_ptr in Hslot as ->.
  rewrite Hex in Ht.
  exists g, rest, older, p, n, rcs, d, b.
  split; [exact F|]. split; [exact Hs|]. split; [exact Hsp|].
  split; [|split; assumption].
  split; [exact Ht|reflexivity].
Qed.

Lemma Put_Done (fuel : nat) (k v : string) (t : N) (st st' : Engine)
    (r : WriteResult) :
  Put fuel k v t st = Done r st' ->
  (st' = st /\ r = with_s Status.MemoryOverflow WriteResult_default)
  \/ exists g rest older p n rcs d z,
       Allocator.first_fit (RecordSize (InternalKey (ID st) k) v)
                           (free_list st) = Some (g, rest)
       /\ st' = written (InternalKey (ID st) k) RecordStatus.Normal
                  (put_args st k v t g) older p n rcs d z
                  (set_free_list rest st)
       /\ HashList.s r = Status.Ok
       /\ write_record r = Some (space_offset g).
Proof.
  intros H. apply Put_Done_sized in H as [H|H]; [left; exact H|right].
  destruct H as (g & rest & older & p & n & rcs & d & b & F & _ & _ & [_ ->]
                 & Hok & Hw).
  exists g, rest, older, p, n, rcs, d.
  destruct b; eexists; (split; [exact F|]); (split; [reflexivity|]); auto.
Qed.

Lemma Delete_Done_sized (fuel : nat) (k : string) (t : N) (st st' : Engine)
    (r : WriteResult) :
  Delete fuel k t st = Done r st' ->
  (st' = st /\ write_record r = None)
  \/ exists e g rest older p n rcs d b,
       entries st !! InternalKey (ID st) k = Some e
       /\ live e = true
       /\ Allocator.first_fit (RecordSize (InternalKey (ID st) k) EmptyString)
                              (free_list st) = Some (g, rest)
       /\ splice_point st true (dl_record e) older p n
       /\ (let W := written (InternalKey (ID st) k) RecordStatus.Outdated
                     (delete_args st k t g) older p n rcs d (size_ st)
                     (set_free_list rest st) in
           nonnull_and_status (dl_record e) RecordStatus.Normal W = Done b W
           /\ st' = if b then resized (-1) W else W)
       /\ HashList.s r = Status.Ok
       /\ write_record r = Some (space_offset g).
Proof.
  rewrite Delete_run. cbv zeta. intros H.
  destruct (Status.eqb _ _ && RecordStatus.eqb _ _) eqn:C.
  - destruct (Allocator.first_fit _ _) as [[g rest]|] eqn:F;
      [|injection H as <- <-; left; split; reflexivity].
    right.
    apply Write_Done in H
      as (slot & older & p & n & rcs & d & b & Hslot & Hsp & [Ht ->] & Hok & Hw
          & Hex);
      [|reflexivity].
    cbn [lookup_result] in Hslot. apply find_entry_ptr in Hslot as ->.
    rewrite Hex in Ht. unfold existing_of in Ht. cbn [op lookup_result] in Ht.
    apply andb_true_iff in C as [C1 C2].
    assert (Hs : HashTable.s (find false (InternalKey (ID st) k)
                                   RecordType.HashElem st) = Status.Ok)
      by (destruct (HashTable.s _); try discriminate; reflexivity).
    apply find_Ok in Hs as [He Hty].
    exists (entry (find false (InternalKey (ID st) k) RecordType.HashElem st)),
      g, rest, older, p, n, rcs, d, b.
    split; [exact He|]. split; [unfold live; rewrite Hty, C2; reflexivity|].
    split; [reflexivity|]. split; [exact Hsp|]. split; [|split; assumption].
    split; [exact Ht|reflexivity].
  - injection H as <- <-. left. split; reflexivity.
Qed.

Lemma Delete_Done (fuel : nat) (k : string) (t : N) (st st' : Engine)
    (r : WriteResult) :
  Delete fuel k t st = Done r st' ->
  (st' = st /\ write_record r = None)
  \/ exists g rest older p n rcs d z,
       Allocator.first_fit (RecordSize (InternalKey (ID st) k) EmptyString)
                           (free_list st) = Some (g, rest)
       /\ st' = written (InternalKey (ID st) k) RecordStatus.Outdated
                  (delete_args st k t g) older p n rcs d z
                  (set_free_list rest st)
       /\ HashList.s r = Status.Ok
       /\ write_record r = Some (space_offset g).
Proof.
  rewrite Delete_run. cbv zeta. intros H.
  destruct (Status.eqb _ _ && RecordStatus.eqb _ _).
  - destruct (Allocator.first_fit _ _) as [[g rest]|] eqn:F;
      [|injection H as <- <-; left; split; reflexivity].
    right.
    apply Write_Done_written in H
      as (slot & older & p & n & rcs & d & z & Hslot & -> & Hs & Hw);
      [|reflexivity].
    cbn [lookup_result] in Hslot. apply find_entry_ptr in Hslot as ->.
    exists g, rest, older, p, n, rcs, d, z. auto.
  - injection H as <- <-. left. split; reflexivity.
Qed.

(** X3: On an engine whose free allocator chunks hold no record, a Put or
    Delete of one key that returns does not change what Get returns for any
    other key. *)
Theorem writes_keep_other_keys (fuel : nat) (k k' v v0 : string) (t : N)
    (st st' : Engine) (r : WriteResult) (a : Status.t * string) :
  free_space_unused st ->
  k' <> k ->
  Put fuel k v t st = Done r st' \/ Delete fuel k t st = Done r st' ->
  Get k' v0 st = Done a st ->
  Get k' v0 st' = Done a st'.
Proof.
  intros Hfree Hk Hw HG.
  assert (Hkey : InternalKey (ID st) k <> InternalKey (ID st) k').
  { intros E. apply InternalKey_inj in E. congruence. }
  destruct Hw as [H|H];
    [apply Put_Done in H | apply Delete_Done in H];
    (destruct H as [[-> _]|(g & rest & older & p & n & rcs & d & z & F & -> & _)];
     [exact HG|]);
    (apply Get_after_write; [exact Hkey| |exact HG]);
    exact (first_fit_unused _ _ _ _ Hfree F).
Qed.

Lemma live_bound (st : Engine) (slot : string) (ne : HashEntry) :
  (size (<[slot := ne]> (entries st)) <= capacity st)%nat ->
  (Z.of_nat (capacity st) < 2 ^ 64)%Z ->
  (Z.of_nat (size (filter (fun kv : string * HashEntry => live kv.2 = true)
                          (<[slot := ne]> (entries st)))) < 2 ^ 64)%Z.
Proof.
  intros Hb Hc.
  pose proof (live_size_le (<[slot := ne]> (entries st))). lia.
Qed.

Lemma deref_written_elsewhere slot status wargs older p n rcs d z st off r :
  memory st !! off = Some r ->
  memory st !! space_offset (DLList.space wargs) = None ->
  exists r',
    deref (Some off) (written slot status wargs older p n rcs d z st)
    = Done r' (written slot status wargs older p n rcs d z st)
    /\ GetRecordStatus r' = GetRecordStatus r.
Proof.
  intros Hr Hfresh.
  destruct (written_elsewhere slot status wargs older p n rcs d z st off r Hr)
    as (r' & Hr' & _ & _ & _ & Hs).
  { intros ->. congruence. }
  exists r'. split; [|exact Hs]. unfold deref. rewrite Hr'. reflexivity.
Qed.

(** X4: Put and Delete keep the engine consistent: free chunks stay unused
    and at distinct offsets, every hash-element index entry keeps pointing
    at an arena record with the entry's status, the index stays within its
    capacity, and size_ (what Size() returns) stays equal to the number of
    Normal hash elements in the index. *)
Theorem writes_keep_Size_faithful (fuel : nat) (k v : string) (t : N)
    (st st' : Engine) (r : WriteResult) :
  consistent st ->
  Put fuel k v t st = Done r st' \/ Delete fuel k t st = Done r st' ->
  consistent st'.
Proof.
  intros Hc [H|H].
  - apply Put_Done_sized in H as [[-> _]|H]; [exact Hc|].
    destruct H as (g & rest & older & p & n & rcs & d & b & F & Hs & _
                   & [Ht ->] & _).
    pose proof Hc as (Hunused & Hnd & Hagree & Hcap & Hcap64 & Hsize).
    pose proof (first_fit_unused _ _ _ _ Hunused F) as Hfresh.
    set (ikey := InternalKey (ID st) k) in *.
    set (ne := {| entry_type := RecordType.HashElem;
                  entry_status := RecordStatus.Normal;
                  index_type := PointerType.DLRecord;
                  dl_record := Some (space_offset g) |}).
    assert (Hb : b = negb (live_at (entries st) ikey)
                 /\ (size (<[ikey := ne]> (entries st)) <= capacity st)%nat).
    { unfold live_at. unfold find, miss in Ht, Hs.
      destruct (entries st !! ikey) as [e|] eqn:He.
      - rewrite map_size_insert, He. split; [|exact Hcap].
        unfold live.
        destruct (RecordType.eqb (entry_type e) RecordType.HashElem) eqn:Hty.
        + cbn [HashTable.s entry Status.eqb] in Ht.
          destruct (Hagree ikey e He (RecordType_eqb_eq _ _ Hty))
            as (off & r0 & Hp & Hr0 & Hst).
          rewrite Hp in Ht. unfold null_or_status, bind in Ht.
          destruct (deref_written_elsewhere ikey RecordStatus.Normal
                      (put_args st k v t g) older p n rcs d (size_ st)
                      (set_free_list rest st) off r0 Hr0 Hfresh)
            as (r' & Hd & Hs').
          rewrite Hd in Ht. injection Ht as <-. rewrite Hs', Hst.
          destruct (entry_status e); reflexivity.
        + destruct (size (entries st) <? capacity st)%nat;
            [|exfalso; apply Hs; reflexivity].
          injection Ht as <-. reflexivity.
      - destruct (size (entries st) <? capacity st)%nat eqn:Hlt;
          [|exfalso; apply Hs; reflexivity].
        injection Ht as <-. split; [reflexivity|].
        rewrite map_size_insert, He. apply Nat.ltb_lt in Hlt. simpl.
        exact Hlt. }
    destruct Hb as [-> Hbound].
    apply (written_consistent st _ rest ikey (put_args st k v t g) older p n
             rcs d _ 1 Hc F Hbound).
    change (if live _ then 1 else 0)%Z with 1%Z.
    pose proof (live_size_insert (entries st) ikey ne) as Hins.
    pose proof (live_bound st ikey ne Hbound Hcap64) as Hlt.
    change (live ne) with true in Hins. fold (live_elems st) in Hins.
    rewrite <- Hsize in Hins.
    destruct (live_at (entries st) ikey); cbn [negb].
    + cbn [size_ written set_size]. lia.
    + cbn [size_ resized written set_size]. rewrite Z.mod_small; lia.
  - apply Delete_Done_sized in H as [[-> _]|H]; [exact Hc|].
    destruct H as (e & g & rest & older & p & n & rcs & d & b & He & Hlive & F
                   & _ & [Ht ->] & _).
    pose proof Hc as (Hunused & Hnd & Hagree & Hcap & Hcap64 & Hsize).
    pose proof (first_fit_unused _ _ _ _ Hunused F) as Hfresh.
    set (ikey := InternalKey (ID st) k) in *.
    set (ne := {| entry_type := RecordType.HashElem;
                  entry_status := RecordStatus.Outdated;
                  index_type := PointerType.DLRecord;
                  dl_record := Some (space_offset g) |}).
    assert (Hbound : (size (<[ikey := ne]> (entries st)) <= capacity st)%nat)
      by (rewrite map_size_insert, He; exact Hcap).
    assert (Hb : b = true).
    { unfold live in Hlive. apply andb_true_iff in Hlive as [Hty Hst].
      destruct (Hagree ikey e He (RecordType_eqb_eq _ _ Hty))
        as (off & r0 & Hp & Hr0 & Hst0).
      rewrite Hp in Ht. unfold nonnull_and_status, bind in Ht.
      destruct (deref_written_elsewhere ikey RecordStatus.Outdated
                  (delete_args st k t g) older p n rcs d (size_ st)
                  (set_free_list rest st) off r0 Hr0 Hfresh)
        as (r' & Hd & Hs').
      rewrite Hd in Ht. injection Ht as <-. rewrite Hs', Hst0. exact Hst. }
    subst b.
    apply (written_consistent st _ rest ikey (delete_args st k t g) older p n
             rcs d true (-1) Hc F Hbound).
    change (if live _ then 1 else 0)%Z with 0%Z.
    pose proof (live_size_insert (entries st) ikey ne) as Hins.
    pose proof (live_bound st ikey ne Hbound Hcap64) as Hlt.
    change (live ne) with false in Hins. fold (live_elems st) in Hins.
    rewrite <- Hsize in Hins.
    unfold live_at in *. rewrite He, Hlive in *.
    cbn [size_ resized written set_size]. rewrite Z.mod_small; lia.
Qed.

(** ** Collection ids *)

Lemma DecodeLE_EncodeLE (bytes : nat) (x : N) (rest : string) :
  DecodeLE bytes (EncodeLE bytes x ++ rest) = x mod 256 ^ N.of_nat bytes.
Proof.
  revert x. induction bytes as [|b IH]; intros x.
  - simpl. destruct rest; rewrite N.mod_1_r; reflexivity.
  - change (DecodeLE (S b) (EncodeLE (S b) x ++ rest))
      with (N_of_ascii (ascii_of_N (x mod 256))
            + 256 * DecodeLE b (EncodeLE b (x / 256) ++ rest)).
    rewrite IH.
    rewrite N_ascii_embedding by (apply N.mod_upper_bound; lia).
    rewrite Nat2N.inj_succ, N.pow_succ_r', N.Div0.mod_mul_r. reflexivity.
Qed.

Lemma ExtractID_InternalKey (id : N) (k : string) :
  id < 2 ^ 64 -> ExtractID (InternalKey id k) = id.
Proof.
  intros H. unfold ExtractID, InternalKey, EncodeID.
  rewrite DecodeLE_EncodeLE. apply N.mod_small. exact H.
Qed.

(** X9: For a collection id below 2^64, FetchID of the record that a
    returning Put or Delete wrote gives back the collection's id and changes
    nothing: the id encoded in the internal key is decoded again. *)
Theorem FetchID_of_written_record (fuel : nat) (k v : string) (t : N)
    (st st' : Engine) (r : WriteResult) :
  ID st < 2 ^ 64 ->
  Put fuel k v t st = Done r st' \/ Delete fuel k t st = Done r st' ->
  is_Some (write_record r) ->
  FetchID (write_record r) st' = Done (ID st) st'.
Proof.
  intros Hid Hw Hsome.
  assert (H : exists slot status wargs older p n rcs d z chunks,
    st' = written slot status wargs older p n rcs d z (set_free_list chunks st)
    /\ write_record r = Some (space_offset (DLList.space wargs))
    /\ DLList.key wargs = InternalKey (ID st) k
    /\ DLList.type wargs = RecordType.HashElem).
  { destruct Hw as [H|H]; [apply Put_Done in H|apply Delete_Done in H].
    - destruct H as [[_ ->]|(g & rest & older & p & n & rcs & d & z & _ & ->
                             & _ & Hw)].
      + destruct Hsome as [? [=]].
      + eexists _, _, (put_args st k v t g), _, _, _, _, _, _, _.
        split; [reflexivity|]. split; [exact Hw|]. split; reflexivity.
    - destruct H as [[_ Hn]|(g & rest & older & p & n & rcs & d & z & _ & ->
                             & _ & Hw)].
      + rewrite Hn in Hsome. destruct Hsome as [? [=]].
      + eexists _, _, (delete_args st k t g), _, _, _, _, _, _, _.
        split; [reflexivity|]. split; [exact Hw|]. split; reflexivity. }
  destruct H as (slot & status & wargs & older & p & n & rcs & d & z & chunks
                 & -> & -> & Hkey & Hty).
  destruct (written_record slot status wargs older p n rcs d z
              (set_free_list chunks st))
    as (nr & Hnr & Hk & _ & Ht & _).
  unfold FetchID, bind, std_assert, deref. cbn [is_nonnull negb andb].
  rewrite andb_false_r, Hnr, Ht, Hty, Hk, Hkey.
  unfold ret. rewrite ExtractID_InternalKey by exact Hid. reflexivity.
Qed.

(** X10: For a record of the arena, MatchType(record) is true exactly when
    FetchID(record) returns an id and leaves the engine, its log included,
    as it was. *)
Theorem FetchID_is_silent_iff_MatchType (st : Engine) (off : N)
    (r : DLRecord) :
  memory st !! off = Some r ->
  MatchType (Some off) st = Done true st
  <-> exists id, FetchID (Some off) st = Done id st.
Proof.
  intros Hr. unfold MatchType, FetchID, bind, std_assert, deref, ret.
  cbn [is_nonnull negb andb]. rewrite andb_false_r, Hr.
  destruct (GetRecordType r) eqn:E; cbn [RecordType.eqb orb].
  - split; eauto.
  - split; eauto.
  - split; [discriminate|]. intros [id H].
    unfold GlobalLogger_Error, modify, kvdk_assert in H.
    cbn [kvdk_debug set_log negb andb] in H. rewrite andb_true_r in H.
    destruct (kvdk_debug st); [discriminate|].
    injection H as _ H. apply (f_equal log) in H. cbn [log set_log] in H.
    apply (f_equal List.length) in H. rewrite length_app in H. simpl in H. lia.
Qed.

(** ** Modify *)

(** X12: When the transformer returns Abort (the lookup did not overflow and
    a found entry's record is in the arena), Modify returns status Abort
    with the existing record and no written record, and leaves the engine
    unchanged. *)
Theorem Modify_abort_writes_nothing (fuel : nat) (k : string) (f : ModifyFunc)
    (t : N) (st : Engine) :
  let lr := find true (InternalKey (ID st) k) RecordType.HashElem st in
  HashTable.s lr <> Status.MemoryOverflow ->
  entry_readable st lr ->
  fst (f (Modify_existing_value st lr)) = ModifyOperation.Abort ->
  Modify fuel k f t st
  = Done {| HashList.s := Status.Abort;
            existing_record := Modify_existing_record lr;
            write_record := None; hash_entry_ptr := None |} st.
Proof.
  intros lr Hs Hr Hf. rewrite Modify_run by assumption. fold lr.
  destruct (f (Modify_existing_value st lr)) as [o nv]. simpl in Hf. subst o.
  reflexivity.
Qed.

(** X11: When the inserting lookup reports MemoryOverflow (the key is new
    and the index is at capacity), Put and Modify both return MemoryOverflow
    with no record written and leave the engine unchanged. *)
Theorem full_index_is_memory_overflow (fuel : nat) (k v : string)
    (f : ModifyFunc) (t : N) (st : Engine) :
  HashTable.s (find true (InternalKey (ID st) k) RecordType.HashElem st)
    = Status.MemoryOverflow ->
  Put fuel k v t st
    = Done (with_s Status.MemoryOverflow WriteResult_default) st
  /\ Modify fuel k f t st
     = Done (with_s Status.MemoryOverflow WriteResult_default) st.
Proof.
  intros Hs. split.
  - rewrite Put_run. cbv zeta. rewrite Hs. reflexivity.
  - unfold Modify, bind, get, Lookup. rewrite Hs. reflexivity.
Qed.

(** X13: When the transformer returns Write with a new value, the lookup did
    not overflow, a found entry's record is in the arena and the allocator
    has a chunk for the record, Modify behaves exactly as Put of that value:
    same outcome, same result, same final engine. *)
Theorem Modify_write_is_Put (fuel : nat) (k nv : string) (f : ModifyFunc)
    (t : N) (st : Engine) :
  let internal_key := InternalKey (ID st) k in
  let lr := find true internal_key RecordType.HashElem st in
  HashTable.s lr <> Status.MemoryOverflow ->
  entry_readable st lr ->
  f (Modify_existing_value st lr) = (ModifyOperation.Write, nv) ->
  Allocator.first_fit (RecordSize internal_key nv) (free_list st) <> None ->
  Modify fuel k f t st = Put fuel k nv t st.
Proof.
  intros ikey lr Hs Hr Hf Hfit.
  rewrite Modify_run, Put_run by assumption. cbv zeta. fold ikey lr.
  rewrite Hf.
  destruct (Allocator.first_fit _ _) as [[g rest]|]; [|congruence].
  destruct (HashTable.s lr) eqn:E; try reflexivity. congruence.
Qed.

(** X14: When the key's index entry is a Normal hash element whose record is
    in the arena, the transformer returns Delete and the allocator has a
    chunk for the tombstone, Modify behaves exactly as Delete: same outcome,
    same result, same final engine. *)
Theorem Modify_delete_is_Delete (fuel : nat) (k nv : string) (f : ModifyFunc)
    (t : N) (st : Engine) (e : HashEntry) :
  let internal_key := InternalKey (ID st) k in
  entries st !! internal_key = Some e ->
  live e = true ->
  is_Some (dl_record e ≫= (memory st !!.)) ->
  f (Modify_existing_value st (find true internal_key RecordType.HashElem st))
    = (ModifyOperation.Delete, nv) ->
  Allocator.first_fit (RecordSize internal_key EmptyString) (free_list st)
    <> None ->
  Modify fuel k f t st = Delete fuel k t st.
Proof.
  intros ikey He Hlive Hrec Hf Hfit.
  apply andb_true_iff in Hlive as [Hty Hst].
  rewrite (find_hit true ikey _ st e He Hty) in Hf.
  rewrite Modify_run, Delete_run; cbv zeta; fold ikey;
    rewrite ?(find_hit true ikey _ st e He Hty),
            ?(find_hit false ikey _ st e He Hty).
  - rewrite Hf. cbn [HashTable.s entry Status.eqb andb]. rewrite Hst.
    destruct (Allocator.first_fit _ _) as [[g rest]|]; [|congruence].
    reflexivity.
  - discriminate.
  - intros _. unfold record_of. cbn [entry]. 
    destruct (dl_record e); [exact Hrec|destruct Hrec as [? [=]]].
Qed.

(** X15: In a debug build, when the transformer returns Delete for a key
    that has no Normal hash element in the index (the lookup did not
    overflow, a found entry's record is in the arena, the allocator has a
    chunk for the tombstone), Modify takes that chunk from the allocator and
    then stops the process on the first assertion of deletePrepared; nothing
    else has changed. *)
Theorem Modify_delete_of_dead_key_stops_debug_build (fuel : nat)
    (k nv : string) (f : ModifyFunc) (t : N) (st : Engine) (g : SpaceEntry)
    (rest : list SpaceEntry) :
  let internal_key := InternalKey (ID st) k in
  let lr := find true internal_key RecordType.HashElem st in
  kvdk_debug st = true ->
  HashTable.s lr <> Status.MemoryOverflow ->
  entry_readable st lr ->
  live_at (entries st) internal_key = false ->
  f (Modify_existing_value st lr) = (ModifyOperation.Delete, nv) ->
  Allocator.first_fit (RecordSize internal_key EmptyString) (free_list st)
    = Some (g, rest) ->
  Modify fuel k f t st = Crashed (set_free_list rest st).
Proof.
  intros ikey lr Hd Hs Hr Hlive Hf Hfit.
  rewrite Modify_run by assumption. cbv zeta. fold ikey lr.
  rewrite Hf, Hfit.
  unfold Write, bind, get. cbn [hlist this set_free_list op].
  rewrite N.eqb_refl. cbn [negb].
  unfold deletePrepared, bind, get, kvdk_assert.
  cbn [kvdk_debug set_free_list lookup_result]. rewrite Hd.
  replace (Status.eqb (HashTable.s lr) Status.Ok && _ && _) with false;
    [reflexivity|].
  unfold lr, find, miss, live_at, live in *.
  destruct (entries st !! ikey) as [e|].
  - destruct (RecordType.eqb (entry_type e) RecordType.HashElem) eqn:Hty.
    + cbn [HashTable.s entry Status.eqb andb]. rewrite Hty.
      simpl in Hlive. rewrite Hlive. reflexivity.
    + destruct (_ <? _)%nat; reflexivity.
  - destruct (_ <? _)%nat; reflexivity.
Qed.

(** ** SetExpireTime leaves the elements alone *)

Lemma Replace_Done (old new : ptr) (st : Engine) (b : bool) (st' : Engine) :
  DLList.Replace old new st = Done b st' ->
  st' = st
  \/ exists o nw p n r,
       old = Some o /\ new = Some nw
       /\ (st' = set_memory (DLList.link p n nw (<[nw := r]> (memory st))) st
           \/ st' = set_header nw
                      (set_memory (DLList.link p n nw (<[nw := r]> (memory st)))
                                  st)).
Proof.
  unfold DLList.Replace. intros H.
  apply bind_Done in H as (o & st1 & Ho & H). apply deref_Done in Ho as ->.
  apply bind_Done in H as (r & st1 & Hr & H). apply deref_Done in Hr as ->.
  apply bind_Done in H as (st0 & st1 & Hg & H). injection Hg as <- <-.
  destruct old as [ol|]; [|discriminate].
  destruct new as [nw|]; [|discriminate].
  destruct (DLList.linked (memory st) ol).
  - apply bind_Done in H as (u & st1 & Hm & H). injection Hm as _ <-.
    apply bind_Done in H as (u1 & st2 & Hh & H). injection H as _ <-.
    right. eexists ol, nw, _, _, _. split; [reflexivity|].
    split; [reflexivity|].
    destruct (header st =? ol); injection Hh as _ <-; [right|left];
      reflexivity.
  - injection H as _ <-. left. reflexivity.
Qed.

Lemma SetExpireTime_Done (expired_time : Z) (timestamp : N)
    (st st' : Engine) (r : WriteResult) :
  SetExpireTime expired_time timestamp st = Done r st' ->
  st' = st
  \/ exists size g rest,
       Allocator.first_fit size (free_list st) = Some (g, rest)
       /\ entries st' = entries st /\ ID st' = ID st
       /\ kvdk_debug st' = kvdk_debug st
       /\ forall off r0,
            off <> space_offset g -> memory st !! off = Some r0 ->
            exists r', memory st' !! off = Some r'
                       /\ Value r' = Value r0
                       /\ GetRecordType r' = GetRecordType r0
                       /\ GetRecordStatus r' = GetRecordStatus r0.
Proof.
  unfold SetExpireTime. intros H.
  apply bind_Done in H as (hd & st1 & Hh & H). injection Hh as <- <-.
  apply bind_Done in H as (h & st1 & Hd & H). apply deref_Done in Hd as ->.
  apply bind_Done in H as (g & st1 & Ha & H).
  unfold Allocator.Allocate in Ha.
  destruct (Allocator.first_fit _ _) as [[g' rest]|] eqn:F.
  2:{ injection Ha as <- <-. cbn in H. injection H as _ <-. left. reflexivity. }
  injection Ha as <- <-.
  pose proof (first_fit_grant _ _ _ _ F) as [Hpos _].
  replace (space_size g' =? 0) with false in H
    by (symmetry; apply N.eqb_neq; lia).
  apply bind_Done in H as (ho & st1 & Hho & H). injection Hho as <- <-.
  apply bind_Done in H as (u & st1 & Hm & H). injection Hm as _ <-.
  apply bind_Done in H as (ok & st2 & Hrep & H).
  apply bind_Done in H as (u1 & st3 & Hk & H).
  apply kvdk_assert_Done in Hk as ->. injection H as _ <-.
  right. exists (RecordSize (Key h) (Value h)), g', rest.
  split; [exact F|].
  assert (Hins : forall off r0, off <> space_offset g' ->
            memory st !! off = Some r0 ->
            forall p n nr,
              exists r',
                DLList.link p n (space_offset g')
                  (<[space_offset g' := nr]>
                     (<[space_offset g' :=
                          ConstructDLRecord (space_size g') timestamp
                            RecordType.HashHeader RecordStatus.Normal
                            (header st) (prev h) (next h) (Key h) (Value h)
                            expired_time]> (memory st))) !! off = Some r'
                /\ Value r' = Value r0
                /\ GetRecordType r' = GetRecordType r0
                /\ GetRecordStatus r' = GetRecordStatus r0).
  { intros off r0 Hne Hr0 p n nr.
    rewrite link_lookup, !lookup_insert_ne, Hr0 by congruence.
    cbn [fmap option_fmap option_map]. eexists. split; [reflexivity|].
    destruct (relinked_payload p n (space_offset g') off r0)
      as (_ & -> & _ & _ & _ & -> & -> & _). repeat split. }
  apply Replace_Done in Hrep as [->|(o & nw & p & n & nr & _ & Hnw & [->| ->])].
  - repeat split. intros off r0 Hne Hr0.
    cbn [memory set_memory set_free_list].
    rewrite lookup_insert_ne by congruence. eauto.
  - injection Hnw as <-. repeat split. intros off r0 Hne Hr0.
    apply Hins; assumption.
  - injection Hnw as <-. repeat split. intros off r0 Hne Hr0.
    apply Hins; assumption.
Qed.

(** X16: On an engine whose free allocator chunks hold no record, a
    SetExpireTime that returns does not change what Get returns for any key.
    *)
Theorem SetExpireTime_keeps_elements (expired_time : Z) (timestamp : N)
    (k v0 : string) (st st' : Engine) (r : WriteResult)
    (a : Status.t * string) :
  free_space_unused st ->
  SetExpireTime expired_time timestamp st = Done r st' ->
  Get k v0 st = Done a st ->
  Get k v0 st' = Done a st'.
Proof.
  intros Hfree H HG.
  apply SetExpireTime_Done in H
    as [->|(size & g & rest & F & He & Hid & Hd & Hm)]; [exact HG|].
  revert HG. apply Get_ext; try assumption.
  - rewrite He. reflexivity.
  - intros e off r0 _ _ Hr0. apply Hm; [|exact Hr0].
    intros ->. rewrite (first_fit_unused _ _ _ _ Hfree F) in Hr0. discriminate.
Qed.

(** ** CheckIndex *)

Lemma RecordType_eqb_refl (a : RecordType.t) : RecordType.eqb a a = true.
Proof. destruct a; simpl; try reflexivity. apply N.eqb_refl. Qed.

(** One record of the walk: the three checks pass exactly on an indexed
    record. *)
Lemma indexed_checks (st : Engine) (off : N) (c : DLRecord) :
  memory st !! off = Some c ->
  let ret_ := find false (Key c) (GetRecordType c) st in
  indexed st off
  <-> Status.eqb (HashTable.s ret_) Status.Ok = true
      /\ same_record (dl_record (entry ret_)) (Some off) = true
      /\ DLList.linked (memory st) off = true.
Proof.
  intros Hc ret_. unfold ret_, find, miss, indexed. split.
  - intros (r & e & Hr & He & Hty & Hp & Hl).
    rewrite Hc in Hr. injection Hr as <-.
    rewrite He, Hty, RecordType_eqb_refl. cbn [HashTable.s entry Status.eqb].
    rewrite Hp. cbn [same_record]. rewrite N.eqb_refl. auto.
  - destruct (entries st !! Key c) as [e|] eqn:He;
      [destruct (RecordType.eqb (entry_type e) (GetRecordType c)) eqn:Hty|];
      cbn [HashTable.s entry Status.eqb];
      try (intros [Hf _]; discriminate Hf).
    intros (_ & Hp & Hl). exists c, e.
    split; [exact Hc|]. split; [exact He|].
    split; [apply RecordType_eqb_eq, Hty|]. split; [|exact Hl].
    destruct (dl_record e) as [x|]; [|discriminate].
    cbn [same_record] in Hp. apply N.eqb_eq in Hp. congruence.
Qed.

Lemma check_index_walk_step (fuel : nat) (p : N) (rp : DLRecord)
    (st : Engine) :
  memory st !! p = Some rp ->
  check_index_walk (S fuel) (Some p) st =
    if next rp =? header st then Done Status.Ok st
    else
      match memory st !! next rp with
      | None => Crashed st
      | Some c =>
          let ret_ := find false (Key c) (GetRecordType c) st in
          if negb (Status.eqb (HashTable.s ret_) Status.Ok) then
            Done Status.Abort
              (set_log (log st ++ ["Check hash index error: record not exist in hash table"%string]) st)
          else if negb (same_record (dl_record (entry ret_))
                                    (Some (next rp))) then
            Done Status.Abort
              (set_log (log st ++ ["Check hash index error: Dlrecord miss-match with hash table"%string]) st)
          else if negb (DLList.linked (memory st) (next rp)) then
            Done Status.Abort
              (set_log (log st ++ ["Check hash index error: dl record linkage error"%string]) st)
          else check_index_walk fuel (Some (next rp)) st
      end.
Proof.
  intros Hp. cbn [check_index_walk]. unfold bind at 1. unfold deref at 1.
  rewrite Hp. unfold bind at 1.
  unfold HeaderRecord, DLList.Header, bind at 1, get at 1, ret at 1.
  unfold Allocator.offset2addr_checked. cbn [same_record].
  destruct (next rp =? header st); [reflexivity|].
  unfold bind at 1. unfold deref at 1.
  destruct (memory st !! next rp) as [c|]; [|reflexivity].
  unfold bind at 1. unfold Lookup at 1. cbv zeta.
  destruct (negb (Status.eqb _ _)); [reflexivity|].
  destruct (negb (same_record _ _)); [reflexivity|].
  unfold bind at 1. unfold CheckLinkage, bind at 1, get at 1, ret at 1.
  destruct (negb (DLList.linked _ _)); reflexivity.
Qed.

Lemma follows_inv (st : Engine) (p off : N) (rp : DLRecord) :
  memory st !! p = Some rp ->
  follows st p off ->
  next rp <> header st /\ (off = next rp \/ follows st (next rp) off).
Proof.
  intros Hp H. inversion H as [p' r Hr Hn|p' r off' Hr Hn Hf]; subst;
    rewrite Hp in Hr; injection Hr as <-; auto.
Qed.

Lemma check_index_walk_Done (fuel : nat) (p : N) (st : Engine)
    (s : Status.t) (st' : Engine) :
  check_index_walk fuel (Some p) st = Done s st' ->
  (s = Status.Ok /\ st' = st
   /\ forall off, follows st p off -> indexed st off)
  \/ (s = Status.Abort
      /\ (exists msg, st' = set_log (log st ++ [msg]) st)
      /\ exists off, follows st p off /\ ~ indexed st off).
Proof.
  revert p. induction fuel as [|fuel IH]; intros p; [discriminate|].
  destruct (memory st !! p) as [rp|] eqn:Hp.
  2:{ cbn [check_index_walk]. unfold bind, deref. rewrite Hp. discriminate. }
  rewrite (check_index_walk_step fuel p rp st Hp).
  destruct (next rp =? header st) eqn:Hh.
  { intros [= <- <-]. left. repeat split.
    intros off Hf. apply (follows_inv _ _ _ _ Hp) in Hf as [Hn _].
    apply N.eqb_eq in Hh. contradiction. }
  apply N.eqb_neq in Hh.
  destruct (memory st !! next rp) as [c|] eqn:Hc; [|discriminate].
  pose proof (indexed_checks st (next rp) c Hc) as Hchk. cbv zeta in *.
  assert (Hbad : forall msg,
    ~ indexed st (next rp) ->
    Done Status.Abort (set_log (log st ++ [msg]) st) = Done s st' ->
    s = Status.Abort
    /\ (exists msg, st' = set_log (log st ++ [msg]) st)
    /\ exists off, follows st p off /\ ~ indexed st off).
  { intros msg Hni [= <- <-]. split; [reflexivity|]. split; [eauto|].
    exists (next rp). split; [|exact Hni]. apply (follows_next st p rp Hp Hh). }
  destruct (Status.eqb _ Status.Ok) eqn:C1; cbn [negb].
  2:{ intros H. right. apply (Hbad _ ltac:(rewrite Hchk; intros [[=] _]) H). }
  destruct (same_record _ _) eqn:C2; cbn [negb].
  2:{ intros H. right.
      apply (Hbad _ ltac:(rewrite Hchk; intros (_ & [=] & _)) H). }
  destruct (DLList.linked _ _) eqn:C3; cbn [negb].
  2:{ intros H. right.
      apply (Hbad _ ltac:(rewrite Hchk; intros (_ & _ & [=])) H). }
  assert (Hgood : indexed st (next rp)) by (apply Hchk; auto).
  intros H. apply IH in H as [(-> & -> & Hall)|(-> & Hmsg & off & Hf & Hni)].
  - left. repeat split. intros off Hf.
    apply (follows_inv _ _ _ _ Hp) in Hf as [_ [->|Hf]]; auto.
  - right. split; [reflexivity|]. split; [exact Hmsg|].
    exists off. split; [|exact Hni].
    apply (follows_later st p rp off Hp Hh Hf).
Qed.

(** X17: When CheckIndex returns, either it returns Ok with the engine
    unchanged and every record reached from the header along next, before
    the header comes round, is indexed (the index resolves its key and type
    to that very record, and its neighbours point back at it), or it returns
    Abort having logged exactly one message and some reached record is not
    indexed. *)
Theorem CheckIndex_verdict (fuel : nat) (st : Engine) (s : Status.t)
    (st' : Engine) :
  CheckIndex fuel st = Done s st' ->
  (s = Status.Ok /\ st' = st
   /\ forall off, follows st (header st) off -> indexed st off)
  \/ (s = Status.Abort
      /\ (exists msg, st' = set_log (log st ++ [msg]) st)
      /\ exists off, follows st (header st) off /\ ~ indexed st off).
Proof.
  unfold CheckIndex, HeaderRecord, DLList.Header, bind, get, ret.
  apply check_index_walk_Done.
Qed.

Lemma check_index_walk_ring (fuel : nat) (st : Engine) (offs : list N)
    (p : N) :
  ring st p offs -> (List.length offs < fuel)%nat ->
  check_index_walk fuel (Some p) st = Done Status.Ok st.
Proof.
  revert p fuel. induction offs as [|o offs IH]; intros p fuel Hring Hfuel;
    (destruct fuel as [|fuel]; [simpl in Hfuel; lia|]).
  - destruct Hring as (rp & Hp & Hn).
    rewrite (check_index_walk_step fuel p rp st Hp), Hn, N.eqb_refl.
    reflexivity.
  - destruct Hring as ((rp & Hp & Hn) & Hne & Hidx & Hring).
    rewrite (check_index_walk_step fuel p rp st Hp), Hn.
    replace (o =? header st) with false by (symmetry; apply N.eqb_neq, Hne).
    pose proof Hidx as (c & e & Hc & _). rewrite Hc. cbv zeta.
    apply (indexed_checks st o c Hc) in Hidx as (-> & -> & ->).
    cbn [negb]. apply IH; [exact Hring|simpl in Hfuel; lia].
Qed.

(** X18: If the records from the header round to the header are each
    indexed, CheckIndex with fuel above their number returns Ok and leaves
    the engine unchanged. *)
Theorem CheckIndex_passes_an_indexed_ring (fuel : nat) (st : Engine)
    (offs : list N) :
  ring st (header st) offs ->
  (List.length offs < fuel)%nat ->
  CheckIndex fuel st = Done Status.Ok st.
Proof.
  intros Hring Hfuel.
  unfold CheckIndex, HeaderRecord, DLList.Header, bind, get, ret.
  apply (check_index_walk_ring fuel st offs); assumption.
Qed.

(** ** The ring of records *)

Lemma strung_frame (m m' : gmap N DLRecord) (b : N) (l : list N) (a : N) :
  (forall o, o ∈ l -> m' !! o = m !! o) ->
  strung m b l a -> strung m' b l a.
Proof.
  revert b. induction l as [|o l IH]; intros b Hsame; [auto|].
  intros (r & Hr & Hp & Hn & Hrest). exists r.
  rewrite Hsame by left. repeat split; try assumption.
  apply IH; [|exact Hrest]. intros o' Ho'. apply Hsame. right. exact Ho'.
Qed.

Lemma hd_app_default (a : N) (l1 l2 : list N) :
  hd a (l1 ++ l2) = hd (hd a l2) l1.
Proof. destruct l1; reflexivity. Qed.

Lemma last_cons_default (b o : N) (l : list N) :
  default b (last (o :: l)) = default o (last l).
Proof. destruct l as [|x l]; [reflexivity|]. rewrite last_cons_cons. 
  revert x. induction l as [|y l IH]; intros x; [reflexivity|].
  rewrite !last_cons_cons. apply IH.
Qed.

Lemma strung_app (m : gmap N DLRecord) (b : N) (l1 l2 : list N) (a : N) :
  strung m b (l1 ++ l2) a
  <-> strung m b l1 (hd a l2) /\ strung m (default b (last l1)) l2 a.
Proof.
  revert b. induction l1 as [|o l1 IH]; intros b.
  - simpl. tauto.
  - cbn [app strung]. rewrite last_cons_default. split.
    + intros (r & Hr & Hp & Hn & Hrest). apply IH in Hrest as [H1 H2].
      split; [|exact H2]. exists r. rewrite <- hd_app_default. auto.
    + intros [(r & Hr & Hp & Hn & H1) H2]. exists r.
      rewrite hd_app_default. repeat split; try assumption.
      apply IH. auto.
Qed.

Lemma strung_split (m : gmap N DLRecord) (b : N) (l1 : list N) (o : N)
    (l2 : list N) (a : N) :
  strung m b (l1 ++ o :: l2) a ->
  exists r, m !! o = Some r /\ prev r = default b (last l1)
            /\ next r = hd a l2
            /\ strung m b l1 o /\ strung m o l2 a.
Proof.
  intros H. apply strung_app in H as [H1 (r & Hr & Hp & Hn & H2)].
  exists r. auto.
Qed.

Lemma strung_lookup (m : gmap N DLRecord) (b : N) (l : list N) (a o : N) :
  strung m b l a -> o ∈ l -> is_Some (m !! o).
Proof.
  intros H Ho. apply list_elem_of_split in Ho as (l1 & l2 & ->).
  apply strung_split in H as (r & Hr & _). eauto.
Qed.

(** The records before the splice: the last of them turns to [new]. *)
Lemma strung_relink_last (m m' : gmap N DLRecord) (b : N) (l : list N)
    (x p n new : N) :
  strung m b l x ->
  (forall o, o ∈ l -> m' !! o = relinked p n new o <$> m !! o) ->
  NoDup l -> n ∉ l -> p = default p (last l) ->
  strung m' b l new.
Proof.
  revert b. induction l as [|o l IH]; intros b Hs Hm Hnd Hn Hp; [exact I|].
  destruct Hs as (r & Hr & Hpr & Hnx & Hrest).
  apply NoDup_cons in Hnd as [Ho Hnd].
  apply not_elem_of_cons in Hn as [Hno Hn].
  exists (relinked p n new o r).
  split; [rewrite Hm by left; rewrite Hr; reflexivity|].
  destruct l as [|o2 l].
  - cbn in Hp. subst p. unfold relinked.
    destruct (decide (o = o)), (decide (n = o)); try congruence. cbn. auto.
  - assert (Hpl : p ∈ o2 :: l).
    { rewrite last_cons_cons in Hp.
      destruct (last (o2 :: l)) as [z|] eqn:Hz.
      - cbn in Hp. subst z. apply last_Some_elem_of. exact Hz.
      - apply last_None in Hz. discriminate. }
    assert (p <> o) by (intros ->; contradiction).
    rewrite relinked_elsewhere by congruence.
    repeat split; try assumption.
    apply IH; try assumption.
    intros o' Ho'. apply Hm. right. exact Ho'.
Qed.

(** The records after the splice: the first of them turns back to
    [new]. *)
Lemma strung_relink_first (m m' : gmap N DLRecord) (y : N) (l : list N)
    (a p n new : N) :
  strung m y l a ->
  (forall o, o ∈ l -> m' !! o = relinked p n new o <$> m !! o) ->
  NoDup l -> p ∉ l -> n = hd n l ->
  strung m' new l a.
Proof.
  intros Hs Hm Hnd Hp Hn. destruct l as [|o l]; [exact I|].
  cbn [hd] in Hn. subst n.
  destruct Hs as (r & Hr & Hpr & Hnx & Hrest).
  apply NoDup_cons in Hnd as [Ho Hnd].
  apply not_elem_of_cons in Hp as [Hpo Hp].
  exists (relinked p o new o r).
  split; [rewrite Hm by left; rewrite Hr; reflexivity|].
  unfold relinked.
  destruct (decide (p = o)), (decide (o = o)); try congruence. cbn.
  repeat split; try assumption.
  apply (strung_frame m); [|exact Hrest].
  intros o' Ho'. rewrite Hm by (right; exact Ho').
  destruct (m !! o') as [r'|]; [|reflexivity]. cbn.
  rewrite relinked_elsewhere; [reflexivity| |]; intros ->; contradiction.
Qed.

Lemma relinked_next p n new off r :
  next (relinked p n new off r) = if decide (p = off) then new else next r.
Proof.
  unfold relinked. destruct (decide (p = off)), (decide (n = off)); reflexivity.
Qed.

Lemma relinked_prev p n new off r :
  prev (relinked p n new off r) = if decide (n = off) then new else prev r.
Proof.
  unfold relinked. destruct (decide (p = off)), (decide (n = off)); reflexivity.
Qed.

Lemma last_middle_default (b x : N) (l1 l2 : list N) :
  default b (last (l1 ++ x :: l2)) = default x (last l2).
Proof.
  revert b. induction l1 as [|a l1 IH]; intros b.
  - apply last_cons_default.
  - cbn [app]. rewrite last_cons_default. apply IH.
Qed.

Lemma default_last_elem (b : N) (l : list N) :
  default b (last l) ∈ b :: l.
Proof.
  destruct (last l) as [z|] eqn:Hz; cbn; [|left].
  right. apply last_Some_elem_of. exact Hz.
Qed.

Lemma hd_elem (a : N) (l : list N) : hd a l ∈ a :: l.
Proof. destruct l; cbn; [left|right; left]. Qed.

Lemma NoDup_drop_mid (l1 mid l2 : list N) :
  NoDup (l1 ++ mid ++ l2) -> NoDup (l1 ++ l2).
Proof.
  rewrite !NoDup_app. intros (H1 & H12 & Hm & Hm2 & H2).
  split; [exact H1|]. split; [|exact H2].
  intros x Hx Hx2. apply (H12 x Hx). apply elem_of_app. right. exact Hx2.
Qed.

(** A record spliced into the ring, in the place of [mid] or between two
    neighbours, and entered in the index under its key. *)
Lemma splice_listed (st st' : Engine) (l1 mid l2 : list N) (new : N)
    (R : DLRecord) (ne : HashEntry) (p n : N) (ikey : string) :
  listed st (l1 ++ mid ++ l2) ->
  memory st !! new = None ->
  memory st' = DLList.link p n new (<[new := R]> (memory st)) ->
  entries st' = <[ikey := ne]> (entries st) ->
  header st' = header st ->
  prev R = p -> next R = n -> Key R = ikey ->
  GetRecordType R = RecordType.HashElem ->
  entry_type ne = RecordType.HashElem -> dl_record ne = Some new ->
  p = default (header st) (last l1) -> n = hd (header st) l2 ->
  (forall o r, o ∈ l1 ++ l2 -> memory st !! o = Some r -> Key r <> ikey) ->
  (forall o r, o ∈ mid -> memory st !! o = Some r -> Key r = ikey) ->
  listed st' (l1 ++ new :: l2).
Proof.
  intros ((Hnd & (h & Hh & Hhn & Hhp) & Hs) & He & Hf) Hnew Hm He' Hhd
    HpR HnR HkR HtR Hte Hde Hp Hn Hk Hmid.
  assert (Hnew_hdr : header st <> new) by (intros E; congruence).
  assert (Hnew_offs : forall o, o ∈ l1 ++ mid ++ l2 -> o <> new).
  { intros o Ho E. destruct (He o Ho) as (r & _ & Hr & _). congruence. }
  assert (Hsub : forall o, o ∈ l1 ++ l2 -> o ∈ l1 ++ mid ++ l2).
  { intros o. rewrite !elem_of_app. tauto. }
  assert (Hlook : forall o, o <> new ->
            memory st' !! o = relinked p n new o <$> memory st !! o).
  { intros o Ho. rewrite Hm, link_lookup, lookup_insert_ne by congruence.
    reflexivity. }
  apply NoDup_cons in Hnd as [Hhdr Hnd].
  pose proof (NoDup_drop_mid _ _ _ Hnd) as Hnd12.
  assert (Hhdr12 : header st ∉ l1 ++ l2) by (intros E; apply Hhdr, Hsub, E).
  apply NoDup_app in Hnd12 as (Hnd1 & Hdisj & Hnd2).
  assert (Hp_in : p ∈ header st :: l1) by (rewrite Hp; apply default_last_elem).
  assert (Hn_in : n ∈ header st :: l2) by (rewrite Hn; apply hd_elem).
  assert (Hp_new : p <> new).
  { intros E. apply elem_of_cons in Hp_in as [Hp0|Hp1]; [congruence|].
    apply (Hnew_offs p); [|exact E]. apply elem_of_app. left. exact Hp1. }
  assert (Hn_new : n <> new).
  { intros E. apply elem_of_cons in Hn_in as [Hn0|Hn1]; [congruence|].
    apply (Hnew_offs n); [|exact E]. rewrite !elem_of_app. auto. }
  assert (Hn_l1 : n ∉ l1).
  { intros E. apply elem_of_cons in Hn_in as [Hn0|Hn1].
    - apply Hhdr12. rewrite <- Hn0. apply elem_of_app. left. exact E.
    - apply (Hdisj n E Hn1). }
  assert (Hp_l2 : p ∉ l2).
  { intros E. apply elem_of_cons in Hp_in as [Hp0|Hp1].
    - apply Hhdr12. rewrite <- Hp0. apply elem_of_app. right. exact E.
    - apply (Hdisj p Hp1 E). }
  assert (Hnew_R : memory st' !! new = Some R).
  { rewrite Hm, link_lookup, lookup_insert_eq. cbn.
    rewrite relinked_elsewhere by assumption. reflexivity. }
  apply strung_app in Hs as [Hs1 Hs2].
  apply strung_app in Hs2 as [_ Hs2].
  split; [split; [|split]|split].
  - rewrite Hhd, <- Permutation_middle.
    apply NoDup_cons. split.
    + rewrite not_elem_of_cons. split; [exact Hnew_hdr|exact Hhdr12].
    + apply NoDup_cons. split.
      * intros E. apply (Hnew_offs new (Hsub _ E)). reflexivity.
      * apply NoDup_app. auto.
  - rewrite Hhd. exists (relinked p n new (header st) h).
    split; [rewrite Hlook, Hh by exact Hnew_hdr; reflexivity|].
    rewrite relinked_next, relinked_prev, last_middle_default. split.
    + destruct l1 as [|a l1].
      * rewrite decide_True by exact Hp. reflexivity.
      * rewrite decide_False; [exact Hhn|].
        intros E. apply Hhdr12. rewrite <- E, Hp, last_cons_default.
        apply elem_of_app. left. apply default_last_elem.
    + destruct l2 as [|a l2].
      * rewrite decide_True by exact Hn. reflexivity.
      * rewrite decide_False.
        -- rewrite Hhp. rewrite (app_assoc l1 mid (a :: l2)).
           rewrite last_middle_default, last_cons_default. reflexivity.
        -- intros E. apply Hhdr12. rewrite <- E, Hn.
           apply elem_of_app. right. left.
  - rewrite Hhd. apply strung_app. split.
    + cbn [hd].
      apply (strung_relink_last (memory st) _ _ _ _ p n) with (1 := Hs1);
        auto.
      * intros o Ho. apply Hlook, Hnew_offs. apply elem_of_app. auto.
      * rewrite Hp. destruct (last l1); reflexivity.
    + exists R. split; [exact Hnew_R|]. split; [congruence|].
      split; [congruence|].
      apply (strung_relink_first (memory st) _ _ _ _ p n) with (1 := Hs2);
        auto.
      * intros o Ho. apply Hlook, Hnew_offs. rewrite !elem_of_app. auto.
      * rewrite Hn. destruct l2; reflexivity.
  - intros o Ho. apply elem_of_app in Ho. rewrite elem_of_cons in Ho.
    destruct Ho as [Ho|[->|Ho]].
    2:{ exists R, ne. rewrite He', HkR, lookup_insert_eq. auto. }
    all: assert (Ho12 : o ∈ l1 ++ l2) by (apply elem_of_app; auto);
      destruct (He o (Hsub o Ho12)) as (r & e & Hr & Hty & Hke & Hte' & Hde');
      exists (relinked p n new o r), e;
      rewrite Hlook, Hr by (apply Hnew_offs, Hsub, Ho12);
      destruct (relinked_payload p n new o r)
        as (-> & _ & _ & _ & _ & -> & _);
      rewrite He', lookup_insert_ne by (intros E; apply (Hk o r Ho12 Hr);
                                        congruence);
      auto.
  - intros k e Hke Hty. rewrite He' in Hke.
    destruct (decide (k = ikey)) as [->|Hne].
    + rewrite lookup_insert_eq in Hke. injection Hke as <-.
      exists new, R. split; [exact Hde|]. split; [|auto].
      apply elem_of_app. right. left.
    + rewrite lookup_insert_ne in Hke by congruence.
      destruct (Hf k e Hke Hty) as (o & r & Hd & Ho & Hr & Hkr).
      exists o, (relinked p n new o r).
      split; [exact Hd|].
      split.
      * rewrite !elem_of_app in Ho. rewrite elem_of_app, elem_of_cons.
        destruct Ho as [Ho|[Ho|Ho]]; auto.
        exfalso. apply Hne. rewrite <- Hkr. apply (Hmid o r Ho Hr).
      * rewrite Hlook, Hr by (apply Hnew_offs, Ho).
        destruct (relinked_payload p n new o r) as (-> & _). auto.
Qed.

Lemma well_linked_neighbours (st : Engine) (l1 : list N) (o : N)
    (l2 : list N) :
  well_linked st (l1 ++ o :: l2) ->
  exists r rp rn,
    memory st !! o = Some r
    /\ prev r = default (header st) (last l1)
    /\ next r = hd (header st) l2
    /\ memory st !! prev r = Some rp /\ next rp = o
    /\ memory st !! next r = Some rn /\ prev rn = o.
Proof.
  intros (Hnd & (h & Hh & Hhn & Hhp) & Hs).
  pose proof Hs as Hs0.
  apply strung_split in Hs as (r & Hr & Hp & Hn & Hs1 & Hs2).
  assert (Hrp : exists rp, memory st !! prev r = Some rp /\ next rp = o).
  { rewrite Hp. destruct (last l1) as [z|] eqn:Hz.
    - apply last_Some in Hz as [l1' ->]. cbn.
      rewrite <- app_assoc in Hs0. cbn in Hs0.
      apply strung_split in Hs0 as (rz & Hrz & _ & Hnz & _). exists rz. auto.
    - apply last_None in Hz as ->. cbn. exists h. auto. }
  assert (Hrn : exists rn, memory st !! next r = Some rn /\ prev rn = o).
  { rewrite Hn. destruct l2 as [|z l2].
    - cbn. exists h. split; [exact Hh|].
      rewrite Hhp, last_middle_default. reflexivity.
    - cbn. destruct Hs2 as (rz & Hrz & Hpz & _). exists rz. auto. }
  destruct Hrp as (rp & Hrp & Hnp), Hrn as (rn & Hrn & Hpn).
  exists r, rp, rn. auto 10.
Qed.

(** A ring that goes with the index is one [CheckIndex] accepts. *)
Lemma listed_ring_from (st : Engine) (l1 l2 : list N) :
  listed st (l1 ++ l2) -> ring st (default (header st) (last l1)) l2.
Proof.
  revert l1. induction l2 as [|o l2 IH]; intros l1 HL.
  - cbn. rewrite app_nil_r in HL.
    destruct HL as ((Hnd & (h & Hh & Hhn & Hhp) & Hs) & _).
    destruct (last l1) as [z|] eqn:Hz.
    + apply last_Some in Hz as [l1' ->].
      apply strung_split in Hs as (rz & Hrz & _ & Hnz & _). exists rz. auto.
    + apply last_None in Hz as ->. exists h. auto.
  - pose proof HL as (HW & He & _).
    destruct (well_linked_neighbours _ _ _ _ HW)
      as (r & rp & rn & Hr & Hp & Hn & Hrp & Hnp & Hrn & Hpn).
    cbn [ring]. split; [exists rp; rewrite <- Hp; auto|].
    split.
    { destruct HW as (Hnd & _). apply NoDup_cons in Hnd as [Hhdr _].
      intros ->. apply Hhdr. apply elem_of_app. right. left. }
    split.
    + destruct (He o) as (r' & e & Hr' & Hty & Hke & Hte & Hde).
      { apply elem_of_app. right. left. }
      rewrite Hr in Hr'. injection Hr' as <-.
      exists r, e. split; [exact Hr|]. split; [exact Hke|].
      split; [congruence|]. split; [exact Hde|].
      unfold DLList.linked. rewrite Hr, Hrp, Hrn, Hnp, Hpn, !N.eqb_refl.
      reflexivity.
    + specialize (IH (l1 ++ [o])). rewrite last_snoc in IH. cbn in IH.
      apply IH. rewrite <- app_assoc. exact HL.
Qed.

Lemma listed_ring (st : Engine) (offs : list N) :
  listed st offs -> ring st (header st) offs.
Proof. apply (listed_ring_from st [] offs). Qed.

(** The write of [Put] and [Delete] on the ring: the record goes where
    [splice_point] says, and the index entry of its key turns to it. *)
Lemma written_listed (st st' : Engine) (offs : list N) (ikey : string)
    (update : bool) (existing : ptr) (older p n new : N) (R : DLRecord)
    (ne : HashEntry) :
  listed st offs ->
  splice_point st update existing older p n ->
  (if update
   then exists e, entries st !! ikey = Some e
                  /\ entry_type e = RecordType.HashElem
                  /\ dl_record e = existing
   else forall e, entries st !! ikey = Some e ->
                  entry_type e <> RecordType.HashElem) ->
  memory st !! new = None ->
  memory st' = DLList.link p n new (<[new := R]> (memory st)) ->
  entries st' = <[ikey := ne]> (entries st) ->
  header st' = header st ->
  prev R = p -> next R = n -> Key R = ikey ->
  GetRecordType R = RecordType.HashElem ->
  entry_type ne = RecordType.HashElem -> dl_record ne = Some new ->
  exists offs', listed st' offs' /\ (List.length offs' <= S (List.length offs))%nat.
Proof.
  intros HL Hsp Hidx Hnew Hm He' Hhd HpR HnR HkR HtR Hte Hde.
  pose proof HL as (HW & He & Hf).
  destruct update.
  - destruct Hsp as (old & Hex & Hold & _ & Hp & Hn).
    destruct Hidx as (e & Hke & Hty & Hd).
    destruct (Hf ikey e Hke Hty) as (o & r & Hdo & Ho & Hr & Hkr).
    assert (o = older) by congruence. subst o.
    apply list_elem_of_split in Ho as (l1 & l2 & ->).
    destruct (well_linked_neighbours _ _ _ _ HW)
      as (r0 & _ & _ & Hr0 & Hp0 & Hn0 & _).
    assert (r0 = old) by congruence. subst r0.
    assert (r = old) by congruence. subst r.
    exists (l1 ++ new :: l2). split.
    + apply (splice_listed st st' l1 [older] l2 new R ne p n ikey); auto;
        try congruence.
      * intros o r1 Ho Hr1 Hk'.
        destruct (He o) as (r' & e' & Hr' & _ & Hke' & _ & Hde').
        { rewrite elem_of_app in Ho. rewrite elem_of_app, elem_of_cons.
          tauto. }
        assert (r' = r1) by congruence. subst r'.
        rewrite Hk' in Hke'. assert (e' = e) by congruence. subst e'.
        assert (o = older) by congruence. subst o.
        destruct HW as (Hnd & _). apply NoDup_cons in Hnd as [_ Hnd].
        apply NoDup_app in Hnd as (_ & Hd1 & Hnd2).
        apply NoDup_cons in Hnd2 as [Hx _].
        apply elem_of_app in Ho as [Ho|Ho]; [|contradiction].
        apply (Hd1 older Ho). left.
      * intros o r1 Ho Hr1. apply list_elem_of_singleton in Ho as ->.
        congruence.
    + rewrite !length_app. cbn. lia.
  - destruct Hsp as (h & Hh & _ & Hpn).
    destruct HW as (Hnd & (h' & Hh' & Hhn & Hhp) & Hs).
    assert (h' = h) by congruence. subst h'.
    assert (Hk : forall o r, o ∈ offs -> memory st !! o = Some r ->
                   Key r <> ikey).
    { intros o r Ho Hr Hk'.
      destruct (He o Ho) as (r' & e' & Hr' & _ & Hke' & Hte' & _).
      assert (r' = r) by congruence. subst r'.
      rewrite Hk' in Hke'. exact (Hidx e' Hke' Hte'). }
    destruct Hpn as [[Hp Hn]|[Hp Hn]].
    + exists (offs ++ [new]). split.
      * apply (splice_listed st st' offs [] [] new R ne p n ikey); auto.
        -- cbn. rewrite app_nil_r. exact HL.
        -- congruence.
        -- intros o r Ho. rewrite app_nil_r in Ho. eauto.
        -- intros o r Ho. apply elem_of_nil in Ho. contradiction.
      * rewrite length_app. cbn. lia.
    + exists (new :: offs). split.
      * apply (splice_listed st st' [] [] offs new R ne p n ikey); auto.
        -- congruence.
        -- intros o r Ho. apply elem_of_nil in Ho. contradiction.
      * cbn. lia.
Qed.

Lemma writes_keep_listed (fuel : nat) (k v : string) (t : N)
    (st st' : Engine) (r : WriteResult) (offs : list N) :
  consistent st -> listed st offs ->
  Put fuel k v t st = Done r st' \/ Delete fuel k t st = Done r st' ->
  exists offs',
    listed st' offs' /\ (List.length offs' <= S (List.length offs))%nat.
Proof.
  intros Hc HL H.
  destruct Hc as (Hunused & _).
  destruct H as [H|H].
  - apply Put_Done_sized in H as [[-> _]|H]; [exists offs; auto|].
    destruct H as (g & rest & older & p & n & rcs & d & b & F & Hs & Hsp
                   & [_ ->] & _).
    pose proof (first_fit_unused _ _ _ _ Hunused F) as Hnew.
    eapply (written_listed st _ offs (InternalKey (ID st) k) _ _ older p n
              (space_offset g)); try exact Hsp; try exact HL;
      try exact Hnew;
      try (destruct b; reflexivity).
    destruct (HashTable.s _) eqn:Hlr; cbn [Status.eqb];
      try (intros e Hke Hty;
           rewrite (find_hit true _ RecordType.HashElem st e Hke) in Hlr
             by (rewrite Hty; reflexivity);
           discriminate Hlr).
    apply find_Ok in Hlr as [Hke Hty]. apply RecordType_eqb_eq in Hty.
    eexists. split; [exact Hke|]. split; [exact Hty|reflexivity].
  - apply Delete_Done_sized in H as [[-> _]|H]; [exists offs; auto|].
    destruct H as (e & g & rest & older & p & n & rcs & d & b & Hke & Hlive
                   & F & Hsp & [_ ->] & _).
    pose proof (first_fit_unused _ _ _ _ Hunused F) as Hnew.
    eapply (written_listed st _ offs (InternalKey (ID st) k) true _ older
              p n (space_offset g)); try exact Hsp; try exact HL;
      try exact Hnew;
      try (destruct b; reflexivity).
    exists e. split; [exact Hke|]. split; [|reflexivity].
    unfold live in Hlive. apply andb_true_iff in Hlive as [Hty _].
    apply RecordType_eqb_eq, Hty.
Qed.

(** X5: If the list is a well-linked ring through the header whose records
    and hash-element index entries correspond one to one, then after a Put
    or Delete that returns it still is, with at most one record more, and
    CheckIndex with fuel above the ring's length returns Ok and leaves the
    engine unchanged. *)
Theorem writes_keep_the_list_indexed (fuel : nat) (k v : string) (t : N)
    (st st' : Engine) (r : WriteResult) (offs : list N) :
  consistent st -> listed st offs ->
  Put fuel k v t st = Done r st' \/ Delete fuel k t st = Done r st' ->
  exists offs',
    listed st' offs' /\ (List.length offs' <= S (List.length offs))%nat
    /\ forall f, (List.length offs' < f)%nat ->
                 CheckIndex f st' = Done Status.Ok st'.
Proof.
  intros Hc HL H.
  destruct (writes_keep_listed fuel k v t st st' r offs Hc HL H)
    as (offs' & HL' & Hlen).
  exists offs'.
  split; [exact HL'|]. split; [exact Hlen|].
  intros f Hf.
  unfold CheckIndex, HeaderRecord, DLList.Header, bind, get, ret.
  apply (check_index_walk_ring f st' offs'); [|exact Hf].
  apply listed_ring, HL'.
Qed.

(** ** Writes on a sound engine return *)

Lemma listed_entry (st : Engine) (offs : list N) (k : string)
    (e : HashEntry) :
  listed st offs ->
  entries st !! k = Some e -> entry_type e = RecordType.HashElem ->
  exists off old,
    dl_record e = Some off /\ memory st !! off = Some old
    /\ DLList.linked (memory st) off = true.
Proof.
  intros HL Hk Hty. pose proof HL as (HW & _ & Hf).
  destruct (Hf k e Hk Hty) as (o & r & Hd & Ho & Hr & _).
  exists o, r. split; [exact Hd|]. split; [exact Hr|].
  apply list_elem_of_split in Ho as (l1 & l2 & ->).
  destruct (well_linked_neighbours _ _ _ _ HW)
    as (r0 & rp & rn & Hr0 & _ & _ & Hrp & Hnp & Hrn & Hpn).
  unfold DLList.linked. rewrite Hr0, Hrp, Hrn, Hnp, Hpn, !N.eqb_refl.
  reflexivity.
Qed.

Lemma live_size_pos (st : Engine) (k : string) (e : HashEntry) :
  entries st !! k = Some e -> live e = true ->
  (1 <= Z.of_nat (size (live_elems st)))%Z.
Proof.
  intros Hk Hl.
  assert (H : size (live_elems st) <> O).
  { apply (map_size_ne_0_lookup_2 _ k). unfold live_elems.
    rewrite live_lookup, Hk, Hl. eauto. }
  lia.
Qed.

(** X6: On a consistent engine with such a ring, with fuel above the number
    of link-lock races Update will lose and, in a debug build, a timestamp
    newer than the record the index holds for the key, Put and Delete both
    return (they neither stop the process nor spin), with status Ok, or with
    MemoryOverflow and the engine unchanged. *)
Theorem writes_return_on_a_sound_engine (fuel : nat) (k v : string) (t : N)
    (st : Engine) (offs : list N) :
  consistent st -> listed st offs ->
  (DLList.lost_races (races st) < fuel)%nat ->
  (kvdk_debug st = true ->
   forall e off old,
     entries st !! InternalKey (ID st) k = Some e ->
     dl_record e = Some off -> memory st !! off = Some old ->
     GetTimestamp old < t) ->
  (exists r st',
      Put fuel k v t st = Done r st'
      /\ (HashList.s r = Status.Ok
          \/ HashList.s r = Status.MemoryOverflow /\ st' = st))
  /\ (exists r st',
        Delete fuel k t st = Done r st'
        /\ (HashList.s r = Status.Ok
            \/ HashList.s r = Status.MemoryOverflow /\ st' = st)).
Proof.
  intros Hc HL Hfuel Hts.
  pose proof Hc as (Hunused & _ & _ & _ & _ & Hsize).
  pose proof HL as ((_ & (h & Hh & _) & _) & _).
  split.
  - rewrite Put_run. cbv zeta.
    destruct (entries st !! InternalKey (ID st) k) as [e|] eqn:Hke;
      [destruct (RecordType.eqb (entry_type e) RecordType.HashElem) eqn:Hty|].
    + rewrite (find_hit true _ _ st e Hke Hty). cbn [HashTable.s].
      destruct (Allocator.first_fit _ _) as [[g rest]|] eqn:F;
        [|eexists _, _; split; [reflexivity|right; split; reflexivity]].
      apply RecordType_eqb_eq in Hty.
      destruct (listed_entry st offs _ e HL Hke Hty)
        as (off & old & Hd & Hold & Hlinked).
      pose proof (first_fit_unused _ _ _ _ Hunused F) as Hnew.
      eexists _, _. split.
      * apply (Write_put_existing fuel _ (set_free_list rest st) off old
                 (InternalKey (ID st) k)); try reflexivity; try assumption.
        -- intros D. exact (Hts D e off old eq_refl Hd Hold).
        -- cbn [space]. intros E. congruence.
      * left. reflexivity.
    + unfold find. rewrite Hke, Hty. unfold miss.
      destruct (_ <? _)%nat; cbn [HashTable.s];
        [|eexists _, _; split; [reflexivity|right; split; reflexivity]].
      destruct (Allocator.first_fit _ _) as [[g rest]|] eqn:F;
        [|eexists _, _; split; [reflexivity|right; split; reflexivity]].
      eexists _, _. split.
      * apply (Write_put_new fuel _ (set_free_list rest st) h
                 (InternalKey (ID st) k)); try reflexivity. exact Hh.
      * left. reflexivity.
    + unfold find. rewrite Hke. unfold miss.
      destruct (_ <? _)%nat; cbn [HashTable.s];
        [|eexists _, _; split; [reflexivity|right; split; reflexivity]].
      destruct (Allocator.first_fit _ _) as [[g rest]|] eqn:F;
        [|eexists _, _; split; [reflexivity|right; split; reflexivity]].
      eexists _, _. split.
      * apply (Write_put_new fuel _ (set_free_list rest st) h
                 (InternalKey (ID st) k)); try reflexivity. exact Hh.
      * left. reflexivity.
  - rewrite Delete_run. cbv zeta.
    destruct (entries st !! InternalKey (ID st) k) as [e|] eqn:Hke;
      [destruct (RecordType.eqb (entry_type e) RecordType.HashElem) eqn:Hty|].
    + rewrite (find_hit false _ _ st e Hke Hty).
      cbn [HashTable.s entry Status.eqb andb].
      destruct (RecordStatus.eqb (entry_status e) RecordStatus.Normal)
        eqn:Hst;
        [|eexists _, _; split; [reflexivity|left; reflexivity]].
      destruct (Allocator.first_fit _ _) as [[g rest]|] eqn:F;
        [|eexists _, _; split; [reflexivity|right; split; reflexivity]].
      assert (Hlive : live e = true) by (unfold live; rewrite Hty, Hst; reflexivity).
      apply RecordType_eqb_eq in Hty.
      destruct (listed_entry st offs _ e HL Hke Hty)
        as (off & old & Hd & Hold & Hlinked).
      pose proof (first_fit_unused _ _ _ _ Hunused F) as Hnew.
      pose proof (first_fit_grant _ _ _ _ F) as [_ Hgrant].
      eexists _, _. split.
      * apply (Write_delete_existing fuel _ (set_free_list rest st) off old
                 (InternalKey (ID st) k)); try reflexivity; try assumption.
        -- intros _. cbn [lookup_result HashTable.s entry].
           split; [reflexivity|]. split; [exact Hty|].
           destruct (entry_status e); try discriminate Hst; reflexivity.
        -- intros _. exact Hgrant.
        -- intros D. exact (Hts D e off old eq_refl Hd Hold).
        -- cbn [space]. intros E. congruence.
        -- intros _. cbn [size_ set_free_list]. rewrite Hsize.
           exact (live_size_pos st _ e Hke Hlive).
      * left. reflexivity.
    + unfold find. rewrite Hke, Hty. cbn.
      eexists _, _. split; [reflexivity|left; reflexivity].
    + unfold find. rewrite Hke. cbn.
      eexists _, _. split; [reflexivity|left; reflexivity].
Qed.

(** ** Timestamps must grow *)

Lemma stale_timestamp_asserted (p : ptr) (off : N) (old : DLRecord)
    (timestamp : N) (st : Engine) :
  kvdk_debug st = true ->
  p = Some off -> memory st !! off = Some old ->
  timestamp <= GetTimestamp old ->
  kvdk_assert_reading
    (e <- deref p ;; ret (GetTimestamp e <? timestamp)) st = Crashed st.
Proof.
  intros D -> Hold Hts.
  unfold kvdk_assert_reading, bind, get, deref, ret, kvdk_assert.
  rewrite D, Hold, D.
  rewrite (proj2 (N.ltb_ge _ _) Hts). reflexivity.
Qed.

(** X7: In a debug build, when the index holds a hash element for the key
    whose record carries a timestamp not older than the write's, Put (for
    any chunk the allocator grants) and Delete (when the entry is Normal)
    stop the process on the timestamp assertion, after the chunk has been
    taken from the allocator and before anything is written. *)
Theorem stale_timestamp_stops_debug_build (fuel : nat) (k v : string)
    (t : N) (st : Engine) (e : HashEntry) (off : N) (old : DLRecord) :
  let internal_key := InternalKey (ID st) k in
  kvdk_debug st = true ->
  entries st !! internal_key = Some e ->
  entry_type e = RecordType.HashElem ->
  dl_record e = Some off -> memory st !! off = Some old ->
  t <= GetTimestamp old ->
  (forall g rest,
      Allocator.first_fit (RecordSize internal_key v) (free_list st)
        = Some (g, rest) ->
      Put fuel k v t st = Crashed (set_free_list rest st))
  /\ (forall g rest,
        entry_status e = RecordStatus.Normal ->
        Allocator.first_fit (RecordSize internal_key EmptyString)
                            (free_list st) = Some (g, rest) ->
        Delete fuel k t st = Crashed (set_free_list rest st)).
Proof.
  intros ikey D Hke Hty Hd Hold Hts.
  assert (Hhit : forall b, find b ikey RecordType.HashElem st
                 = {| HashTable.s := Status.Ok; entry := e;
                      entry_ptr := Some ikey |}).
  { intros b. apply find_hit; [exact Hke|]. rewrite Hty. reflexivity. }
  split.
  - intros g rest F. rewrite Put_run. cbv zeta. fold ikey.
    rewrite Hhit, F. cbn [HashTable.s].
    unfold Write, bind at 1, get at 1. cbn [hlist this set_free_list op].
    rewrite N.eqb_refl. cbn [negb].
    unfold bind at 1. unfold putPrepared, bind at 1, get at 1.
    cbn [lookup_result HashTable.s Status.eqb entry].
    unfold bind at 1. unfold bind at 1.
    cbn [collection key value op hlist space ts lookup_result].
    rewrite (stale_timestamp_asserted _ off old t (set_free_list rest st) D Hd Hold Hts).
    reflexivity.
  - intros g rest Hst F. rewrite Delete_run. cbv zeta. fold ikey.
    rewrite Hhit. cbn [HashTable.s entry Status.eqb andb]. rewrite Hst, F.
    cbn [RecordStatus.eqb].
    pose proof (first_fit_grant _ _ _ _ F) as [_ Hgrant].
    unfold Write, bind at 1, get at 1. cbn [hlist this set_free_list op].
    rewrite N.eqb_refl. cbn [negb].
    unfold bind at 1. unfold deletePrepared, bind at 1, get at 1.
    cbn [lookup_result HashTable.s Status.eqb entry].
    rewrite Hty, Hst. cbn [RecordType.eqb RecordStatus.eqb andb].
    unfold bind at 1. rewrite kvdk_assert_holds by reflexivity.
    unfold bind at 1. unfold std_assert at 1.
    cbn [collection key value op hlist space ts lookup_result ID
         set_free_list]. fold ikey.
    rewrite (proj2 (N.leb_le _ _) Hgrant). cbn [negb andb].
    rewrite andb_false_r.
    unfold bind at 1.
    rewrite (stale_timestamp_asserted _ off old t (set_free_list rest st) D Hd Hold Hts).
    reflexivity.
Qed.

(** ** Old versions stay as they are *)

(** X8: On an engine whose free allocator chunks hold no record, a Put or
    Delete that returns neither removes nor rewrites any record already in
    the arena: each keeps its key, value, timestamp, expire time,
    old_version, type, status and size, so older versions stay readable
    (only the prev/next links of the neighbours change). *)
Theorem writes_keep_existing_records (fuel : nat) (k v : string) (t : N)
    (st st' : Engine) (r : WriteResult) (off : N) (old : DLRecord) :
  free_space_unused st ->
  Put fuel k v t st = Done r st' \/ Delete fuel k t st = Done r st' ->
  memory st !! off = Some old ->
  exists old',
    memory st' !! off = Some old'
    /\ Key old' = Key old /\ Value old' = Value old
    /\ GetTimestamp old' = GetTimestamp old
    /\ GetExpireTime old' = GetExpireTime old
    /\ old_version old' = old_version old
    /\ GetRecordType old' = GetRecordType old
    /\ GetRecordStatus old' = GetRecordStatus old
    /\ GetRecordSize old' = GetRecordSize old.
Proof.
  intros Hunused H Hold.
  assert (HW : st' = st
               \/ exists g rest slot status wargs older p n rcs d z size,
                    Allocator.first_fit size (free_list st) = Some (g, rest)
                    /\ DLList.space wargs = g
                    /\ st' = written slot status wargs older p n rcs d z
                               (set_free_list rest st)).
  { destruct H as [H|H].
    - apply Put_Done in H as [[-> _]|H]; [left; reflexivity|right].
      destruct H as (g & rest & older & p & n & rcs & d & z & F & -> & _).
      exists g, rest. do 10 eexists. split; [exact F|].
      split; [|reflexivity]. reflexivity.
    - apply Delete_Done in H as [[-> _]|H]; [left; reflexivity|right].
      destruct H as (g & rest & older & p & n & rcs & d & z & F & -> & _).
      exists g, rest. do 10 eexists. split; [exact F|].
      split; [|reflexivity]. reflexivity. }
  destruct HW as [->|HW].
  { exists old. repeat split. exact Hold. }
  destruct HW as (g & rest & slot & status & wargs & older & p & n & rcs & d
                  & z & size & F & Hg & ->).
  pose proof (first_fit_unused _ _ _ _ Hunused F) as Hnew.
  exists (relinked p n (space_offset (DLList.space wargs)) off old).
  split.
  - unfold written, inserted, DLList.spliced.
    cbn [memory set_size set_entries set_memory set_random_drawn set_races
         set_free_list].
    rewrite link_lookup, lookup_insert_ne by (rewrite Hg; congruence).
    rewrite Hold. reflexivity.
  - exact (relinked_payload p n (space_offset (DLList.space wargs)) off old).
Qed.

(** * Destroy and DestroyAll *)




Lemma same_payload_refl (r : DLRecord) : same_payload r r.
Proof. repeat split. Qed.



Lemma Remove_unlinked (e : Engine) (off : N) (r : DLRecord) :
  memory e !! off = Some r -> DLList.linked (memory e) off = false ->
  Teardown.Remove (Some off) e = Done false e.
Proof.
  intros Hr Hl. unfold Teardown.Remove, bind, deref, get, modify, ret.
  rewrite Hr, Hl. reflexivity.
Qed.

Lemma lift_Done {A} (m : EM A) (st : Teardown.State) (a : A) (e : Engine) :
  m (Teardown.engine st) = Done a e ->
  Teardown.lift m st = Done a (Teardown.set_engine e st).
Proof. unfold Teardown.lift. intros ->. reflexivity. Qed.


Section TeardownRuns.
Import Teardown.

Lemma lift_deref (e : Engine) (hl : gmap N N) (d : list N)
    (f : list SpaceEntry) (o : N) (r : DLRecord) :
  memory e !! o = Some r ->
  lift (deref (Some o)) (Build_State e hl d f) = Done r (Build_State e hl d f).
Proof. intros Hr. unfold lift, deref. cbn [engine]. rewrite Hr. reflexivity. Qed.







End TeardownRuns.

Section DestroyRuns.
Import Teardown.
Variable kMax : nat.


End DestroyRuns.


(** X20: When the record after the header is in the arena but is not linked
    (its neighbours do not point back at it, so Remove returns false),
    Destroy does not return: every turn of the loop reads the same record
    again, whatever the fuel. *)
Theorem Destroy_spins_on_a_detached_record (kMax fuel : nat)
    (st : Teardown.State) (h r : DLRecord) :
  let e := Teardown.engine st in
  memory e !! header e = Some h -> next h <> header e ->
  memory e !! next h = Some r ->
  DLList.linked (memory e) (next h) = false ->
  Teardown.Destroy kMax fuel st = Spinning.
Proof.
  destruct st as [e hl d f]. cbn [Teardown.engine]. intros Hh Hne Hr Hl.
  assert (Hloop : forall to_free,
            Teardown.destroy_loop kMax fuel (Some (header e)) to_free
              (Teardown.Build_State e hl d f) = Spinning).
  { induction fuel as [|fuel IH]; intros to_free; [reflexivity|].
    cbn [Teardown.destroy_loop]. unfold bind at 1.
    rewrite (lift_deref _ _ _ _ _ _ Hh).
    unfold Allocator.offset2addr_checked.
    unfold bind at 1. rewrite (lift_deref _ _ _ _ _ _ Hr).
    unfold bind at 1. unfold Teardown.lift at 1. cbn [Teardown.engine].
    rewrite (Remove_unlinked e _ r Hr Hl). unfold Teardown.set_engine.
    cbn [Teardown.engine Teardown.hlists Teardown.destroyed Teardown.freed].
    unfold bind at 1, ret at 1. cbn [same_record].
    replace (next h =? header e) with false
      by (symmetry; apply N.eqb_neq; exact Hne).
    apply IH. }
  unfold Teardown.Destroy. unfold bind at 1.
  unfold Teardown.lift at 1, HeaderRecord, DLList.Header, bind, get, ret.
  cbn [Teardown.engine is_nonnull]. unfold Teardown.set_engine.
  cbn [Teardown.engine Teardown.hlists Teardown.destroyed Teardown.freed].
  rewrite Hloop. reflexivity.
Qed.

Section DestroyAllRuns.
Import Teardown.
Variable kMax : nat.




End DestroyAllRuns.


(** ** Writes leave a collection that can be torn down *)

Lemma writes_shape (fuel : nat) (k v : string) (t : N) (st st' : Engine)
    (r : WriteResult) :
  free_space_unused st ->
  Put fuel k v t st = Done r st' \/ Delete fuel k t st = Done r st' ->
  st' = st
  \/ exists new R status p n,
       memory st !! new = None
       /\ memory st' = DLList.link p n new (<[new := R]> (memory st))
       /\ entries st'
          = <[InternalKey (ID st) k :=
                {| entry_type := RecordType.HashElem; entry_status := status;
                   index_type := PointerType.DLRecord;
                   dl_record := Some new |}]> (entries st)
       /\ header st' = header st /\ this st' = this st.
Proof.
  intros Hunused [H|H].
  - apply Put_Done in H as [[-> _]|H]; [left; reflexivity|right].
    destruct H as (g & rest & older & p & n & rcs & d & z & F & -> & _).
    pose proof (first_fit_unused _ _ _ _ Hunused F) as Hnew.
    exists (space_offset g). do 4 eexists. split; [exact Hnew|].
    repeat split.
  - apply Delete_Done in H as [[-> _]|H]; [left; reflexivity|right].
    destruct H as (g & rest & older & p & n & rcs & d & z & F & -> & _).
    pose proof (first_fit_unused _ _ _ _ Hunused F) as Hnew.
    exists (space_offset g). do 4 eexists. split; [exact Hnew|].
    repeat split.
Qed.

(** X22: A Put or Delete that returns on a consistent collection that
    Destroy can tear down (ring and index going together, hash elements held
    by record pointer, a HashHeader header entered as this list's handle or
    not at all) leaves a collection that Destroy can tear down, with at most
    one record more, provided the element's internal key is not the header's
    key. *)
Theorem writes_keep_the_collection_destroyable (fuel : nat) (k v : string)
    (t : N) (st st' : Engine) (r : WriteResult) (offs : list N)
    (h : DLRecord) :
  consistent st -> destroyable st offs ->
  memory st !! header st = Some h -> Key h <> InternalKey (ID st) k ->
  Put fuel k v t st = Done r st' \/ Delete fuel k t st = Done r st' ->
  exists offs',
    destroyable st' offs'
    /\ (List.length offs' <= S (List.length offs))%nat.
Proof.
  intros Hc Hd Hh Hkey H.
  pose proof Hd as (HL & Hidx & h0 & Hh0 & Hth & Hhe).
  assert (h0 = h) by congruence. subst h0.
  destruct (writes_shape fuel k v t st st' r (proj1 Hc) H)
    as [->|(new & R & status & p & n & Hnew & Hm & He & Hhd & Hthis)].
  { exists offs. split; [exact Hd|lia]. }
  destruct (writes_keep_listed fuel k v t st st' r offs Hc HL H)
    as (offs' & HL' & Hlen).
  exists offs'. split; [|exact Hlen].
  split; [exact HL'|]. split.
  - intros k' x Hx Hty. rewrite He in Hx.
    apply lookup_insert_Some in Hx as [[_ <-]|[_ Hx]]; [reflexivity|].
    exact (Hidx k' x Hx Hty).
  - exists (relinked p n new (header st) h).
    rewrite Hhd, Hm, link_lookup, lookup_insert_ne by congruence.
    rewrite Hh.
    destruct (relinked_payload p n new (header st) h)
      as (-> & _ & _ & _ & _ & -> & _).
    split; [reflexivity|]. split; [exact Hth|].
    rewrite He, lookup_insert_ne, Hthis by congruence. exact Hhe.
Qed.

(** ** On the concrete collection *)

Lemma Put_then_Get_witness :
  let st := Scenario.empty true in
  let st' := Scenario.with_a true in
  let r := {| HashList.s := Status.Ok; existing_record := None;
              write_record := Some 128;
              hash_entry_ptr := Some Scenario.ikey_a |} in
  Put 1 "a" "1" 10 st = Done r st'
  /\ Get "a" "" st' = Done (Status.Ok, "1"%string) st'.
Proof.
  cbv zeta.
  assert (HP : Put 1 "a" "1" 10 (Scenario.empty true)
               = Done {| HashList.s := Status.Ok; existing_record := None;
                         write_record := Some 128;
                         hash_entry_ptr := Some Scenario.ikey_a |}
                      (Scenario.with_a true))
    by (vm_compute; reflexivity).
  split; [exact HP|].
  exact (Put_then_Get 1 "a" "1" "" 10 _ _ _ HP eq_refl).
Defined.

Lemma Delete_then_Get_witness :
  let st := Scenario.with_a true in
  let st' := Scenario.tombstoned true in
  let r := {| HashList.s := Status.Ok; existing_record := Some 128;
              write_record := Some 256; hash_entry_ptr := None |} in
  Delete 3 "a" 30 st = Done r st'
  /\ Get "a" "" st' = Done (Status.NotFound, ""%string) st'.
Proof.
  cbv zeta.
  assert (HD : Delete 3 "a" 30 (Scenario.with_a true)
               = Done {| HashList.s := Status.Ok;
                         existing_record := Some 128;
                         write_record := Some 256; hash_entry_ptr := None |}
                      (Scenario.tombstoned true))
    by (vm_compute; reflexivity).
  split; [exact HD|].
  exact (Delete_then_Get 3 "a" "" 30 _ _ _ HD eq_refl).
Defined.

Lemma free_space_unused_with_a : free_space_unused (Scenario.with_a true).
Proof. unfold free_space_unused. repeat constructor. Qed.

Lemma writes_keep_other_keys_witness :
  let st := Scenario.with_a true in
  let st' := Scenario.after (Put 1 "b" "2" 20) st in
  let r := {| HashList.s := Status.Ok; existing_record := None;
              write_record := Some 256;
              hash_entry_ptr := Some (InternalKey 1 "b") |} in
  Put 1 "b" "2" 20 st = Done r st'
  /\ Get "a" "" st = Done (Status.Ok, "1"%string) st
  /\ Get "a" "" st' = Done (Status.Ok, "1"%string) st'.
Proof.
  cbv zeta.
  assert (HP : Put 1 "b" "2" 20 (Scenario.with_a true)
               = Done {| HashList.s := Status.Ok; existing_record := None;
                         write_record := Some 256;
                         hash_entry_ptr := Some (InternalKey 1 "b") |}
                      (Scenario.after (Put 1 "b" "2" 20)
                                      (Scenario.with_a true)))
    by (vm_compute; reflexivity).
  assert (HG : Get "a" "" (Scenario.with_a true)
               = Done (Status.Ok, "1"%string) (Scenario.with_a true))
    by (vm_compute; reflexivity).
  split; [exact HP|]. split; [exact HG|].
  refine (writes_keep_other_keys 1 "b" "a" "2" "" 20 _ _ _ _
            free_space_unused_with_a _ (or_introl HP) HG).
  discriminate.
Defined.

Lemma consistent_empty : consistent (Scenario.empty true).
Proof.
  unfold consistent. split; [repeat constructor|].
  split.
  { apply (bool_decide_unpack _). vm_compute. exact I. }
  split.
  { intros k e Hk. change ((∅ : gmap string HashEntry) !! k = Some e) in Hk.
    rewrite lookup_empty in Hk. discriminate. }
  split; [vm_compute; lia|]. split; [vm_compute; reflexivity|].
  vm_compute. reflexivity.
Qed.

Lemma writes_keep_Size_faithful_witness :
  consistent (Scenario.empty true) /\ consistent (Scenario.with_a true).
Proof.
  split; [exact consistent_empty|].
  refine (writes_keep_Size_faithful 1 "a" "1" 10 (Scenario.empty true) _
            {| HashList.s := Status.Ok; existing_record := None;
               write_record := Some 128;
               hash_entry_ptr := Some Scenario.ikey_a |}
            consistent_empty (or_introl _)).
  vm_compute. reflexivity.
Defined.

Lemma FetchID_of_written_record_witness :
  FetchID (Some 128) (Scenario.with_a true) = Done 1 (Scenario.with_a true).
Proof.
  refine (FetchID_of_written_record 1 "a" "1" 10 (Scenario.empty true) _
            {| HashList.s := Status.Ok; existing_record := None;
               write_record := Some 128;
               hash_entry_ptr := Some Scenario.ikey_a |}
            _ (or_introl _) _).
  - reflexivity.
  - vm_compute. reflexivity.
  - eexists. reflexivity.
Defined.

Lemma FetchID_is_silent_iff_MatchType_witness :
  let st := Scenario.with_a true in
  MatchType (Some 128) st = Done true st
  <-> exists id, FetchID (Some 128) st = Done id st.
Proof.
  cbv zeta.
  refine (FetchID_is_silent_iff_MatchType (Scenario.with_a true) 128
            (ConstructDLRecord 128 10 RecordType.HashElem RecordStatus.Normal
               kNullPMemOffset 0 0 Scenario.ikey_a "1" kPersistTime) _).
  vm_compute. reflexivity.
Defined.

Lemma entry_readable_with_a :
  entry_readable (Scenario.with_a true)
    (find true Scenario.ikey_a RecordType.HashElem (Scenario.with_a true)).
Proof. intros _. vm_compute. eauto. Qed.

Lemma Modify_abort_writes_nothing_witness :
  let st := Scenario.with_a true in
  Modify 3 "a" (fun _ => (ModifyOperation.Abort, ""%string)) 20 st
  = Done {| HashList.s := Status.Abort; existing_record := Some 128;
            write_record := None; hash_entry_ptr := None |} st.
Proof.
  cbv zeta.
  refine (Modify_abort_writes_nothing 3 "a"
            (fun _ => (ModifyOperation.Abort, ""%string)) 20
            (Scenario.with_a true) _ entry_readable_with_a eq_refl).
  vm_compute. discriminate.
Defined.

Lemma full_index_is_memory_overflow_witness :
  let st := FullIndex.engine true in
  let f : ModifyFunc := fun _ => (ModifyOperation.Write, "2"%string) in
  Put 1 "b" "2" 20 st
    = Done (with_s Status.MemoryOverflow WriteResult_default) st
  /\ Modify 1 "b" f 20 st
     = Done (with_s Status.MemoryOverflow WriteResult_default) st.
Proof.
  cbv zeta.
  refine (full_index_is_memory_overflow 1 "b" "2" _ 20 (FullIndex.engine true)
            _).
  vm_compute. reflexivity.
Defined.

Lemma Modify_write_is_Put_witness :
  let st := Scenario.with_a true in
  Modify 3 "a" (fun _ => (ModifyOperation.Write, "2"%string)) 20 st
  = Put 3 "a" "2" 20 st.
Proof.
  cbv zeta.
  refine (Modify_write_is_Put 3 "a" "2"
            (fun _ => (ModifyOperation.Write, "2"%string)) 20
            (Scenario.with_a true) _ entry_readable_with_a eq_refl _).
  - vm_compute. discriminate.
  - vm_compute. discriminate.
Defined.

Lemma Modify_delete_is_Delete_witness :
  let st := Scenario.with_a true in
  Modify 3 "a" (fun _ => (ModifyOperation.Delete, ""%string)) 30 st
  = Delete 3 "a" 30 st.
Proof.
  cbv zeta.
  refine (Modify_delete_is_Delete 3 "a" ""
            (fun _ => (ModifyOperation.Delete, ""%string)) 30
            (Scenario.with_a true)
            {| entry_type := RecordType.HashElem;
               entry_status := RecordStatus.Normal;
               index_type := PointerType.DLRecord;
               dl_record := Some 128 |} _ _ _ eq_refl _).
  - vm_compute. reflexivity.
  - reflexivity.
  - vm_compute. eauto.
  - vm_compute. discriminate.
Defined.

Lemma Modify_delete_of_dead_key_stops_debug_build_witness :
  let st := Scenario.empty true in
  Modify 3 "a" (fun _ => (ModifyOperation.Delete, ""%string)) 20 st
  = Crashed (set_free_list
               [Scenario.chunk 256; Scenario.chunk 384; Scenario.chunk 512]
               st).
Proof.
  cbv zeta.
  refine (Modify_delete_of_dead_key_stops_debug_build 3 "a" ""
            (fun _ => (ModifyOperation.Delete, ""%string)) 20
            (Scenario.empty true) (Scenario.chunk 128) _ eq_refl _ _ _
            eq_refl _).
  - vm_compute. discriminate.
  - intros H. vm_compute in H. discriminate.
  - vm_compute. reflexivity.
  - vm_compute. reflexivity.
Defined.

Lemma SetExpireTime_keeps_elements_witness :
  let st := Scenario.with_a true in
  let st' := Scenario.after (SetExpireTime 100 40) st in
  let r := {| HashList.s := Status.Ok; existing_record := Some 0;
              write_record := Some 256; hash_entry_ptr := None |} in
  SetExpireTime 100 40 st = Done r st'
  /\ Get "a" "" st' = Done (Status.Ok, "1"%string) st'.
Proof.
  cbv zeta.
  assert (HS : SetExpireTime 100 40 (Scenario.with_a true)
               = Done {| HashList.s := Status.Ok; existing_record := Some 0;
                         write_record := Some 256; hash_entry_ptr := None |}
                      (Scenario.after (SetExpireTime 100 40)
                                      (Scenario.with_a true)))
    by (vm_compute; reflexivity).
  split; [exact HS|].
  refine (SetExpireTime_keeps_elements 100 40 "a" "" _ _ _ _
            free_space_unused_with_a HS _).
  vm_compute. reflexivity.
Defined.

Lemma CheckIndex_verdict_witness :
  let st := Scenario.with_a true in
  CheckIndex 3 st = Done Status.Ok st
  /\ forall off, follows st (header st) off -> indexed st off.
Proof.
  cbv zeta.
  assert (HC : CheckIndex 3 (Scenario.with_a true)
               = Done Status.Ok (Scenario.with_a true))
    by (vm_compute; reflexivity).
  split; [exact HC|].
  destruct (CheckIndex_verdict 3 _ _ _ HC) as [(_ & _ & H)|(H & _)];
    [exact H|discriminate H].
Defined.

Lemma indexed_with_a : indexed (Scenario.with_a true) 128.
Proof.
  exists (ConstructDLRecord 128 10 RecordType.HashElem RecordStatus.Normal
            kNullPMemOffset 0 0 Scenario.ikey_a "1" kPersistTime),
         {| entry_type := RecordType.HashElem;
            entry_status := RecordStatus.Normal;
            index_type := PointerType.DLRecord;
            dl_record := Some 128 |}.
  repeat split; vm_compute; reflexivity.
Qed.

Lemma CheckIndex_passes_an_indexed_ring_witness :
  let st := Scenario.with_a true in
  ring st (header st) [128] /\ CheckIndex 3 st = Done Status.Ok st.
Proof.
  cbv zeta.
  assert (HR : ring (Scenario.with_a true) (header (Scenario.with_a true))
                    [128]).
  { cbn [ring]. split; [vm_compute; eauto|]. split; [discriminate|].
    split; [exact indexed_with_a|]. vm_compute. eauto. }
  split; [exact HR|].
  refine (CheckIndex_passes_an_indexed_ring 3 _ [128] HR _).
  cbn. lia.
Defined.

Lemma listed_empty : listed (Scenario.empty true) [].
Proof.
  split; [split; [|split]|split].
  - repeat constructor. apply not_elem_of_nil.
  - exists Scenario.header0. repeat split.
  - exact I.
  - intros o Ho. apply elem_of_nil in Ho. contradiction.
  - intros k e Hk. change ((∅ : gmap string HashEntry) !! k = Some e) in Hk.
    rewrite lookup_empty in Hk. discriminate.
Qed.

Lemma writes_keep_the_list_indexed_witness :
  let st' := Scenario.with_a true in
  exists offs',
    listed st' offs' /\ (List.length offs' <= 1)%nat
    /\ forall f, (List.length offs' < f)%nat ->
                 CheckIndex f st' = Done Status.Ok st'.
Proof.
  cbv zeta.
  refine (writes_keep_the_list_indexed 1 "a" "1" 10 (Scenario.empty true) _
            {| HashList.s := Status.Ok; existing_record := None;
               write_record := Some 128;
               hash_entry_ptr := Some Scenario.ikey_a |} []
            consistent_empty listed_empty (or_introl _)).
  vm_compute. reflexivity.
Defined.

Lemma writes_return_on_a_sound_engine_witness :
  let st := Scenario.empty true in
  (exists r st',
      Put 3 "a" "1" 10 st = Done r st'
      /\ (HashList.s r = Status.Ok
          \/ HashList.s r = Status.MemoryOverflow /\ st' = st))
  /\ (exists r st',
        Delete 3 "a" 10 st = Done r st'
        /\ (HashList.s r = Status.Ok
            \/ HashList.s r = Status.MemoryOverflow /\ st' = st)).
Proof.
  cbv zeta.
  refine (writes_return_on_a_sound_engine 3 "a" "1" 10 (Scenario.empty true)
            [] consistent_empty listed_empty _ _).
  - vm_compute. lia.
  - intros _ e off old Hk.
    change ((∅ : gmap string HashEntry) !! InternalKey 1 "a" = Some e) in Hk.
    rewrite lookup_empty in Hk. discriminate.
Defined.

Lemma stale_timestamp_stops_debug_build_witness :
  let st := Scenario.with_a true in
  let taken := set_free_list [Scenario.chunk 384; Scenario.chunk 512] st in
  Put 3 "a" "2" 10 st = Crashed taken
  /\ Delete 3 "a" 5 st = Crashed taken.
Proof.
  cbv zeta.
  destruct (stale_timestamp_stops_debug_build 3 "a" "2" 10
              (Scenario.with_a true)
              {| entry_type := RecordType.HashElem;
                 entry_status := RecordStatus.Normal;
                 index_type := PointerType.DLRecord;
                 dl_record := Some 128 |}
              128
              (ConstructDLRecord 128 10 RecordType.HashElem
                 RecordStatus.Normal kNullPMemOffset 0 0 Scenario.ikey_a "1"
                 kPersistTime))
    as [HP _]; try (vm_compute; reflexivity).
  { vm_compute. discriminate. }
  destruct (stale_timestamp_stops_debug_build 3 "a" "2" 5
              (Scenario.with_a true)
              {| entry_type := RecordType.HashElem;
                 entry_status := RecordStatus.Normal;
                 index_type := PointerType.DLRecord;
                 dl_record := Some 128 |}
              128
              (ConstructDLRecord 128 10 RecordType.HashElem
                 RecordStatus.Normal kNullPMemOffset 0 0 Scenario.ikey_a "1"
                 kPersistTime))
    as [_ HD]; try (vm_compute; reflexivity).
  { vm_compute. discriminate. }
  split.
  - apply (HP (Scenario.chunk 256)). vm_compute. reflexivity.
  - apply (HD (Scenario.chunk 256)); [reflexivity|]. vm_compute. reflexivity.
Defined.

Lemma writes_keep_existing_records_witness :
  let st := Scenario.with_a true in
  let st' := Scenario.after (Put 3 "a" "2" 20) st in
  Get "a" "" st' = Done (Status.Ok, "2"%string) st'
  /\ exists old',
       memory st' !! 128 = Some old'
       /\ Value old' = "1"%string /\ GetTimestamp old' = 10
       /\ GetRecordStatus old' = RecordStatus.Normal.
Proof.
  cbv zeta. split; [vm_compute; reflexivity|].
  destruct (writes_keep_existing_records 3 "a" "2" 20 (Scenario.with_a true)
              (Scenario.after (Put 3 "a" "2" 20) (Scenario.with_a true))
              {| HashList.s := Status.Ok; existing_record := Some 128;
                 write_record := Some 256;
                 hash_entry_ptr := Some Scenario.ikey_a |}
              128
              (ConstructDLRecord 128 10 RecordType.HashElem
                 RecordStatus.Normal kNullPMemOffset 0 0 Scenario.ikey_a "1"
                 kPersistTime))
    as (old' & Hm & _ & Hv & Ht & _ & _ & _ & Hs & _).
  - unfold free_space_unused. repeat constructor.
  - left. vm_compute. reflexivity.
  - vm_compute. reflexivity.
  - exists old'. split; [exact Hm|]. rewrite Hv, Ht, Hs. repeat split.
Defined.

(** ** Tearing down the concrete collections *)






Lemma Destroy_spins_on_a_detached_record_witness :
  Teardown.Destroy 0 5 (TeardownScenario.fresh TeardownScenario.detached)
  = Spinning.
Proof.
  refine (Destroy_spins_on_a_detached_record 0 5
            (TeardownScenario.fresh TeardownScenario.detached)
            (ConstructDLRecord 128 1 RecordType.HashHeader RecordStatus.Normal
               kNullPMemOffset 128 128 "h" (EncodeID 1) kPersistTime)
            (ConstructDLRecord 128 10 RecordType.HashElem RecordStatus.Normal
               kNullPMemOffset 999 0 Scenario.ikey_a "1" kPersistTime)
            _ _ _ _).
  - vm_compute. reflexivity.
  - discriminate.
  - vm_compute. reflexivity.
  - vm_compute. reflexivity.
Defined.

Lemma empty_destroyable : destroyable (Scenario.empty true) [].
Proof.
  split; [exact listed_empty|]. split.
  - intros k x Hx. change ((∅ : gmap string HashEntry) !! k = Some x) in Hx.
    rewrite lookup_empty in Hx. discriminate.
  - exists Scenario.header0. split; [reflexivity|]. split; [reflexivity|].
    left. reflexivity.
Qed.

Lemma writes_keep_the_collection_destroyable_witness :
  exists offs',
    destroyable (Scenario.with_a true) offs'
    /\ (List.length offs' <= 1)%nat.
Proof.
  refine (writes_keep_the_collection_destroyable 1 "a" "1" 10
            (Scenario.empty true) _
            {| HashList.s := Status.Ok; existing_record := None;
               write_record := Some 128;
               hash_entry_ptr := Some Scenario.ikey_a |} []
            Scenario.header0 consistent_empty empty_destroyable _ _
            (or_introl _)).
  - reflexivity.
  - vm_compute. discriminate.
  - vm_compute. reflexivity.
Defined.

(** * The worker side of the cleaner *)

Section WorkerLoops.
Import Cleaner CleanerCache Sweep Worker.

Lemma thread_cache_at_run (id : Z) (st : State) (tc : ThreadCache) :
  (0 <= id)%Z -> thread_cache_ st !! Z.to_nat id = Some tc ->
  thread_cache_at id st = Done tc st.
Proof.
  intros Hid Htc. unfold thread_cache_at.
  replace (id <? 0)%Z with false by (symmetry; apply Z.ltb_ge; exact Hid).
  rewrite Htc. reflexivity.
Qed.





Lemma maybeUpdateOldestSnapshot_run (round : N) (st : State) :
  maybeUpdateOldestSnapshot round st
  = Done (round_after round) (refreshed round st).
Proof.
  unfold maybeUpdateOldestSnapshot, refreshed, refreshes, round_after, bind.
  destruct (_ =? 0); [|reflexivity].
  unfold UpdatedOldestSnapshot, bind, GetCurrentTimestamp, modify.
  reflexivity.
Qed.


End WorkerLoops.


Lemma int_of_size_t_negative (n : N) :
  2 ^ 31 <= n mod 2 ^ 32 -> (CleanerCache.int_of_size_t n < 0)%Z.
Proof.
  intros H. unfold CleanerCache.int_of_size_t. cbv zeta.
  assert (E : (Z.of_N n mod 2 ^ 32)%Z = Z.of_N (n mod 2 ^ 32))
    by (rewrite N2Z.inj_mod; reflexivity).
  rewrite E.
  assert (n mod 2 ^ 32 < 2 ^ 32) by (apply N.mod_upper_bound; lia).
  assert (2 ^ 31 <= Z.of_N (n mod 2 ^ 32) < 2 ^ 32)%Z.
  { change (2 ^ 31)%Z with (Z.of_N (2 ^ 31)).
    change (2 ^ 32)%Z with (Z.of_N (2 ^ 32)). lia. }
  replace (Z.of_N (n mod 2 ^ 32) <? 2 ^ 31)%Z with false
    by (symmetry; apply Z.ltb_ge; lia).
  lia.
Qed.


(** X25: When both caches of the calling thread are empty,
    TryCleanCachedOldRecords changes nothing whatever the limit: the cleaner
    and the round counter stay as they were. *)
Theorem TryCleanCachedOldRecords_on_empty_caches (fuel : nat)
    (access_thread_id : Z) (round num_limit_clean : N)
    (st : Cleaner.State) :
  (0 <= access_thread_id)%Z ->
  Cleaner.thread_cache_ st !! Z.to_nat access_thread_id
    = Some {| Cleaner.old_data_records := [];
              Cleaner.old_delete_records := [] |} ->
  CleanerCache.TryCleanCachedOldRecords fuel access_thread_id round
    num_limit_clean st = Done round st.
Proof.
  intros Hid Htc. unfold CleanerCache.TryCleanCachedOldRecords, bind.
  rewrite (thread_cache_at_run _ _ _ Hid Htc). reflexivity.
Qed.

(** X26: A limit whose low 32 bits are 2^31 or more becomes a negative int,
    so for a thread with a non-empty cache the call purges nothing: it only
    advances the round counter and, every 10000th round, refreshes the
    oldest snapshot. *)
Theorem TryCleanCachedOldRecords_narrowed_limit_cleans_nothing (fuel : nat)
    (access_thread_id : Z) (round num_limit_clean : N)
    (st : Cleaner.State) (tc : Cleaner.ThreadCache) :
  (0 <= access_thread_id)%Z ->
  Cleaner.thread_cache_ st !! Z.to_nat access_thread_id = Some tc ->
  Cleaner.old_data_records tc <> []
  \/ Cleaner.old_delete_records tc <> [] ->
  2 ^ 31 <= num_limit_clean mod 2 ^ 32 ->
  CleanerCache.TryCleanCachedOldRecords fuel access_thread_id round
    num_limit_clean st
  = Done (Worker.round_after round) (Worker.refreshed round st).
Proof.
  intros Hid Htc Hne Hn.
  pose proof (int_of_size_t_negative _ Hn) as Hneg.
  unfold CleanerCache.TryCleanCachedOldRecords. unfold bind at 1.
  rewrite (thread_cache_at_run _ _ _ Hid Htc).
  replace ((0 <? List.length (Cleaner.old_data_records tc))%nat
           || (0 <? List.length (Cleaner.old_delete_records tc))%nat)
    with true.
  2:{ symmetry. apply orb_true_iff.
      destruct Hne as [H|H]; [left|right]; apply Nat.ltb_lt;
        destruct (_ tc); simpl; try congruence; lia. }
  replace (Z.to_nat (CleanerCache.int_of_size_t num_limit_clean)) with O
    by lia.
  unfold bind at 1. rewrite maybeUpdateOldestSnapshot_run. reflexivity.
Qed.


Section Purges.
Import Cleaner Sweep.

(** X27: For an old delete record whose record in the arena is a
    StringDeleteRecord and whose index slot exists, purgeOldDeleteRecord
    returns the record's offset and size, and clears the slot exactly when
    the slot still points at the record; nothing else changes. *)
Theorem purge_of_string_tombstone_clears_its_slot (fuel : nat)
    (r : OldDeleteRecord) (st : State) (off : N) (e : DataEntry) (a : N)
    (he : HashEntry) :
  pmem_delete_record r = Some off -> pmem st !! off = Some e ->
  type e = RecordType.StringDeleteRecord ->
  hash_entry_ref r = Some a -> hash_entries st !! a = Some he ->
  purgeOldDeleteRecord fuel r st
  = Done {| space_offset := off; space_size := record_size e |}
         (if ptr_eqb (index he) (Some off)
          then set_hash_entries (<[a := HashEntry_empty]> (hash_entries st))
                                st
          else st).
Proof.
  intros Hp He Ht Ha Hhe.
  unfold purgeOldDeleteRecord. rewrite Hp.
  unfold bind at 1. unfold deref_data at 1. rewrite He, Ht, Ha.
  destruct (ptr_eqb (index he) (Some off)) eqn:Eq.
  - unfold Clear, deref_hash_entry, addr2offset, deref_data, modify, ret,
      bind. rewrite Hhe, Eq, Hhe, Eq, Hhe.
    cbn [pmem set_hash_entries]. rewrite He. reflexivity.
  - unfold deref_hash_entry, addr2offset, deref_data, ret, bind.
    rewrite Hhe, Eq, He. reflexivity.
Qed.

Lemma purge_sorted_delete_contended (fuel : nat) (r : OldDeleteRecord)
    (off : N) (e : DataEntry) (a : N) (he : HashEntry) (target dram : ptr)
    (st : State) :
  pmem_delete_record r = Some off -> pmem st !! off = Some e ->
  hash_entry_ref r = Some a -> hash_entries st !! a = Some he ->
  (offset_type he = HashOffsetType.DLRecord
   /\ target = index he /\ dram = None)
  \/ (offset_type he = HashOffsetType.SkiplistNode
      /\ dram = index he
      /\ exists nd node, index he = Some nd
                         /\ skiplist_nodes st !! nd = Some node
                         /\ target = record node) ->
  (DLList.lost_races (purge_races st) < fuel)%nat ->
  purge_sorted_delete fuel r st
  = Done {| space_offset := off; space_size := record_size e |}
         (if ptr_eqb target (Some off)
          then set_hash_entries (<[a := HashEntry_empty]> (hash_entries st))
                 (set_purge_races
                    (drop (S (DLList.lost_races (purge_races st)))
                          (purge_races st))
                    (set_purged (purged st ++ [off]) st))
          else st).
Proof.
  intros Hp He Ha Hhe Htarget.
  revert st He Hhe Htarget.
  induction fuel as [|fuel IH]; intros st He Hhe Htarget Hfuel; [lia|].
  cbn [purge_sorted_delete]. rewrite Hp, Ha.
  unfold bind at 1. unfold deref_hash_entry at 1. rewrite Hhe.
  assert (Hfinish : forall st1, pmem st1 = pmem st ->
            (o <- addr2offset (Some off) ;;
             e0 <- deref_data (Some off) ;;
             ret {| space_offset := o; space_size := record_size e0 |}) st1
            = Done {| space_offset := off; space_size := record_size e |} st1).
  { intros st1 Hpm. unfold bind, addr2offset, ret, deref_data.
    rewrite Hpm, He. reflexivity. }
  assert (Hhead :
    (match offset_type he with
     | HashOffsetType.DLRecord => ret (index he, None)
     | HashOffsetType.SkiplistNode =>
         n <- deref_node (index he) ;; ret (record n, index he)
     | HashOffsetType.Other _ =>
         GlobalLogger_Error
           "Wrong time in handle pending free skiplist delete record" ;;;
         abort
     end) st = Done (target, dram) st).
  { destruct Htarget as [(-> & -> & ->)|(-> & -> & nd & node & Hi & Hn & ->)].
    - reflexivity.
    - unfold bind, deref_node. rewrite Hi, Hn. reflexivity. }
  unfold bind at 1. rewrite Hhead.
  destruct (ptr_eqb target (Some off)) eqn:Eq; [|apply Hfinish; reflexivity].
  unfold bind at 1. unfold Skiplist_Purge.
  unfold bind at 1. unfold get.
  destruct (purge_races st) as [|[] rest] eqn:Hraces.
  - unfold Clear, deref_hash_entry, addr2offset, modify, ret, bind.
    cbn [hash_entries set_purged set_purge_races tail]. rewrite Hhe.
    unfold deref_data.
    cbn [pmem set_hash_entries set_purged set_purge_races].
    rewrite He. reflexivity.
  - unfold bind at 1. unfold modify at 1. unfold bind at 1. unfold ret at 1.
    rewrite (IH (set_purge_races rest st) He Hhe Htarget);
      [rewrite ?Eq; reflexivity|simpl in Hfuel; cbn; lia].
  - unfold Clear, deref_hash_entry, addr2offset, modify, ret, bind.
    cbn [hash_entries set_purged set_purge_races tail]. rewrite Hhe.
    unfold deref_data.
    cbn [pmem set_hash_entries set_purged set_purge_races].
    rewrite He. reflexivity.
Qed.

(** X28: For an old delete record whose record is a SortedDeleteRecord and
    whose slot names a record or an existing skiplist node, with fuel above
    the number of contended splices, purgeOldDeleteRecord returns the
    record's offset and size; when the slot leads to the record it retries
    Skiplist::Purge through the contended attempts, splices the record out
    once and clears the slot, and otherwise it changes nothing. *)
Theorem purge_of_sorted_tombstone_retries_until_spliced (fuel : nat)
    (r : OldDeleteRecord) (st : State) (off : N) (e : DataEntry) (a : N)
    (he : HashEntry) (target dram : ptr) :
  pmem_delete_record r = Some off -> pmem st !! off = Some e ->
  type e = RecordType.SortedDeleteRecord ->
  hash_entry_ref r = Some a -> hash_entries st !! a = Some he ->
  (offset_type he = HashOffsetType.DLRecord
   /\ target = index he /\ dram = None)
  \/ (offset_type he = HashOffsetType.SkiplistNode
      /\ dram = index he
      /\ exists nd node, index he = Some nd
                         /\ skiplist_nodes st !! nd = Some node
                         /\ target = record node) ->
  (DLList.lost_races (purge_races st) < fuel)%nat ->
  purgeOldDeleteRecord fuel r st
  = Done {| space_offset := off; space_size := record_size e |}
         (if ptr_eqb target (Some off)
          then set_hash_entries (<[a := HashEntry_empty]> (hash_entries st))
                 (set_purge_races
                    (drop (S (DLList.lost_races (purge_races st)))
                          (purge_races st))
                    (set_purged (purged st ++ [off]) st))
          else st).
Proof.
  intros Hp He Ht Ha Hhe Htarget Hfuel.
  unfold purgeOldDeleteRecord. rewrite Hp.
  unfold bind at 1. unfold deref_data at 1. rewrite He, Ht.
  eapply purge_sorted_delete_contended; eassumption.
Qed.
End Purges.

Lemma TryCleanAll_sweep (fuel : nat) (st : Cleaner.State) :
  Sweep.cleanable fuel st ->
  let floor := Sweep.oldest st in
  let due_data := List.filter (Sweep.data_due floor) (Sweep.queued_data st) in
  let due_delete :=
    List.filter (Sweep.delete_due floor) (Sweep.queued_delete st) in
  let batch :=
    match due_delete with
    | [] => []
    | _ => [{| Cleaner.entries :=
                 map (fun r => Sweep.space_at (Cleaner.pmem st)
                                 (Cleaner.pmem_delete_record r)) due_delete;
               Cleaner.free_ts := Cleaner.clock st + 2 |}]
    end in
  let pending := Cleaner.pending_free_space_entries_ st ++ batch in
  exists st',
    Cleaner.TryCleanAll fuel st = Done tt st'
    /\ Cleaner.pending_free_space_entries_ st'
       = Sweep.drop_while (Sweep.batch_due floor) pending
    /\ Cleaner.freed st'
       = Cleaner.freed st
           ++ List.concat (map Cleaner.entries
                             (Sweep.take_while (Sweep.batch_due floor) pending))
           ++ map (fun r => Sweep.space_at (Cleaner.pmem st)
                              (Cleaner.pmem_data_record r)) due_data
    /\ Cleaner.thread_cache_ st'
       = map Sweep.fetched_cache (Cleaner.thread_cache_ st)
    /\ Cleaner.last_clean_all_ts_ st' = Cleaner.clock st
    /\ Cleaner.oldest_snapshot_ts st' = floor
    /\ Cleaner.clock st'
       = Cleaner.clock st + 2 + match due_delete with [] => 0 | _ => 1 end
    /\ Cleaner.snapshots st' = Cleaner.snapshots st
    /\ Cleaner.log st' = Cleaner.log st.
Proof.
  intros (Hdata & Hdel & Hnd & Hfuel) floor due_data due_delete batch pending.
  unfold Cleaner.TryCleanAll.
  unfold bind at 1. unfold Cleaner.GetCurrentTimestamp at 1.
  unfold bind at 1. unfold Cleaner.UpdatedOldestSnapshot, bind at 1.
  unfold Cleaner.GetCurrentTimestamp at 1, modify at 1.
  cbn [Cleaner.clock Cleaner.set_clock Cleaner.snapshots].
  unfold bind at 1. unfold Cleaner.OldestSnapshotTS, bind at 1, get at 1,
    ret at 1.
  cbn [Cleaner.oldest_snapshot_ts Cleaner.set_oldest_snapshot_ts].
  fold (Sweep.oldest st). fold floor.
  unfold bind at 1. unfold get at 1. unfold bind at 1.
  rewrite fetch_thread_caches_run.
  cbn [Cleaner.thread_cache_ Cleaner.global_old_data_records_
       Cleaner.global_old_delete_records_ Cleaner.set_clock
       Cleaner.set_oldest_snapshot_ts].
  unfold bind at 1. unfold modify at 1.
  unfold bind at 1. unfold get at 1. unfold bind at 1.
  cbn [Cleaner.global_old_data_records_ Cleaner.set_thread_cache
       Cleaner.set_global_old_data_records].
  rewrite scan_global_data_run by exact Hdata.
  fold (Sweep.queued_data st). fold due_data.
  cbn [Cleaner.pmem Cleaner.set_thread_cache Cleaner.set_global_old_data_records
       Cleaner.set_global_old_delete_records Cleaner.set_clock
       Cleaner.set_oldest_snapshot_ts app].
  unfold bind at 1. unfold get at 1. unfold bind at 1.
  cbn [Cleaner.global_old_delete_records_ Cleaner.set_pmem
       Cleaner.set_thread_cache Cleaner.set_global_old_data_records
       Cleaner.set_global_old_delete_records].
  match goal with
  | |- context [Cleaner.scan_global_delete fuel floor ?q [] [] ?s] =>
      destruct (scan_global_delete_run fuel floor q [] [] s)
        as (he & pr & pu & Hrun & _)
  end.
  { eapply Forall_impl; [exact Hdel|]. intros x.
    apply delete_purgeable_ext; try reflexivity.
    intros off. cbn [Cleaner.pmem Cleaner.set_pmem]. apply poisoned_type. }
  { exact Hnd. }
  { exact Hfuel. }
  rewrite Hrun. clear Hrun.
  fold (Sweep.queued_delete st). fold due_delete.
  cbn [app Cleaner.pmem Cleaner.set_pmem].
  unfold bind at 1. unfold modify at 1.
  assert (Hspaces :
    map (fun r => Sweep.space_at (foldl Sweep.poison (Cleaner.pmem st) due_data)
                    (Cleaner.pmem_delete_record r)) due_delete
    = map (fun r => Sweep.space_at (Cleaner.pmem st)
                      (Cleaner.pmem_delete_record r)) due_delete).
  { apply map_ext. intros x. apply space_at_poisoned. }
  rewrite Hspaces. clear Hspaces.
  unfold pending, batch. clear pending batch.
  clearbody due_data due_delete. clear Hdata Hdel Hnd.
  destruct due_delete as [|d due_delete'];
    destruct due_data as [|x due_data'];
    cbn [map List.length Nat.ltb Nat.leb];
    unfold bind, modify, get, ret, Cleaner.BatchFree,
      Cleaner.GetCurrentTimestamp;
    rewrite free_pending_run;
    (eexists; split; [reflexivity|]).
  all: cbn [Sweep.purge_touched
            Cleaner.global_old_data_records_ Cleaner.global_old_delete_records_
            Cleaner.pmem Cleaner.pending_free_space_entries_ Cleaner.freed
            Cleaner.clock Cleaner.thread_cache_ Cleaner.last_clean_all_ts_
            Cleaner.oldest_snapshot_ts Cleaner.snapshots Cleaner.log
            Cleaner.set_thread_cache Cleaner.set_global_old_data_records
            Cleaner.set_global_old_delete_records
            Cleaner.set_pending_free_space_entries
            Cleaner.set_last_clean_all_ts Cleaner.set_clock
            Cleaner.set_oldest_snapshot_ts Cleaner.set_pmem Cleaner.set_freed
            Cleaner.set_hash_entries Cleaner.set_purge_races
            Cleaner.set_purged Cleaner.set_log].
  all: rewrite ?app_nil_r.
  all: repeat split; try reflexivity.
  all: try (rewrite <- ?N.add_assoc; change (1 + 1) with 2;
            rewrite <- ?app_assoc; reflexivity).
  all: lia.
Qed.

Lemma oldest_le_clock (st : Cleaner.State) :
  Sweep.oldest st <= Cleaner.clock st + 1.
Proof.
  unfold Sweep.oldest. induction (Cleaner.snapshots st) as [|s l IH]; simpl; lia.
Qed.

Lemma take_while_snoc_false {A} (f : A -> bool) (l : list A) (x : A) :
  f x = false ->
  Sweep.take_while f (l ++ [x]) = Sweep.take_while f l
  /\ Sweep.drop_while f (l ++ [x]) = Sweep.drop_while f l ++ [x].
Proof.
  intros Hx. induction l as [|y l [IH1 IH2]]; simpl.
  - rewrite Hx. auto.
  - destruct (f y); [rewrite IH1, IH2; auto|]. split; reflexivity.
Qed.

(** X29: A TryCleanAll over cleanable queues returns with every thread's
    cached old data records taken (and its cached tombstones taken only when
    there are more than 10000000), last_clean_all_ts_ set to the timestamp
    read on entry, the oldest snapshot refreshed, the clock advanced, and
    the live snapshots and the log unchanged. *)
Theorem TryCleanAll_drains_caches_and_stamps (fuel : nat)
    (st : Cleaner.State) :
  Sweep.cleanable fuel st ->
  exists st',
    Cleaner.TryCleanAll fuel st = Done tt st'
    /\ Cleaner.thread_cache_ st'
       = map Sweep.fetched_cache (Cleaner.thread_cache_ st)
    /\ Cleaner.last_clean_all_ts_ st' = Cleaner.clock st
    /\ Cleaner.oldest_snapshot_ts st' = Sweep.oldest st
    /\ Cleaner.clock st < Cleaner.clock st'
    /\ Cleaner.snapshots st' = Cleaner.snapshots st
    /\ Cleaner.log st' = Cleaner.log st.
Proof.
  intros Hc. destruct (TryCleanAll_sweep fuel st Hc)
    as (st' & Hrun & _ & _ & Htc & Hlast & Hfloor & Hclock & Hsnap & Hlog).
  exists st'. repeat split; try assumption. rewrite Hclock. lia.
Qed.

(** X30: In a TryCleanAll over cleanable queues the space of the tombstones
    purged in this pass is never freed in the same pass: the batches freed
    are exactly the eligible head of the batches that were pending before,
    and the new batch, stamped two ticks after the entry timestamp, is
    queued behind the batches that remain. *)
Theorem TryCleanAll_keeps_the_new_batch_pending (fuel : nat)
    (st : Cleaner.State) :
  Sweep.cleanable fuel st ->
  let floor := Sweep.oldest st in
  let due_data := List.filter (Sweep.data_due floor) (Sweep.queued_data st) in
  let due_delete :=
    List.filter (Sweep.delete_due floor) (Sweep.queued_delete st) in
  let batch :=
    {| Cleaner.entries :=
         map (fun r => Sweep.space_at (Cleaner.pmem st)
                         (Cleaner.pmem_delete_record r)) due_delete;
       Cleaner.free_ts := Cleaner.clock st + 2 |} in
  exists st',
    Cleaner.TryCleanAll fuel st = Done tt st'
    /\ Cleaner.pending_free_space_entries_ st'
       = Sweep.drop_while (Sweep.batch_due floor)
                          (Cleaner.pending_free_space_entries_ st)
         ++ match due_delete with [] => [] | _ => [batch] end
    /\ Cleaner.freed st'
       = Cleaner.freed st
           ++ List.concat
                (map Cleaner.entries
                   (Sweep.take_while (Sweep.batch_due floor)
                      (Cleaner.pending_free_space_entries_ st)))
           ++ map (fun r => Sweep.space_at (Cleaner.pmem st)
                              (Cleaner.pmem_data_record r)) due_data.
Proof.
  intros Hc floor due_data due_delete batch.
  destruct (TryCleanAll_sweep fuel st Hc) as (st' & Hrun & Hpend & Hfreed & _).
  fold floor due_data due_delete in Hpend, Hfreed.
  exists st'. split; [exact Hrun|].
  rewrite Hpend, Hfreed. clear Hpend Hfreed.
  destruct due_delete as [|d rest] eqn:Hdue.
  - rewrite !app_nil_r. split; reflexivity.
  - fold batch.
    destruct (take_while_snoc_false (Sweep.batch_due floor)
                (Cleaner.pending_free_space_entries_ st) batch)
      as [-> ->]; [|split; reflexivity].
    unfold Sweep.batch_due, batch. cbn [Cleaner.free_ts].
    apply N.ltb_ge. pose proof (oldest_le_clock st). unfold floor. lia.
Qed.

(** ** On the concrete cleaner *)




Lemma TryCleanCachedOldRecords_on_empty_caches_witness :
  CleanerCache.TryCleanCachedOldRecords 2 1 9999 5 WorkerScenario.busy
  = Done 9999 WorkerScenario.busy.
Proof.
  refine (TryCleanCachedOldRecords_on_empty_caches 2 1 9999 5
            WorkerScenario.busy _ _).
  - lia.
  - reflexivity.
Defined.

Lemma TryCleanCachedOldRecords_narrowed_limit_cleans_nothing_witness :
  CleanerCache.TryCleanCachedOldRecords 2 0 0 (2 ^ 31) WorkerScenario.busy
  = Done 1 WorkerScenario.busy.
Proof.
  refine (TryCleanCachedOldRecords_narrowed_limit_cleans_nothing 2 0 0
            (2 ^ 31) WorkerScenario.busy WorkerScenario.backlog _ _ _ _).
  - lia.
  - reflexivity.
  - left. discriminate.
  - vm_compute. discriminate.
Defined.


Lemma purge_of_string_tombstone_clears_its_slot_witness :
  let st := SweepScenario.cleaner in
  Cleaner.purgeOldDeleteRecord 2 SweepScenario.string_tombstone st
  = Done {| space_offset := 192; space_size := 64 |}
         (Cleaner.set_hash_entries
            (<[1 := Cleaner.HashEntry_empty]> (Cleaner.hash_entries st)) st).
Proof.
  cbv zeta.
  refine (purge_of_string_tombstone_clears_its_slot 2
            SweepScenario.string_tombstone SweepScenario.cleaner 192
            {| Cleaner.record_size := 64;
               Cleaner.type := Cleaner.RecordType.StringDeleteRecord;
               Cleaner.poisoned := false |}
            1 {| Cleaner.offset_type := Cleaner.HashOffsetType.Other 1;
                 Cleaner.index := Some 192 |} _ _ _ _ _);
    vm_compute; reflexivity.
Defined.

Lemma purge_of_sorted_tombstone_retries_until_spliced_witness :
  let st := SweepScenario.cleaner in
  Cleaner.purgeOldDeleteRecord 2 SweepScenario.sorted_tombstone st
  = Done {| space_offset := 256; space_size := 64 |}
         (Cleaner.set_hash_entries
            (<[2 := Cleaner.HashEntry_empty]> (Cleaner.hash_entries st))
            (Cleaner.set_purge_races []
               (Cleaner.set_purged [256] st))).
Proof.
  cbv zeta.
  refine (purge_of_sorted_tombstone_retries_until_spliced 2
            SweepScenario.sorted_tombstone SweepScenario.cleaner 256
            {| Cleaner.record_size := 64;
               Cleaner.type := Cleaner.RecordType.SortedDeleteRecord;
               Cleaner.poisoned := false |}
            2 {| Cleaner.offset_type := Cleaner.HashOffsetType.SkiplistNode;
                 Cleaner.index := Some 9 |}
            (Some 256) (Some 9) _ _ _ _ _ _ _);
    try (vm_compute; reflexivity).
  right. split; [reflexivity|]. split; [reflexivity|].
  exists 9, {| Cleaner.record := Some 256 |}. repeat split.
Defined.

Lemma cleaner_cleanable : Sweep.cleanable 2 SweepScenario.cleaner.
Proof.
  unfold Sweep.cleanable. split; [|split; [|split]].
  - replace (List.filter _ _)
      with [SweepScenario.queued_data; SweepScenario.early_data]
      by (vm_compute; reflexivity).
    repeat constructor; eexists _, _;
      (split; [reflexivity|]); (split; [vm_compute; reflexivity|]);
      first [left; reflexivity | right; reflexivity].
  - replace (List.filter _ _)
      with [SweepScenario.string_tombstone; SweepScenario.sorted_tombstone]
      by (vm_compute; reflexivity).
    repeat constructor.
    + exists 192, {| Cleaner.record_size := 64;
                     Cleaner.type := Cleaner.RecordType.StringDeleteRecord;
                     Cleaner.poisoned := false |},
             1, {| Cleaner.offset_type := Cleaner.HashOffsetType.Other 1;
                   Cleaner.index := Some 192 |}.
      repeat split; vm_compute; reflexivity.
    + exists 256, {| Cleaner.record_size := 64;
                     Cleaner.type := Cleaner.RecordType.SortedDeleteRecord;
                     Cleaner.poisoned := false |},
             2, {| Cleaner.offset_type := Cleaner.HashOffsetType.SkiplistNode;
                   Cleaner.index := Some 9 |}.
      repeat split; try (vm_compute; reflexivity).
      exists 9, {| Cleaner.record := Some 256 |}. split; reflexivity.
  - apply (bool_decide_unpack _). vm_compute. exact I.
  - vm_compute. lia.
Qed.

Lemma TryCleanAll_drains_caches_and_stamps_witness :
  let st := SweepScenario.cleaner in
  exists st',
    Cleaner.TryCleanAll 2 st = Done tt st'
    /\ Cleaner.thread_cache_ st'
       = [{| Cleaner.old_data_records := [];
             Cleaner.old_delete_records := [] |};
          {| Cleaner.old_data_records := [];
             Cleaner.old_delete_records := [] |}]
    /\ Cleaner.last_clean_all_ts_ st' = 20
    /\ Cleaner.oldest_snapshot_ts st' = 12
    /\ 20 < Cleaner.clock st'.
Proof.
  cbv zeta.
  destruct (TryCleanAll_drains_caches_and_stamps 2 SweepScenario.cleaner
              cleaner_cleanable)
    as (st' & Hrun & Hcache & Hlast & Hfloor & Hclock & _).
  exists st'. split; [exact Hrun|].
  rewrite Hcache, Hlast, Hfloor. repeat split; try (vm_compute; reflexivity).
  exact Hclock.
Defined.

Lemma TryCleanAll_keeps_the_new_batch_pending_witness :
  let st := SweepScenario.cleaner in
  exists st',
    Cleaner.TryCleanAll 2 st = Done tt st'
    /\ Cleaner.pending_free_space_entries_ st'
       = [{| Cleaner.entries := [{| space_offset := 2048; space_size := 64 |}];
             Cleaner.free_ts := 12 |};
          {| Cleaner.entries := [{| space_offset := 4096; space_size := 64 |}];
             Cleaner.free_ts := 4 |};
          {| Cleaner.entries := [{| space_offset := 192; space_size := 64 |};
                                 {| space_offset := 256; space_size := 64 |}];
             Cleaner.free_ts := 22 |}].
Proof.
  cbv zeta.
  destruct (TryCleanAll_keeps_the_new_batch_pending 2 SweepScenario.cleaner
              cleaner_cleanable)
    as (st' & Hrun & Hpending & _).
  exists st'. split; [exact Hrun|].
  rewrite Hpending. vm_compute. reflexivity.
Defined.
